(** * SocialScraper: link classification, browser session and platform scrapers

    A shallow embedding of [app.py] (the link classifier
    [validate_social_link]) and of [scraper.py] ([BaseScraper] and its four
    platform subclasses), followed by the properties of the specification
    that are stated about them.

    Conventions.
    - A Python [str] is a [string]; a character is a code point below 256,
      classified as Python's Unicode database classifies that code point.
    - A [dict] is an association list in insertion order, which is the
      iteration order of a Python dict.
    - The browser is external: every driver call is an operation of the
      [Browser] interface on an abstract world, and may raise.  Programs
      are written in a state-and-exception monad over that world.
    - Logging is left out: it changes neither the control flow nor the
      browser.  The one logging argument that reads the browser
      ([self.driver.title]) is kept. *)

(** * The program *)

From Stdlib Require Import String Ascii List Bool Arith ZArith Lia.
From Stdlib Require Import DecimalString.
Import ListNotations.
Open Scope list_scope.
Open Scope string_scope.

(** ** Python strings *)

Module PyStr.

Definition code (c : ascii) : nat := nat_of_ascii c.

Definition between (lo hi : nat) (c : ascii) : bool :=
  Nat.leb lo (code c) && Nat.leb (code c) hi.

(** [str.isspace] on one character. *)
Definition isspace (c : ascii) : bool :=
  between 9 13 c || between 28 32 c || Nat.eqb (code c) 133 || Nat.eqb (code c) 160.

(** [\d] of the [re] module on a [str] pattern. *)
Definition isdecimal (c : ascii) : bool := between 48 57 c.

(** [\w] of the [re] module on a [str] pattern: alphanumeric or underscore. *)
Definition isword (c : ascii) : bool :=
  between 48 57 c || between 65 90 c || Nat.eqb (code c) 95 || between 97 122 c
  || Nat.eqb (code c) 170 || between 178 179 c || Nat.eqb (code c) 181
  || between 185 186 c || between 188 190 c || between 192 214 c
  || between 216 246 c || between 248 255 c.

(** [s.startswith(p)] *)
Fixpoint startswith (p s : string) : bool :=
  match p, s with
  | EmptyString, _ => true
  | String a p', String b s' => Ascii.eqb a b && startswith p' s'
  | String _ _, EmptyString => false
  end.

(** [s.startswith((p1, p2, ...))] *)
Definition startswith_any (ps : list string) (s : string) : bool :=
  existsb (fun p => startswith p s) ps.

(** [s.rstrip(chars)], [chars] given as a membership test. *)
Fixpoint rstrip_by (drop : ascii -> bool) (s : string) : string :=
  match s with
  | EmptyString => EmptyString
  | String a s' =>
      match rstrip_by drop s' with
      | EmptyString => if drop a then EmptyString else String a EmptyString
      | r => String a r
      end
  end.

Fixpoint lstrip_by (drop : ascii -> bool) (s : string) : string :=
  match s with
  | EmptyString => EmptyString
  | String a s' => if drop a then lstrip_by drop s' else s
  end.

Fixpoint mem (c : ascii) (chars : string) : bool :=
  match chars with
  | EmptyString => false
  | String a r => Ascii.eqb a c || mem c r
  end.

Definition rstrip (chars s : string) : string :=
  rstrip_by (fun c => mem c chars) s.

(** [s.strip()] *)
Definition strip (s : string) : string :=
  rstrip_by isspace (lstrip_by isspace s).

(** Truth value of a [str]. *)
Definition truthy (s : string) : bool :=
  match s with EmptyString => false | _ => true end.

(** [s.split(sep)[0]] for a one-character [sep]. *)
Fixpoint split_head (sep : ascii) (s : string) : string :=
  match s with
  | EmptyString => EmptyString
  | String a s' =>
      if Ascii.eqb a sep then EmptyString else String a (split_head sep s')
  end.

(** [s.replace(old, new)] for a non-empty [old]; [skip] counts the
    characters of a matched occurrence that are still to be dropped. *)
Fixpoint replace_from (skip : nat) (old new s : string) : string :=
  match s with
  | EmptyString => EmptyString
  | String a s' =>
      match skip with
      | S k => replace_from k old new s'
      | O =>
          if startswith old s
          then new ++ replace_from (String.length old - 1) old new s'
          else String a (replace_from 0 old new s')
      end
  end.

Definition replace (old new s : string) : string :=
  match old with
  | EmptyString => s
  | _ => replace_from 0 old new s
  end.

Fixpoint last_char (s : string) : option ascii :=
  match s with
  | EmptyString => None
  | String a EmptyString => Some a
  | String _ s' => last_char s'
  end.

(** [c * k] *)
Fixpoint repeat_char (c : ascii) (k : nat) : string :=
  match k with
  | O => EmptyString
  | S k' => String c (repeat_char c k')
  end.

(** [str(n)] for a non-negative [int]. *)
Definition str_of_nat (n : nat) : string :=
  NilEmpty.string_of_uint (Nat.to_uint n).

End PyStr.

(** ** [BaseScraper._format_url] *)

Definition _format_url (url : string) : string :=
  let url :=
    if negb (PyStr.startswith_any ["http://"; "https://"] url)
    then "https://" ++ url
    else url in
  PyStr.rstrip "/" url.

(** ** Regular expressions: the part of Python's [re] the classifier uses

    A pattern is a sequence of single-character atoms, each with an optional
    [?], [+] or [*], and [$].  [compile] reads the pattern text of the
    source; [search] is [re.search] as a truth value. *)

Module Re.

Inductive cls : Type :=
| CLit (c : ascii)          (* a literal character *)
| CWord                     (* \w *)
| CDigit.                   (* \d *)

Inductive atom : Type :=
| Single (k : cls)
| Dot                       (* . : any character but a newline *)
| CharSet (ms : list cls).  (* [...] *)

Inductive quant : Type := One | Opt | Plus | Star.

Inductive item : Type :=
| Atom (a : atom) (q : quant)
| EndAnchor.                (* $ *)

Definition pattern : Type := list item.

Definition newline : ascii := ascii_of_nat 10.

Definition cls_matches (k : cls) (c : ascii) : bool :=
  match k with
  | CLit a => Ascii.eqb a c
  | CWord => PyStr.isword c
  | CDigit => PyStr.isdecimal c
  end.

Definition atom_matches (a : atom) (c : ascii) : bool :=
  match a with
  | Single k => cls_matches k c
  | Dot => negb (Ascii.eqb c newline)
  | CharSet ms => existsb (fun k => cls_matches k c) ms
  end.

(** [$] matches at the end of the string and just before a newline that
    ends the string. *)
Definition at_end (s : string) : bool :=
  match s with
  | EmptyString => true
  | String c EmptyString => Ascii.eqb c newline
  | _ => false
  end.

(** One character matching [a], then [k] on what follows. *)
Definition one (a : atom) (k : string -> bool) (s : string) : bool :=
  match s with
  | String c s' => atom_matches a c && k s'
  | EmptyString => false
  end.

(** Any number of characters matching [a], longest first, then [k]. *)
Fixpoint many (a : atom) (k : string -> bool) (s : string) : bool :=
  match s with
  | String c s' => (atom_matches a c && many a k s') || k s
  | EmptyString => k s
  end.

(** Does [p] match a prefix of [s]? *)
Fixpoint match_here (p : pattern) (s : string) {struct p} : bool :=
  match p with
  | [] => true
  | EndAnchor :: p' => at_end s && match_here p' s
  | Atom a One :: p' => one a (match_here p') s
  | Atom a Opt :: p' => one a (match_here p') s || match_here p' s
  | Atom a Plus :: p' => one a (many a (match_here p')) s
  | Atom a Star :: p' => many a (match_here p') s
  end.

(** Does [p] match somewhere in [s]? *)
Fixpoint search_compiled (p : pattern) (s : string) : bool :=
  match_here p s ||
  match s with
  | String _ s' => search_compiled p s'
  | EmptyString => false
  end.

(** *** Reading a pattern *)

Inductive pstate : Type :=
| Top
| Esc
| InSet (ms : list cls)
| SetEsc (ms : list cls).

Definition ascii_alnum (c : ascii) : bool :=
  PyStr.between 48 57 c || PyStr.between 65 90 c || PyStr.between 97 122 c.

(** The character after a backslash. *)
Definition escaped (c : ascii) : option cls :=
  if Ascii.eqb c "w" then Some CWord
  else if Ascii.eqb c "d" then Some CDigit
  else if ascii_alnum c then None
  else Some (CLit c).

Definition requantify (q : quant) (acc : list item) : option (list item) :=
  match acc with
  | Atom a One :: acc' => Some (Atom a q :: acc')
  | _ => None
  end.

(** [acc] holds the items read so far, last first. *)
Fixpoint parse (st : pstate) (acc : list item) (p : string)
  : option pattern :=
  match p with
  | EmptyString =>
      match st with Top => Some (rev acc) | _ => None end
  | String c p' =>
      match st with
      | Top =>
          if Ascii.eqb c "\" then parse Esc acc p'
          else if Ascii.eqb c "[" then parse (InSet []) acc p'
          else if Ascii.eqb c "$" then parse Top (EndAnchor :: acc) p'
          else if Ascii.eqb c "." then parse Top (Atom Dot One :: acc) p'
          else if Ascii.eqb c "?" then
            match requantify Opt acc with
            | Some acc' => parse Top acc' p' | None => None end
          else if Ascii.eqb c "+" then
            match requantify Plus acc with
            | Some acc' => parse Top acc' p' | None => None end
          else if Ascii.eqb c "*" then
            match requantify Star acc with
            | Some acc' => parse Top acc' p' | None => None end
          else if PyStr.mem c "^{}()|]" then None
          else parse Top (Atom (Single (CLit c)) One :: acc) p'
      | Esc =>
          match escaped c with
          | Some k => parse Top (Atom (Single k) One :: acc) p'
          | None => None
          end
      | InSet ms =>
          if Ascii.eqb c "]" then
            match ms with
            | [] => None
            | _ => parse Top (Atom (CharSet (rev ms)) One :: acc) p'
            end
          else if Ascii.eqb c "\" then parse (SetEsc ms) acc p'
          else if PyStr.mem c "^[" then None
          else if Ascii.eqb c "-" then
            (* a literal only where it cannot start a range *)
            match ms, PyStr.startswith "]" p' with
            | [], _ | _, true => parse (InSet (CLit c :: ms)) acc p'
            | _, false => None
            end
          else parse (InSet (CLit c :: ms)) acc p'
      | SetEsc ms =>
          match escaped c with
          | Some k => parse (InSet (k :: ms)) acc p'
          | None => None
          end
      end
  end.

Definition compile (p : string) : option pattern := parse Top [] p.

(** [bool(re.search(p, s))]; [false] for a pattern [compile] does not
    read (none of the classifier's, see [platform_patterns_compile]). *)
Definition search (p s : string) : bool :=
  match compile p with
  | Some r => search_compiled r s
  | None => false
  end.

End Re.

(** ** [validate_social_link] *)

(** A [dict] with [str] keys, in insertion order. *)
Definition dict (V : Type) : Type := list (string * V).

(** [d.get(key, default)] *)
Fixpoint dict_get {V : Type} (d : dict V) (key : string) (default : V) : V :=
  match d with
  | [] => default
  | (k, v) :: d' => if String.eqb k key then v else dict_get d' key default
  end.

Definition platform_patterns : dict (dict string) :=
  [ ("YouTube",
      [ ("channel", "youtube\.com/@?[\w-]+/?$");
        ("video", "youtube\.com/watch\?v=[\w-]+") ]);
    ("Instagram",
      [ ("profile", "instagram\.com/[\w_.]+/?$");
        ("post", "instagram\.com/p/[\w-]+") ]);
    ("TikTok",
      [ ("profile", "tiktok\.com/@[\w.]+/?$");
        ("video", "tiktok\.com/@[\w.]+/video/\d+") ]);
    ("Facebook",
      [ ("profile", "facebook\.com/[\w.]+/?$");
        ("post", "facebook\.com/[\w.]+/posts/[\w-]+") ]) ].

(** The [for link_type, pattern in patterns.items()] loop and the
    [return] after it. *)
Fixpoint first_link_type (patterns : dict string) (link : string)
  : bool * string :=
  match patterns with
  | [] => (false, "invalid")
  | (link_type, pattern) :: rest =>
      if Re.search pattern link then (true, link_type)
      else first_link_type rest link
  end.

Definition validate_social_link (platform link : string) : bool * string :=
  let patterns := dict_get platform_patterns platform [] in
  first_link_type patterns link.

Definition declared_platforms : list string :=
  ["YouTube"; "Instagram"; "TikTok"; "Facebook"].

(** ** Exceptions, outcomes and the browser interface *)


Inductive exn_class : Type :=
| Exception_                 (* Exception(msg), raised by the scrapers *)
| WebDriverException
| TimeoutException
| NoSuchElementException
| StaleElementReferenceException
| AttributeError
| KeyError.

(** An exception object: its class and [str(e)].  Every class here derives
    from [Exception], so [except Exception] and a bare [except] catch the
    same exceptions; signals such as [KeyboardInterrupt] are not modelled. *)
Record exn : Type := mk_exn { exn_cls : exn_class; exn_str : string }.

Inductive outcome (A : Type) : Type :=
| Ret (a : A)
| Raise (e : exn).
Arguments Ret {A} a.
Arguments Raise {A} e.

(** Selenium's [By] strategies the scrapers use. *)
Inductive By : Type := By_ID | By_XPATH | By_CSS_SELECTOR.

(** The calls the program makes to the outside, in order.  (Reading a
    property of an element or of the driver is not among them.) *)
Inductive event : Type :=
| EvChrome                               (* webdriver.Chrome(...) *)
| EvSetPageLoadTimeout (secs : Z)
| EvGet (url : string)                   (* driver.get(url) *)
| EvFind (by_ : By) (value : string)      (* driver.find_element(by, value) *)
| EvWait (by_ : By) (value : string)      (* wait.until(presence_of_element_located(...)) *)
| EvScript (js : string)                 (* driver.execute_script(js) *)
| EvCdp (cmd : string)                   (* driver.execute_cdp_cmd(cmd, ...) *)
| EvQuit                                 (* driver.quit() *)
| EvSleep (secs : Z).                    (* time.sleep(secs) *)

(** The browser automation driver.  [World] is everything outside the
    program (browser processes, pages, the clock), [Drv] a driver object,
    [Elem] a web element.  A call takes the world to a new world and
    returns or raises.  Reading a property of an element or of the driver
    ([text], [get_attribute], [title]) is a command to the browser like any
    other: it returns or raises and leaves a world of its own, so two reads
    of the same property need not agree. *)
Class Browser (World Drv Elem : Type) : Type := {
  chrome : list string -> World -> outcome Drv * World;
  set_page_load_timeout : Drv -> Z -> World -> outcome unit * World;
  get : Drv -> string -> World -> outcome unit * World;
  find_element : Drv -> By -> string -> World -> outcome Elem * World;
  wait_until_present : Drv -> Z -> By -> string -> World -> outcome Elem * World;
  execute_script : Drv -> string -> World -> outcome (option string) * World;
  execute_cdp_cmd : Drv -> string -> string -> World -> outcome unit * World;
  quit : Drv -> World -> outcome unit * World;
  text : Elem -> World -> outcome string * World;
  get_attribute : Elem -> string -> World -> outcome (option string) * World;
  title : Drv -> World -> outcome string * World;
  sleep : Z -> World -> World
}.

(** ** [dict] updates *)

(** [d[key] = v]: replaces the value in place, or appends a new key. *)
Fixpoint dict_set {V : Type} (d : dict V) (key : string) (v : V) : dict V :=
  match d with
  | [] => [(key, v)]
  | (k, x) :: d' =>
      if String.eqb k key then (k, v) :: d' else (k, x) :: dict_set d' key v
  end.

(** [d[key]], [None] for a [KeyError]. *)
Fixpoint dict_lookup {V : Type} (d : dict V) (key : string) : option V :=
  match d with
  | [] => None
  | (k, x) :: d' => if String.eqb k key then Some x else dict_lookup d' key
  end.

(** [list(d.keys())] *)
Definition keys {V : Type} (d : dict V) : list string := map fst d.

(** ** The scraper object and the program monad *)

Section Scraper.

Context {World Drv Elem : Type} {B : Browser World Drv Elem}.

(** The attributes of a scraper object.  [self_driver] is [None] while
    the object has no [driver] attribute, [Some None] while the attribute
    holds [None]; [self_wait] is the driver the [WebDriverWait] in
    [self.wait] was built on (with its 20 second timeout), when there is
    one. *)
Record Self : Type := mk_self {
  self_driver : option (option Drv);
  self_wait : option Drv;
  self_max_retries : Z;
  self_retry_delay : Z
}.

(** The state a method runs in: the world, the events so far, the
    object, and the local dict [result] of the scrape methods. *)
Record State : Type := mk_state {
  st_world : World;
  st_trace : list event;
  st_self : Self;
  st_result : dict string
}.

Definition M (A : Type) : Type := State -> outcome A * State.

Definition ret {A} (a : A) : M A := fun st => (Ret a, st).

Definition raise {A} (e : exn) : M A := fun st => (Raise e, st).

Definition bind {A C} (m : M A) (k : A -> M C) : M C :=
  fun st =>
    match m st with
    | (Ret a, st') => k a st'
    | (Raise e, st') => (Raise e, st')
    end.

(** [try: m  except: h] (a bare [except] or [except Exception]) *)
Definition try_except {A} (m : M A) (h : exn -> M A) : M A :=
  fun st =>
    match m st with
    | (Ret a, st') => (Ret a, st')
    | (Raise e, st') => h e st'
    end.

(** [try: m  except C: h] for one exception class [C] *)
Definition try_except_class {A} (c : exn_class -> bool) (m : M A)
           (h : exn -> M A) : M A :=
  fun st =>
    match m st with
    | (Ret a, st') => (Ret a, st')
    | (Raise e, st') => if c (exn_cls e) then h e st' else (Raise e, st')
    end.

(** A driver call: the world moves, the event is recorded. *)
Definition call {A} (ev : event) (op : World -> outcome A * World) : M A :=
  fun st =>
    let (r, w) := op (st_world st) in
    (r, mk_state w (st_trace st ++ [ev])%list (st_self st) (st_result st)).

(** A property read: the world moves, no event is recorded. *)
Definition read {A} (rd : World -> outcome A * World) : M A :=
  fun st =>
    let (r, w) := rd (st_world st) in
    (r, mk_state w (st_trace st) (st_self st) (st_result st)).

(** [time.sleep(secs)] *)
Definition time_sleep (secs : Z) : M unit :=
  fun st =>
    (Ret tt, mk_state (sleep secs (st_world st))
                      (st_trace st ++ [EvSleep secs])%list
                      (st_self st) (st_result st)).

Definition get_self : M Self := fun st => (Ret (st_self st), st).

Definition set_self (s : Self) : M unit :=
  fun st => (Ret tt, mk_state (st_world st) (st_trace st) s (st_result st)).

Definition get_result : M (dict string) := fun st => (Ret (st_result st), st).

Definition set_result (d : dict string) : M unit :=
  fun st => (Ret tt, mk_state (st_world st) (st_trace st) (st_self st) d).

End Scraper.

Declare Scope monad_scope.
Delimit Scope monad_scope with monad.
Notation "x <- m ;; k" := (bind m (fun x => k))
  (at level 61, m at next level, right associativity) : monad_scope.
Notation "m ;; k" := (bind m (fun _ => k))
  (at level 61, right associativity) : monad_scope.
Open Scope monad_scope.

(** Loop control: what one run of a loop body asks for. *)
Inductive ctl (R : Type) : Type :=
| Continue              (* go on with the next element *)
| Break                 (* leave the loop *)
| Return (r : R).       (* leave the function with [r] *)
Arguments Continue {R}.
Arguments Break {R}.
Arguments Return {R} r.

Section Methods.

Context {World Drv Elem : Type} {B : Browser World Drv Elem}.

Local Abbreviation M := (@M World Drv).

(** [for x in xs: body]; [Some r] when the body returned [r]. *)
Fixpoint for_each {X R} (xs : list X) (body : X -> M (ctl R)) : M (option R) :=
  match xs with
  | [] => ret None
  | x :: xs' =>
      c <- body x ;;
      match c with
      | Continue => for_each xs' body
      | Break => ret None
      | Return r => ret (Some r)
      end
  end.

(** [range(n)] *)
Definition range (n : Z) : list Z := map Z.of_nat (seq 0 (Z.to_nat n)).

(** [self.driver.attr]: the driver whose attribute [attr] is about to be
    used.  An [AttributeError] when [driver] holds [None], which has no
    [attr], or when the object has no [driver]. *)
Definition the_driver (attr : string) : M Drv :=
  s <- get_self ;;
  match self_driver s with
  | Some (Some d) => ret d
  | Some None =>
      raise (mk_exn AttributeError
               ("'NoneType' object has no attribute '" ++ attr ++ "'"))
  | None => raise (mk_exn AttributeError "object has no attribute 'driver'")
  end.

(** [self.wait] *)
Definition the_wait : M Drv :=
  s <- get_self ;;
  match self_wait s with
  | Some d => ret d
  | None => raise (mk_exn AttributeError "object has no attribute 'wait'")
  end.

(** [self.driver.get(url)] *)
Definition driver_get (url : string) : M unit :=
  d <- the_driver "get" ;; call (EvGet url) (get d url).

(** [self.driver.find_element(by, value)] *)
Definition driver_find_element (by_ : By) (value : string) : M Elem :=
  d <- the_driver "find_element" ;;
  call (EvFind by_ value) (find_element d by_ value).

(** [self.driver.execute_script(js)] *)
Definition driver_execute_script (js : string) : M (option string) :=
  d <- the_driver "execute_script" ;;
  call (EvScript js) (execute_script d js).

(** [self.driver.title] *)
Definition driver_title : M string :=
  d <- the_driver "title" ;; read (title d).

(** [self.wait.until(EC.presence_of_element_located((by, value)))] *)
Definition wait_until (by_ : By) (value : string) : M Elem :=
  d <- the_wait ;; call (EvWait by_ value) (wait_until_present d 20 by_ value).

(** [elem.text] *)
Definition elem_text (e : Elem) : M string := read (text e).

(** [elem.get_attribute(name)] *)
Definition elem_get_attribute (e : Elem) (name : string) : M (option string) :=
  read (get_attribute e name).

(** [result[key] = v] *)
Definition set_item (key v : string) : M unit :=
  d <- get_result ;; set_result (dict_set d key v).

(** [result[key]] *)
Definition get_item (key : string) : M string :=
  d <- get_result ;;
  match dict_lookup d key with
  | Some v => ret v
  | None => raise (mk_exn KeyError key)
  end.

(** *** [BaseScraper] *)

Definition _configure_chrome_options : list string :=
  [ "--headless=new"; "--disable-gpu"; "--no-sandbox";
    "--disable-dev-shm-usage"; "--disable-extensions";
    "--disable-software-rasterizer"; "--ignore-certificate-errors";
    "--disable-notifications"; "--disable-popup-blocking";
    "--start-maximized";
    "--user-agent=Mozilla/5.0 (Windows NT 10.0; Win64; x64) AppleWebKit/537.36 (KHTML, like Gecko) Chrome/132.0.6834.111 Safari/537.36" ].

(** The body of the [try] in [__init__]: one launch attempt.  (The
    service object of [_configure_chrome_service] is a path chosen from
    the file system; it is part of what [chrome] sees of the world.  The
    [self.driver] handed to [WebDriverWait] is the one the line before has
    called, the object being untouched in between.) *)
Definition launch_attempt : M unit :=
  let options := _configure_chrome_options in
  d <- call EvChrome (chrome options) ;;
  s <- get_self ;;
  set_self (mk_self (Some (Some d)) (self_wait s)
                    (self_max_retries s) (self_retry_delay s)) ;;
  d <- the_driver "set_page_load_timeout" ;;
  call (EvSetPageLoadTimeout 30) (set_page_load_timeout d 30) ;;
  s <- get_self ;;
  set_self (mk_self (self_driver s) (Some d)
                    (self_max_retries s) (self_retry_delay s)).

(** The exception [__init__] raises when the last attempt failed with [e]. *)
Definition launch_error (max_retries : Z) (e : exn) : exn :=
  mk_exn Exception_
    ("Failed to initialize Chrome driver after "
     ++ PyStr.str_of_nat (Z.to_nat max_retries) ++ " attempts: " ++ exn_str e).

(** One turn of the [for attempt in range(self.max_retries)] loop of
    [__init__]. *)
Definition init_turn (attempt : Z) : M (ctl unit) :=
  try_except
    (launch_attempt ;; ret Break)
    (fun e =>
       s <- get_self ;;
       if Z.eqb attempt (self_max_retries s - 1)
       then raise (launch_error (self_max_retries s) e)
       else (time_sleep (self_retry_delay s) ;; ret Continue)).

(** [BaseScraper.__init__] *)
Definition BaseScraper_init : M unit :=
  s <- get_self ;;
  set_self (mk_self (Some None) (self_wait s) 3 2) ;;
  s <- get_self ;;
  for_each (range (self_max_retries s)) init_turn ;;
  ret tt.

(** [BaseScraper.__del__] *)
Definition BaseScraper_del : M unit :=
  s <- get_self ;;
  match self_driver s with
  | Some (Some d) => try_except (call EvQuit (quit d)) (fun _ => ret tt)
  | _ => ret tt
  end.

(** One turn of the [for attempt in range(max_retries)] loop of
    [_safe_get]. *)
Definition safe_get_turn (url : string) (max_retries attempt : Z)
  : M (ctl bool) :=
  try_except
    (driver_get url ;; ret (Return true))
    (fun e =>
       if Z.eqb attempt (max_retries - 1)
       then ret (Return false)
       else (s <- get_self ;;
             time_sleep (self_retry_delay s) ;; ret Continue)).

(** [BaseScraper._safe_get] *)
Definition _safe_get (url : string) (max_retries : Z) : M bool :=
  r <- for_each (range max_retries) (safe_get_turn url max_retries) ;;
  match r with
  | Some b => ret b
  | None => ret false
  end.

(** [BaseScraper._safe_find_element] *)
Definition _safe_find_element (by_ : By) (value : string) : M (option Elem) :=
  try_except
    (e <- wait_until by_ value ;; ret (Some e))
    (fun _ => ret None).

End Methods.

(** ** The platform scrapers *)

Section Platforms.

Context {World Drv Elem : Type} {B : Browser World Drv Elem}.

Local Abbreviation M := (@M World Drv).

(** [if v: result[key] = v'] *)
Definition set_if (cond : bool) (key v : string) : M unit :=
  if cond then set_item key v else ret tt.

(** The body of a [try] that looks an element up with [find_element] and
    stores its trimmed text when that is not empty. *)
Definition store_text (by_ : By) (value key : string) : M unit :=
  e <- driver_find_element by_ value ;;
  t <- elem_text e ;;
  let found := PyStr.strip t in
  set_if (PyStr.truthy found) key found.

(** One turn of a [for selector in ..._selectors] loop: [find] is the
    lookup of the turn, [None] standing for Python's [None]. *)
Definition selector_turn (find : string -> M (option Elem))
           (key selector : string) : M (ctl unit) :=
  try_except
    (elem <- find selector ;;
     match elem with
     | Some el =>
         t <- elem_text el ;;
         if PyStr.truthy (PyStr.strip t)
         then (t' <- elem_text el ;;
               set_item key (PyStr.strip t') ;;
               ret Break)
         else ret Continue
     | None => ret Continue
     end)
    (fun _ => ret Continue).

(** The lookup of the YouTube loops: [self.wait.until(...)]. *)
Definition find_waiting (selector : string) : M (option Elem) :=
  e <- wait_until By_CSS_SELECTOR selector ;; ret (Some e).

(** The lookup of the Instagram loops: [self._safe_find_element(...)]. *)
Definition find_safely (selector : string) : M (option Elem) :=
  _safe_find_element By_CSS_SELECTOR selector.

Definition newline_char : ascii := ascii_of_nat 10.

(** *** [YouTubeScraper] *)

Definition youtube_channel_result : dict string :=
  [ ("platform", "YouTube"); ("type", "channel");
    ("channel_name", "Unknown"); ("subscribers", "Not available") ].

Definition youtube_channel_name_lookups : M unit :=
  try_except
    (store_text By_XPATH
       "//yt-formatted-string[contains(@class, 'ytd-channel-name')]"
       "channel_name")
    (fun _ =>
       try_except
         (store_text By_CSS_SELECTOR "ytd-channel-name h1" "channel_name")
         (fun _ =>
            try_except
              (e <- driver_find_element By_XPATH "//meta[@property='og:title']" ;;
               a <- elem_get_attribute e "content" ;;
               match a with
               | Some channel_name =>
                   set_if (PyStr.truthy channel_name) "channel_name"
                          (PyStr.replace " - YouTube" "" channel_name)
               | None => ret tt
               end)
              (fun _ => ret tt))).

Definition youtube_subscribers_lookups : M unit :=
  try_except
    (store_text By_ID "subscriber-count" "subscribers")
    (fun _ =>
       try_except
         (store_text By_XPATH "//yt-formatted-string[@id='subscriber-count']"
                     "subscribers")
         (fun _ =>
            try_except
              (store_text By_CSS_SELECTOR
                          "#metadata-container #subscriber-count" "subscribers")
              (fun _ => ret tt))).

Definition youtube_channel_name_script : M unit :=
  v <- get_item "channel_name" ;;
  if String.eqb v "Unknown" then
    try_except
      (r <- driver_execute_script
              "return document.querySelector('ytd-channel-name').innerText" ;;
       match r with
       | Some channel_name =>
           set_if (PyStr.truthy channel_name) "channel_name"
                  (PyStr.strip (PyStr.split_head newline_char channel_name))
       | None => ret tt
       end)
      (fun _ => ret tt)
  else ret tt.

Definition youtube_subscribers_script : M unit :=
  v <- get_item "subscribers" ;;
  if String.eqb v "Not available" then
    try_except
      (r <- driver_execute_script
              "return document.querySelector('#subscriber-count').innerText" ;;
       match r with
       | Some sub_count =>
           set_if (PyStr.truthy sub_count) "subscribers" (PyStr.strip sub_count)
       | None => ret tt
       end)
      (fun _ => ret tt)
  else ret tt.

(** The two [logging.error] calls at the end; the second reads
    [self.driver.title]. *)
Definition youtube_channel_log : M unit :=
  v <- get_item "channel_name" ;;
  missing <- (if String.eqb v "Unknown" then ret true
              else (s <- get_item "subscribers" ;;
                    ret (String.eqb s "Not available"))) ;;
  if (missing : bool) then (_ <- driver_title ;; ret tt) else ret tt.

(** The outer [try] of [scrape_profile], with its [except]. *)
Definition youtube_profile_try : M (dict string) :=
  try_except
    (time_sleep 5 ;;
     driver_execute_script
       "window.scrollTo(0, document.body.scrollHeight/2);" ;;
     time_sleep 2 ;;
     youtube_channel_name_lookups ;;
     youtube_subscribers_lookups ;;
     youtube_channel_name_script ;;
     youtube_subscribers_script ;;
     youtube_channel_log ;;
     get_result)
    (fun _ => get_result).

Definition YouTubeScraper_scrape_profile (url : string) : M (dict string) :=
  let url := _format_url url in
  ok <- _safe_get url 3 ;;
  if negb ok then raise (mk_exn Exception_ "Failed to load YouTube channel")
  else
    set_result youtube_channel_result ;;
    youtube_profile_try.

Definition youtube_video_result : dict string :=
  [ ("platform", "YouTube"); ("type", "video"); ("title", "Unknown");
    ("likes", "Not available"); ("views", "Not available") ].

Definition youtube_title_selectors : list string :=
  [ "h1.ytd-video-primary-info-renderer yt-formatted-string";
    "#container h1.ytd-video-primary-info-renderer";
    "ytd-watch-metadata h1.ytd-watch-metadata yt-formatted-string";
    "#title h1 yt-formatted-string" ].

Definition youtube_like_selectors : list string :=
  [ "#top-level-buttons-computed ytd-toggle-button-renderer:first-child #text";
    "ytd-menu-renderer ytd-toggle-button-renderer #text";
    "#info ytd-toggle-button-renderer:first-child #text";
    "ytd-watch-metadata ytd-toggle-button-renderer #text" ].

Definition youtube_title_xpath : M unit :=
  v <- get_item "title" ;;
  if String.eqb v "Unknown" then
    try_except
      (title_elem <- driver_find_element By_XPATH
         "//h1[contains(@class, 'ytd-video-primary-info-renderer')]//yt-formatted-string" ;;
       t <- elem_text title_elem ;;
       if PyStr.truthy (PyStr.strip t)
       then (t' <- elem_text title_elem ;; set_item "title" (PyStr.strip t'))
       else ret tt)
      (fun _ => ret tt)
  else ret tt.

(** The outer [try] of [scrape_post], with its [except]. *)
Definition youtube_post_try : M (dict string) :=
  try_except
    (time_sleep 5 ;;
     for_each youtube_title_selectors (selector_turn find_waiting "title") ;;
     for_each youtube_like_selectors (selector_turn find_waiting "likes") ;;
     youtube_title_xpath ;;
     get_result)
    (fun _ => get_result).

Definition YouTubeScraper_scrape_post (url : string) : M (dict string) :=
  let url := _format_url url in
  ok <- _safe_get url 3 ;;
  if negb ok then raise (mk_exn Exception_ "Failed to load YouTube video")
  else
    set_result youtube_video_result ;;
    youtube_post_try.

(** *** [InstagramScraper] *)

Definition instagram_user_agent : string :=
  "Mozilla/5.0 (Windows NT 10.0; Win64; x64) AppleWebKit/537.36 (KHTML, like Gecko) Chrome/132.0.6834.111 Safari/537.36".

Definition _configure_instagram : M unit :=
  s <- get_self ;;
  match self_driver s with
  | Some (Some _) =>
      driver_execute_script
        "Object.defineProperty(navigator, 'webdriver', {get: () => undefined})" ;;
      d <- the_driver "execute_cdp_cmd" ;;
      call (EvCdp "Network.setUserAgentOverride")
           (execute_cdp_cmd d "Network.setUserAgentOverride" instagram_user_agent)
  | Some None => ret tt
  | None => raise (mk_exn AttributeError "object has no attribute 'driver'")
  end.

Definition InstagramScraper_init : M unit :=
  BaseScraper_init ;; _configure_instagram.

Definition instagram_profile_result : dict string :=
  [ ("platform", "Instagram"); ("type", "profile");
    ("followers", "Not available"); ("following", "Not available");
    ("posts", "Not available") ].

Definition instagram_follower_selectors : list string :=
  [ "li:nth-child(2) span span"; "span._ac2a"; "span.g47SY" ].

Definition instagram_following_selectors : list string :=
  [ "li:nth-child(3) span span"; "span._ac2a:nth-child(2)";
    "span.g47SY:nth-child(2)" ].

(** The [try] of [scrape_profile], with its [except]. *)
Definition instagram_profile_try (url : string) : M (dict string) :=
  try_except
    (ok <- _safe_get url 3 ;;
     if negb ok then get_result
     else
       time_sleep 5 ;;
       for_each instagram_follower_selectors
                (selector_turn find_safely "followers") ;;
       for_each instagram_following_selectors
                (selector_turn find_safely "following") ;;
       get_result)
    (fun _ => get_result).

Definition InstagramScraper_scrape_profile (url : string) : M (dict string) :=
  let url := _format_url url in
  set_result instagram_profile_result ;;
  instagram_profile_try url.

Definition instagram_post_result : dict string :=
  [ ("platform", "Instagram"); ("type", "post");
    ("likes", "Not available"); ("comments", "Not available") ].

Definition instagram_like_selectors : list string :=
  [ "span.like-count"; "section._ae5m span"; "span._aacl" ].

(** The [try] of [scrape_post], with its [except]. *)
Definition instagram_post_try (url : string) : M (dict string) :=
  try_except
    (ok <- _safe_get url 3 ;;
     if negb ok then get_result
     else
       time_sleep 5 ;;
       for_each instagram_like_selectors (selector_turn find_safely "likes") ;;
       get_result)
    (fun _ => get_result).

Definition InstagramScraper_scrape_post (url : string) : M (dict string) :=
  let url := _format_url url in
  set_result instagram_post_result ;;
  instagram_post_try url.

(** *** [TikTokScraper] and [FacebookScraper] *)

Definition is_timeout (c : exn_class) : bool :=
  match c with TimeoutException => true | _ => false end.

(** [self.wait.until(...).text] *)
Definition wait_text (value : string) : M string :=
  e <- wait_until By_CSS_SELECTOR value ;; elem_text e.

(** The body of the [try] of [TikTokScraper.scrape_profile]. *)
Definition tiktok_profile_lookups : M (dict string) :=
  followers <- wait_text "strong[data-e2e='followers-count']" ;;
  e <- driver_find_element By_CSS_SELECTOR
                           "strong[data-e2e='following-count']" ;;
  following <- elem_text e ;;
  ret [ ("platform", "TikTok"); ("type", "profile");
        ("followers", followers); ("following", following) ].

Definition TikTokScraper_scrape_profile (url : string) : M (dict string) :=
  driver_get url ;;
  try_except_class is_timeout
    tiktok_profile_lookups
    (fun _ => raise (mk_exn Exception_ "Failed to load TikTok profile data")).

(** The body of the [try] of [TikTokScraper.scrape_post]. *)
Definition tiktok_post_lookups : M (dict string) :=
  likes <- wait_text "strong[data-e2e='like-count']" ;;
  ret [ ("platform", "TikTok"); ("type", "video"); ("likes", likes) ].

Definition TikTokScraper_scrape_post (url : string) : M (dict string) :=
  driver_get url ;;
  try_except_class is_timeout
    tiktok_post_lookups
    (fun _ => raise (mk_exn Exception_ "Failed to load TikTok video data")).

(** The body of the [try] of [FacebookScraper.scrape_profile]. *)
Definition facebook_profile_lookups : M (dict string) :=
  followers <- wait_text "div[data-key='followers']" ;;
  ret [ ("platform", "Facebook"); ("type", "profile");
        ("followers", followers) ].

Definition FacebookScraper_scrape_profile (url : string) : M (dict string) :=
  driver_get url ;;
  try_except_class is_timeout
    facebook_profile_lookups
    (fun _ => raise (mk_exn Exception_ "Failed to load Facebook profile data")).

(** The body of the [try] of [FacebookScraper.scrape_post]. *)
Definition facebook_post_lookups : M (dict string) :=
  likes <- wait_text "span.like-count" ;;
  ret [ ("platform", "Facebook"); ("type", "post"); ("likes", likes) ].

Definition FacebookScraper_scrape_post (url : string) : M (dict string) :=
  driver_get url ;;
  try_except_class is_timeout
    facebook_post_lookups
    (fun _ => raise (mk_exn Exception_ "Failed to load Facebook post data")).

End Platforms.

(** *** The eight operations, by platform and kind *)

Inductive Platform : Type := YouTube | Instagram | TikTok | Facebook.

Inductive Kind : Type := Profile | Post.

Definition scrape {World Drv Elem : Type} {B : Browser World Drv Elem}
           (p : Platform) (k : Kind) (url : string) : @M World Drv (dict string) :=
  match p, k with
  | YouTube, Profile => YouTubeScraper_scrape_profile url
  | YouTube, Post => YouTubeScraper_scrape_post url
  | Instagram, Profile => InstagramScraper_scrape_profile url
  | Instagram, Post => InstagramScraper_scrape_post url
  | TikTok, Profile => TikTokScraper_scrape_profile url
  | TikTok, Post => TikTokScraper_scrape_post url
  | Facebook, Profile => FacebookScraper_scrape_profile url
  | Facebook, Post => FacebookScraper_scrape_post url
  end.

(** The keys of the dict literal each operation builds. *)
Definition declared_fields (p : Platform) (k : Kind) : list string :=
  match p, k with
  | YouTube, Profile => ["platform"; "type"; "channel_name"; "subscribers"]
  | YouTube, Post => ["platform"; "type"; "title"; "likes"; "views"]
  | Instagram, Profile => ["platform"; "type"; "followers"; "following"; "posts"]
  | Instagram, Post => ["platform"; "type"; "likes"; "comments"]
  | TikTok, Profile => ["platform"; "type"; "followers"; "following"]
  | TikTok, Post => ["platform"; "type"; "likes"]
  | Facebook, Profile => ["platform"; "type"; "followers"]
  | Facebook, Post => ["platform"; "type"; "likes"]
  end.

(** ** The request handler of [app.py]

    [main] from the point where the platform and the link have been read,
    in a run in which no export button is pressed.  What it shows is the
    list it returns: [st.error], [st.success] and the table of the scraped
    record. *)

Inductive ui : Type :=
| UiError (msg : string)            (* st.error(msg) *)
| UiSuccess (msg : string)          (* st.success(msg) *)
| UiDataframe (data : dict string). (* st.dataframe(pd.DataFrame([data])) *)

(** [scrapers.get(platform)] *)
Definition scrapers_get (platform : string) : option Platform :=
  if String.eqb platform "YouTube" then Some YouTube
  else if String.eqb platform "Instagram" then Some Instagram
  else if String.eqb platform "TikTok" then Some TikTok
  else if String.eqb platform "Facebook" then Some Facebook
  else None.

(** [x in xs] for strings *)
Definition str_in (x : string) (xs : list string) : bool :=
  existsb (String.eqb x) xs.

Section Main.

Context {World Drv Elem : Type} {B : Browser World Drv Elem}.

Local Abbreviation M := (@M World Drv).

(** A new object, before its [__init__] has run: it has no [driver] and
    no [wait].  The two retry settings are fields of [Self] that always
    hold a number; they hold 0 here, which nothing reads, [__init__]
    assigning 3 and 2 to them before its first use of either. *)
Definition new_object : @Self Drv := mk_self None None 0 0.

(** [scraper_class()] *)
Definition construct (p : Platform) : M unit :=
  set_self new_object ;;
  match p with
  | Instagram => InstagramScraper_init
  | YouTube | TikTok | Facebook => BaseScraper_init
  end.

Definition main_request (platform link : string) : M (list ui) :=
  if negb (PyStr.truthy link) then ret []
  else
    let (is_valid, link_type) := validate_social_link platform link in
    if negb is_valid
    then ret [UiError "Invalid link format. Please check the URL and try again."]
    else
      let detected :=
        UiSuccess ("Valid " ++ platform ++ " " ++ link_type ++ " link detected!") in
      match scrapers_get platform with
      | Some p =>
          try_except
            (construct p ;;
             data <- (if str_in link_type ["channel"; "profile"]
                      then scrape p Profile link
                      else scrape p Post link) ;;
             match data with
             | [] => ret [detected]
             | _ => ret [detected; UiDataframe data]
             end)
            (fun e =>
               ret [detected;
                    UiError ("An error occurred while scraping: " ++ exn_str e)])
      | None => ret [detected]
      end.

End Main.

(** * Properties

    Everything above is the program; what follows are the statements about
    it, with the definitions they are stated in. *)

(** ** [_format_url] *)

Example format_url_bare :
  _format_url "youtube.com/@example/" = "https://youtube.com/@example".
Proof. reflexivity. Qed.

Example format_url_kept :
  _format_url "http://tiktok.com/@a.b//" = "http://tiktok.com/@a.b".
Proof. reflexivity. Qed.

Example format_url_empty : _format_url "" = "https:".
Proof. reflexivity. Qed.

(** ** Facts about stripping *)

Section Strip.

Variable drop : ascii -> bool.

Lemma rstrip_by_last :
  forall s c, PyStr.last_char (PyStr.rstrip_by drop s) = Some c -> drop c = false.
Proof.
  induction s as [|a s IH]; intros c; simpl.
  - discriminate.
  - destruct (PyStr.rstrip_by drop s) as [|b r] eqn:E.
    + destruct (drop a) eqn:D; simpl; [discriminate|].
      intros H; injection H as <-; exact D.
    + intros H. apply IH. exact H.
Qed.

Lemma rstrip_by_suffix :
  forall s, exists t,
    s = PyStr.rstrip_by drop s ++ t /\
    (forall c, PyStr.mem c t = true -> drop c = true).
Proof.
  induction s as [|a s (t & Hs & Ht)].
  - exists EmptyString; split; [reflexivity | simpl; discriminate].
  - simpl. destruct (PyStr.rstrip_by drop s) as [|b r] eqn:E.
    + destruct (drop a) eqn:D.
      * exists (String a t). split.
        -- simpl in Hs. simpl. f_equal. exact Hs.
        -- intros c. simpl. destruct (Ascii.eqb_spec a c) as [->|_]; simpl; auto.
      * exists t. simpl in *. split; [f_equal; exact Hs | exact Ht].
    + exists t. split; [simpl; f_equal; exact Hs | exact Ht].
Qed.

End Strip.

Lemma mem_slash_only :
  forall t, (forall c, PyStr.mem c t = true -> PyStr.mem c "/" = true) ->
            t = PyStr.repeat_char "/" (String.length t).
Proof.
  induction t as [|a t IH]; intros H; simpl; [reflexivity|].
  assert (Ha : PyStr.mem a "/" = true).
  { apply H. simpl. now rewrite Ascii.eqb_refl. }
  cbn [PyStr.mem] in Ha. rewrite orb_false_r in Ha.
  apply Ascii.eqb_eq in Ha. subst a.
  f_equal. apply IH. intros c Hc. apply H. simpl. now rewrite Hc, orb_true_r.
Qed.

(** C10. [_format_url] leaves a URL that starts with [http://] or
    [https://] as it is and puts [https://] in front of any other, then
    strips the trailing ['/'] characters of that string: what is removed is
    a run of ['/'] at the end, and the returned string never ends with
    ['/']. *)
Theorem format_url_strips :
  forall url,
    let full :=
      if PyStr.startswith "http://" url || PyStr.startswith "https://" url
      then url else "https://" ++ url in
    _format_url url = PyStr.rstrip "/" full
    /\ (exists k, full = _format_url url ++ PyStr.repeat_char "/" k)
    /\ PyStr.last_char (_format_url url) <> Some "/"%char.
Proof.
  intros url full.
  assert (E : _format_url url = PyStr.rstrip "/" full).
  { unfold _format_url, full, PyStr.startswith_any.
    cbn [existsb]. rewrite orb_false_r.
    destruct (PyStr.startswith "http://" url || PyStr.startswith "https://" url);
      reflexivity. }
  split; [exact E|]. rewrite E. unfold PyStr.rstrip. split.
  - destruct (rstrip_by_suffix (fun c => PyStr.mem c "/") full) as (t & Hs & Ht).
    exists (String.length t). rewrite <- (mem_slash_only t Ht). exact Hs.
  - intros H. apply rstrip_by_last in H. discriminate.
Qed.

(** ** The pattern reader and the classifier at work *)

Example compile_youtube_channel :
  Re.compile "youtube\.com/@?[\w-]+/?$" =
  Some (map (fun c => Re.Atom (Re.Single (Re.CLit c)) Re.One)
            (list_ascii_of_string "youtube.com/")
        ++ [Re.Atom (Re.Single (Re.CLit "@")) Re.Opt;
            Re.Atom (Re.CharSet [Re.CWord; Re.CLit "-"]) Re.Plus;
            Re.Atom (Re.Single (Re.CLit "/")) Re.Opt;
            Re.EndAnchor])%list.
Proof. reflexivity. Qed.

Example classify_youtube_channel :
  validate_social_link "YouTube" "https://youtube.com/@example" = (true, "channel").
Proof. vm_compute. reflexivity. Qed.

Example classify_youtube_video :
  validate_social_link "YouTube" "https://youtube.com/watch?v=abc123" = (true, "video").
Proof. vm_compute. reflexivity. Qed.

Example classify_instagram_post :
  validate_social_link "Instagram" "https://instagram.com/p/XYZ" = (true, "post").
Proof. vm_compute. reflexivity. Qed.

Example classify_tiktok_invalid :
  validate_social_link "TikTok" "not-a-url" = (false, "invalid").
Proof. vm_compute. reflexivity. Qed.

Example classify_unknown_platform :
  validate_social_link "Twitter" "https://youtube.com/@example" = (false, "invalid").
Proof. vm_compute. reflexivity. Qed.

(** ** The classifier returns the first matching kind *)

Lemma platform_patterns_compile :
  forall platform kind pat,
    In (kind, pat) (dict_get platform_patterns platform []) ->
    Re.compile pat <> None.
Proof.
  intros platform kind pat. unfold platform_patterns. cbn [dict_get].
  repeat match goal with
         | |- context [String.eqb ?a platform] => destruct (String.eqb a platform)
         end;
    cbn [In]; intros H;
    repeat match goal with
           | H : _ \/ _ |- _ => destruct H as [H|H]
           | H : (_, _) = (_, _) |- _ => injection H as <- <-
           | H : False |- _ => destruct H
           end;
    vm_compute; discriminate.
Qed.

Lemma first_link_type_hit :
  forall patterns link,
    (exists kind pat, In (kind, pat) patterns /\ Re.search pat link = true) ->
    exists before kind pat after,
      patterns = (before ++ (kind, pat) :: after)%list
      /\ (forall k p, In (k, p) before -> Re.search p link = false)
      /\ Re.search pat link = true
      /\ first_link_type patterns link = (true, kind).
Proof.
  induction patterns as [|[k0 p0] rest IH]; intros link (kind & pat & Hin & Hm).
  - destruct Hin.
  - cbn [first_link_type]. destruct (Re.search p0 link) eqn:E0.
    + exists [], k0, p0, rest. repeat split; auto. intros k p [].
    + destruct Hin as [Heq|Hin].
      * injection Heq as -> ->. congruence.
      * destruct (IH link) as (before & k & p & after & Hsplit & Hbefore & Hp & Hres).
        { exists kind, pat. split; assumption. }
        exists ((k0, p0) :: before), k, p, after. repeat split; auto.
        -- cbn. now rewrite Hsplit.
        -- intros k' p' [Heq|Hin']; [injection Heq as <- <-; exact E0 | eauto].
Qed.

Lemma first_link_type_miss :
  forall patterns link,
    (forall kind pat, In (kind, pat) patterns -> Re.search pat link = false) ->
    first_link_type patterns link = (false, "invalid").
Proof.
  induction patterns as [|[k0 p0] rest IH]; intros link H; cbn [first_link_type].
  - reflexivity.
  - rewrite (H k0 p0) by (left; reflexivity).
    apply IH. intros kind pat Hin. apply (H kind pat). right; exact Hin.
Qed.

(** C1. For a declared platform and a link that matches at least one of the
    platform's patterns, [validate_social_link] returns [True] with the kind
    of the first pattern of the platform's table, in declared order, that
    matches the link. *)
Theorem validate_social_link_first_match :
  forall platform link,
    In platform declared_platforms ->
    (exists kind pat,
        In (kind, pat) (dict_get platform_patterns platform [])
        /\ Re.search pat link = true) ->
    exists before kind pat after,
      dict_get platform_patterns platform [] = (before ++ (kind, pat) :: after)%list
      /\ (forall k p, In (k, p) before -> Re.search p link = false)
      /\ Re.search pat link = true
      /\ validate_social_link platform link = (true, kind).
Proof.
  intros platform link _ H. unfold validate_social_link.
  apply first_link_type_hit. exact H.
Qed.

Lemma validate_social_link_first_match_witness :
  In "Instagram" declared_platforms
  /\ exists before kind pat after,
      dict_get platform_patterns "Instagram" [] = (before ++ (kind, pat) :: after)%list
      /\ (forall k p, In (k, p) before ->
                      Re.search p "https://instagram.com/p/XYZ" = false)
      /\ Re.search pat "https://instagram.com/p/XYZ" = true
      /\ validate_social_link "Instagram" "https://instagram.com/p/XYZ" = (true, kind).
Proof.
  split; [cbn; auto|].
  apply (validate_social_link_first_match "Instagram" "https://instagram.com/p/XYZ").
  - cbn; auto.
  - exists "post", "instagram\.com/p/[\w-]+". split; [cbn; auto | vm_compute; reflexivity].
Defined.

(** C2. When the link matches none of the patterns declared for the
    platform, among them when the platform has no pattern at all,
    [validate_social_link] returns [(False, "invalid")]. *)
Theorem validate_social_link_no_match :
  forall platform link,
    (forall kind pat,
        In (kind, pat) (dict_get platform_patterns platform []) ->
        Re.search pat link = false) ->
    validate_social_link platform link = (false, "invalid").
Proof.
  intros platform link H. unfold validate_social_link.
  apply first_link_type_miss. exact H.
Qed.

Lemma validate_social_link_no_match_witness :
  validate_social_link "TikTok" "not-a-url" = (false, "invalid").
Proof.
  apply (validate_social_link_no_match "TikTok" "not-a-url").
  intros kind pat H. cbn in H.
  destruct H as [H|[H|[]]]; injection H as <- <-; vm_compute; reflexivity.
Defined.

(** ** Running the programs *)

Ltac run_monad :=
  cbv beta delta [bind ret raise try_except try_except_class call read
                  time_sleep get_self set_self get_result set_result] in *;
  cbn beta iota zeta delta [st_world st_trace st_self st_result
                            self_driver self_wait self_max_retries
                            self_retry_delay fst snd] in *.

Section Retry.

Context {World Drv Elem : Type} {B : Browser World Drv Elem}.

Local Abbreviation M := (@M World Drv).
Local Abbreviation State := (@State World Drv).

(** The state after [time.sleep(delay)] in [st]. *)
Definition slept (delay : Z) (st : State) : State :=
  snd (time_sleep delay st).

(** [failing_run attempt delay k st st']: from [st], [attempt] is run [k]
    times, fails every time and is followed every time by a sleep of
    [delay] seconds; [st'] is the state after the last of these sleeps. *)
Inductive failing_run (attempt : M unit) (delay : Z)
  : nat -> State -> State -> Prop :=
| failing_none : forall st, failing_run attempt delay 0 st st
| failing_more : forall k st e st1 st',
    attempt st = (Raise e, st1) ->
    failing_run attempt delay k (slept delay st1) st' ->
    failing_run attempt delay (S k) st st'.

Lemma for_each_cons :
  forall {X R} (x : X) (xs : list X) (body : X -> M (ctl R)) st,
    for_each (x :: xs) body st =
    match body x st with
    | (Ret Continue, st') => for_each xs body st'
    | (Ret Break, st') => (Ret None, st')
    | (Ret (Return r), st') => (Ret (Some r), st')
    | (Raise e, st') => (Raise e, st')
    end.
Proof.
  intros. cbn [for_each]. unfold bind.
  destruct (body x st) as [[[| |r]|e] st']; reflexivity.
Qed.

Lemma driver_get_self :
  forall url st, st_self (snd (driver_get url st)) = st_self st.
Proof.
  intros url st. unfold driver_get, the_driver. run_monad.
  destruct (self_driver (st_self st)) as [[d|]|]; cbn; try reflexivity.
  destruct (get d url (st_world st)) as [[[]|e] w]; reflexivity.
Qed.

(** *** One turn of [_safe_get] *)

Lemma safe_get_turn_ok :
  forall url n i st st',
    driver_get url st = (Ret tt, st') ->
    safe_get_turn url n i st = (Ret (Return true), st').
Proof.
  intros url n i st st' H. unfold safe_get_turn, try_except, bind.
  rewrite H. reflexivity.
Qed.

Lemma safe_get_turn_last :
  forall url n i st e st',
    driver_get url st = (Raise e, st') -> i = (n - 1)%Z ->
    safe_get_turn url n i st = (Ret (Return false), st').
Proof.
  intros url n i st e st' H ->. unfold safe_get_turn, try_except, bind.
  rewrite H, Z.eqb_refl. reflexivity.
Qed.

Lemma safe_get_turn_again :
  forall url n i st e st',
    driver_get url st = (Raise e, st') -> i <> (n - 1)%Z ->
    safe_get_turn url n i st
    = (Ret Continue, slept (self_retry_delay (st_self st)) st').
Proof.
  intros url n i st e st' H Hi. unfold safe_get_turn, try_except, bind at 1.
  rewrite H. destruct (Z.eqb_spec i (n - 1)); [contradiction|].
  pose proof (driver_get_self url st) as Hs. rewrite H in Hs. cbn in Hs.
  unfold slept. run_monad. rewrite Hs. reflexivity.
Qed.

(** The loop of [_safe_get] from attempt number [i] on, [m] attempts left. *)
Lemma safe_get_loop :
  forall url n m i st,
    Z.of_nat (i + m) = n ->
    let delay := self_retry_delay (st_self st) in
    let loop := for_each (map Z.of_nat (seq i m)) (safe_get_turn url n) in
    (exists k s st', (k < m)%nat
        /\ failing_run (driver_get url) delay k st s
        /\ driver_get url s = (Ret tt, st')
        /\ loop st = (Ret (Some true), st'))
    \/ (exists k s e st', m = S k
        /\ failing_run (driver_get url) delay k st s
        /\ driver_get url s = (Raise e, st')
        /\ loop st = (Ret (Some false), st'))
    \/ (m = 0%nat /\ loop st = (Ret None, st)).
Proof.
  intros url n m. induction m as [|m IH]; intros i st Hn delay loop.
  - right; right. split; reflexivity.
  - subst loop. cbn [seq map]. rewrite for_each_cons.
    destruct (driver_get url st) as [[[]|e] st1] eqn:Hget.
    + left. exists 0%nat, st, st1.
      rewrite (safe_get_turn_ok _ _ _ _ _ Hget).
      repeat split; [lia | constructor | exact Hget].
    + destruct (Z.eq_dec (Z.of_nat i) (n - 1)) as [Hlast|Hmore].
      * right; left. assert (m = 0%nat) by lia. subst m.
        exists 0%nat, st, e, st1.
        rewrite (safe_get_turn_last _ _ _ _ _ _ Hget Hlast).
        repeat split; [constructor | exact Hget].
      * rewrite (safe_get_turn_again _ _ _ _ _ _ Hget Hmore). fold delay.
        assert (Hd : self_retry_delay (st_self (slept delay st1)) = delay).
        { pose proof (driver_get_self url st) as Hs. rewrite Hget in Hs.
          cbn in Hs. unfold slept. run_monad. now rewrite Hs. }
        specialize (IH (S i) (slept delay st1)).
        assert (Hn' : Z.of_nat (S i + m) = n) by lia.
        specialize (IH Hn'). cbv zeta in IH. rewrite Hd in IH.
        destruct IH as [(k & s & st' & Hk & Hrun & Hok & Hloop)
                       |[(k & s & e' & st' & Hk & Hrun & Hfail & Hloop)
                        |(Hm & Hloop)]].
        -- left. exists (S k), s, st'. rewrite Hloop.
           repeat split; [lia | | exact Hok].
           econstructor; eassumption.
        -- right; left. exists (S k), s, e', st'. rewrite Hloop.
           repeat split; [lia | | exact Hfail].
           econstructor; eassumption.
        -- lia.
Qed.

End Retry.

(** ** Navigation with retries *)

Section SafeGet.

Context {World Drv Elem : Type} {B : Browser World Drv Elem}.

(** C7. [_safe_get] never raises.  It returns [True] right after the
    first [driver.get] that succeeds, which is one of the first
    [max_retries] attempts; it returns [False] when [max_retries] attempts
    have failed (and at once when [max_retries] is not positive).  Every
    failed attempt but the last of the [max_retries] is followed by one
    sleep of [self.retry_delay] seconds, and nothing else happens. *)
Theorem safe_get_returns_bool :
  forall (url : string) (n : Z) (st : @State World Drv),
    let delay := self_retry_delay (st_self st) in
    (exists b st', _safe_get url n st = (Ret b, st'))
    /\ ((exists k s st',
            (Z.of_nat k < n)%Z
            /\ failing_run (driver_get url) delay k st s
            /\ driver_get url s = (Ret tt, st')
            /\ _safe_get url n st = (Ret true, st'))
        \/ (exists k s e st',
               Z.of_nat (S k) = n
               /\ failing_run (driver_get url) delay k st s
               /\ driver_get url s = (Raise e, st')
               /\ _safe_get url n st = (Ret false, st'))
        \/ ((n <= 0)%Z /\ _safe_get url n st = (Ret false, st))).
Proof.
  intros url n st delay.
  assert (Hloop := safe_get_loop url (Z.of_nat (Z.to_nat n)) (Z.to_nat n) 0 st
                                 eq_refl).
  cbv zeta in Hloop. fold delay in Hloop.
  assert (Hcases :
    (exists k s st',
        (Z.of_nat k < n)%Z
        /\ failing_run (driver_get url) delay k st s
        /\ driver_get url s = (Ret tt, st')
        /\ _safe_get url n st = (Ret true, st'))
    \/ (exists k s e st',
           Z.of_nat (S k) = n
           /\ failing_run (driver_get url) delay k st s
           /\ driver_get url s = (Raise e, st')
           /\ _safe_get url n st = (Ret false, st'))
    \/ ((n <= 0)%Z /\ _safe_get url n st = (Ret false, st))).
  { destruct (Z.le_gt_cases n 0) as [Hn|Hn].
    - right; right. split; [exact Hn|].
      unfold _safe_get, range. replace (Z.to_nat n) with 0%nat by lia.
      reflexivity.
    - assert (Hnn : Z.of_nat (Z.to_nat n) = n) by lia.
      rewrite Hnn in Hloop.
      destruct Hloop as [(k & s & st' & Hk & Hrun & Hok & Hl)
                        |[(k & s & e & st' & Hk & Hrun & Hfail & Hl)
                         |(Hm & _)]].
      + left. exists k, s, st'. repeat split; [lia | exact Hrun | exact Hok |].
        unfold _safe_get, range, bind. rewrite Hl. reflexivity.
      + right; left. exists k, s, e, st'.
        repeat split; [lia | exact Hrun | exact Hfail |].
        unfold _safe_get, range, bind. rewrite Hl. reflexivity.
      + lia. }
  split; [|exact Hcases].
  destruct Hcases as [(k & s & st' & _ & _ & _ & H)
                     |[(k & s & e & st' & _ & _ & _ & H)|(_ & H)]];
    eauto.
Qed.

End SafeGet.

(** ** Session startup *)

Section Startup.

Context {World Drv Elem : Type} {B : Browser World Drv Elem}.

Local Abbreviation State := (@State World Drv).

(** What a launch attempt leaves of the retry settings, and what a
    successful one has done. *)
Lemma launch_attempt_inv :
  forall (st : State),
    let r := launch_attempt st in
    self_max_retries (st_self (snd r)) = self_max_retries (st_self st)
    /\ self_retry_delay (st_self (snd r)) = self_retry_delay (st_self st)
    /\ st_result (snd r) = st_result st
    /\ (fst r = Ret tt ->
        st_trace (snd r)
        = (st_trace st ++ [EvChrome; EvSetPageLoadTimeout 30])%list
        /\ exists d, self_driver (st_self (snd r)) = Some (Some d)
                     /\ self_wait (st_self (snd r)) = Some d).
Proof.
  intros st. unfold launch_attempt, the_driver. run_monad.
  destruct (chrome _configure_chrome_options (st_world st)) as [[d|e] w];
    cbn; [|repeat split; discriminate].
  destruct (set_page_load_timeout d 30 w) as [[[]|e] w'];
    cbn; [|repeat split; discriminate].
  repeat split; try reflexivity.
  - now rewrite <- app_assoc.
  - exists d. split; reflexivity.
Qed.

Lemma init_turn_ok :
  forall i (st st' : State),
    launch_attempt st = (Ret tt, st') ->
    init_turn i st = (Ret Break, st').
Proof.
  intros i st st' H. unfold init_turn, try_except, bind. rewrite H.
  reflexivity.
Qed.

Lemma init_turn_last :
  forall i (st : State) e st',
    launch_attempt st = (Raise e, st') ->
    i = (self_max_retries (st_self st) - 1)%Z ->
    init_turn i st
    = (Raise (launch_error (self_max_retries (st_self st)) e), st').
Proof.
  intros i st e st' H ->. unfold init_turn, try_except, bind at 1.
  rewrite H. destruct (launch_attempt_inv st) as (Hm & _). rewrite H in Hm.
  cbn in Hm. run_monad. rewrite Hm, Z.eqb_refl. reflexivity.
Qed.

Lemma init_turn_again :
  forall i (st : State) e st',
    launch_attempt st = (Raise e, st') ->
    i <> (self_max_retries (st_self st) - 1)%Z ->
    init_turn i st
    = (Ret Continue, slept (self_retry_delay (st_self st)) st').
Proof.
  intros i st e st' H Hi. unfold init_turn, try_except, bind at 1.
  rewrite H. destruct (launch_attempt_inv st) as (Hm & Hd & _).
  rewrite H in Hm, Hd. cbn in Hm, Hd. unfold slept. run_monad.
  rewrite Hm, Hd. destruct (Z.eqb_spec i (self_max_retries (st_self st) - 1));
    [contradiction | reflexivity].
Qed.

(** The loop of [__init__] from attempt number [i] on, [m] attempts left. *)
Lemma init_loop :
  forall m i (st : State),
    Z.of_nat (i + m) = self_max_retries (st_self st) ->
    let delay := self_retry_delay (st_self st) in
    let loop := for_each (map Z.of_nat (seq i m)) init_turn in
    (exists k s st', (k < m)%nat
        /\ failing_run launch_attempt delay k st s
        /\ launch_attempt s = (Ret tt, st')
        /\ loop st = (Ret None, st'))
    \/ (exists k s e st', m = S k
        /\ failing_run launch_attempt delay k st s
        /\ launch_attempt s = (Raise e, st')
        /\ loop st
           = (Raise (launch_error (self_max_retries (st_self st)) e), st'))
    \/ (m = 0%nat /\ loop st = (Ret None, st)).
Proof.
  induction m as [|m IH]; intros i st Hn delay loop.
  - right; right. split; reflexivity.
  - subst loop. cbn [seq map]. rewrite for_each_cons.
    destruct (launch_attempt st) as [[[]|e] st1] eqn:Hrun1.
    + left. exists 0%nat, st, st1. rewrite (init_turn_ok _ _ _ Hrun1).
      repeat split; [lia | constructor | exact Hrun1].
    + destruct (Z.eq_dec (Z.of_nat i) (self_max_retries (st_self st) - 1))
        as [Hlast|Hmore].
      * right; left. assert (m = 0%nat) by lia. subst m.
        exists 0%nat, st, e, st1. rewrite (init_turn_last _ _ _ _ Hrun1 Hlast).
        repeat split; [constructor | exact Hrun1].
      * rewrite (init_turn_again _ _ _ _ Hrun1 Hmore). fold delay.
        destruct (launch_attempt_inv st) as (Hm & Hd & _).
        rewrite Hrun1 in Hm, Hd. cbn in Hm, Hd.
        assert (Hm' : self_max_retries (st_self (slept delay st1))
                      = self_max_retries (st_self st))
          by (unfold slept; run_monad; exact Hm).
        assert (Hd' : self_retry_delay (st_self (slept delay st1)) = delay)
          by (unfold slept; run_monad; exact Hd).
        specialize (IH (S i) (slept delay st1)).
        rewrite Hm' in IH.
        assert (Hn' : Z.of_nat (S i + m) = self_max_retries (st_self st))
          by lia.
        specialize (IH Hn'). cbv zeta in IH. rewrite Hd' in IH.
        destruct IH as [(k & s & st' & Hk & Hrun & Hok & Hloop)
                       |[(k & s & e' & st' & Hk & Hrun & Hfail & Hloop)
                        |(Hm0 & Hloop)]].
        -- left. exists (S k), s, st'. rewrite Hloop.
           repeat split; [lia | | exact Hok].
           econstructor; eassumption.
        -- right; left. exists (S k), s, e', st'. rewrite Hloop.
           repeat split; [lia | | exact Hfail].
           econstructor; eassumption.
        -- lia.
Qed.

(** The state in which [__init__] enters its loop: [driver] is [None],
    [max_retries] is 3 and [retry_delay] is 2. *)
Definition init_entry (st : State) : State :=
  mk_state (st_world st) (st_trace st)
           (mk_self (Some None) (self_wait (st_self st)) 3 2)
           (st_result st).

(** C6. [BaseScraper.__init__] makes at most 3 launch attempts.  Either
    one of them succeeds, after [k < 3] failed ones that were each
    followed by a 2 second sleep, and [__init__] completes there; or all 3
    fail, the first two followed by a 2 second sleep, and [__init__]
    raises, in the state the third attempt left, an [Exception] whose
    message is [Failed to initialize Chrome driver after 3 attempts: ]
    followed by [str(e)] of the third failure [e].  When the first attempt
    succeeds, [__init__] has done the launch and the page-load-timeout
    call and nothing else: no sleep and no second attempt. *)
Theorem init_retries_launch :
  forall (st : State),
    ((exists k s st',
         (k < 3)%nat
         /\ failing_run launch_attempt 2 k (init_entry st) s
         /\ launch_attempt s = (Ret tt, st')
         /\ BaseScraper_init st = (Ret tt, st'))
     \/ (exists s e st',
            failing_run launch_attempt 2 2 (init_entry st) s
            /\ launch_attempt s = (Raise e, st')
            /\ BaseScraper_init st
               = (Raise (mk_exn Exception_
                           ("Failed to initialize Chrome driver after 3 attempts: "
                            ++ exn_str e)),
                  st')))
    /\ (forall st',
           launch_attempt (init_entry st) = (Ret tt, st') ->
           BaseScraper_init st = (Ret tt, st')
           /\ st_trace st'
              = (st_trace st ++ [EvChrome; EvSetPageLoadTimeout 30])%list).
Proof.
  intros st.
  assert (Hentry : BaseScraper_init st
                   = match for_each (range 3) init_turn (init_entry st) with
                     | (Ret _, st') => (Ret tt, st')
                     | (Raise e, st') => (Raise e, st')
                     end).
  { unfold BaseScraper_init, init_entry. run_monad.
    destruct (for_each (range 3) init_turn _) as [[r|e] st']; reflexivity. }
  split.
  - destruct (init_loop 3 0 (init_entry st) eq_refl)
      as [(k & s & st' & Hk & Hrun & Hok & Hloop)
         |[(k & s & e & st' & Hk & Hrun & Hfail & Hloop)|(Hm & _)]].
    + left. exists k, s, st'. repeat split; try assumption.
      rewrite Hentry. unfold range. change (Z.to_nat 3) with 3%nat.
      rewrite Hloop. reflexivity.
    + right. injection Hk as <-. exists s, e, st'.
      repeat split; try assumption.
      rewrite Hentry. unfold range. change (Z.to_nat 3) with 3%nat.
      rewrite Hloop. reflexivity.
    + discriminate.
  - intros st' Hok. split.
    + rewrite Hentry. unfold range. change (Z.to_nat 3) with 3%nat.
      cbn [seq map]. rewrite for_each_cons, (init_turn_ok _ _ _ Hok).
      reflexivity.
    + destruct (launch_attempt_inv (init_entry st)) as (_ & _ & _ & Htr).
      rewrite Hok in Htr. destruct (Htr eq_refl) as (Htrace & _).
      exact Htrace.
Qed.

End Startup.

(** ** Session teardown *)

Section Teardown.

Context {World Drv Elem : Type} {B : Browser World Drv Elem}.

Local Abbreviation State := (@State World Drv).

Lemma del_returns :
  forall (st : State),
    exists st', BaseScraper_del st = (Ret tt, st')
                /\ st_self st' = st_self st
                /\ st_result st' = st_result st.
Proof.
  intros st. unfold BaseScraper_del. run_monad.
  destruct (self_driver (st_self st)) as [[d|]|].
  - destruct (quit d (st_world st)) as [[[]|e] w]; eexists; repeat split.
  - eexists; repeat split.
  - eexists; repeat split.
Qed.

(** C9. [__del__] returns normally in every state of the object and of
    the browser, whatever [driver.quit()] does, and leaves the object as
    it was; so it returns normally again when called a second time, and
    also after an [__init__] that ended in any way.  Without a driver
    ([driver] missing or [None]) it does nothing at all. *)
Theorem del_is_total :
  forall (st : State),
    (exists st1 st2,
        BaseScraper_del st = (Ret tt, st1)
        /\ BaseScraper_del st1 = (Ret tt, st2)
        /\ st_self st1 = st_self st /\ st_self st2 = st_self st)
    /\ (exists st1 st2,
           BaseScraper_del (snd (BaseScraper_init st)) = (Ret tt, st1)
           /\ BaseScraper_del st1 = (Ret tt, st2))
    /\ match self_driver (st_self st) with
       | Some (Some _) => True
       | _ => BaseScraper_del st = (Ret tt, st)
       end.
Proof.
  intros st. repeat split.
  - destruct (del_returns st) as (st1 & H1 & Hs1 & _).
    destruct (del_returns st1) as (st2 & H2 & Hs2 & _).
    exists st1, st2. repeat split; congruence.
  - destruct (del_returns (snd (BaseScraper_init st))) as (st1 & H1 & _).
    destruct (del_returns st1) as (st2 & H2 & _).
    exists st1, st2. split; assumption.
  - unfold BaseScraper_del. run_monad.
    destruct (self_driver (st_self st)) as [[d|]|]; auto.
Qed.

End Teardown.

(** ** Field resolution over an ordered locator list *)

Section Resolver.

Context {World Drv Elem : Type} {B : Browser World Drv Elem}.

Local Abbreviation M := (@M World Drv).
Local Abbreviation State := (@State World Drv).

(** The resolver of the specification (4.2), following its words: try each
    locator in declared order; for each, wait for the element to become
    present; on success read and trim its text and, if it is not empty,
    return it immediately; if all locators fail or yield empty text, return
    NotAvailable ([None]).  A failing locator never aborts the resolver.
    The second component lists the locators that were tried. *)
Definition probe (locator : string) : M (option string) :=
  try_except
    (e <- wait_until By_CSS_SELECTOR locator ;;
     t <- elem_text e ;;
     let v := PyStr.strip t in
     ret (if PyStr.truthy v then Some v else None))
    (fun _ => ret None).

Fixpoint first_match (locators : list string) : M (option string * list string) :=
  match locators with
  | [] => ret (None, [])
  | l :: rest =>
      r <- probe l ;;
      match r with
      | Some v => ret (Some v, [l])
      | None => x <- first_match rest ;; ret (fst x, l :: snd x)
      end
  end.

(** [st] with [d] as the local dict [result]. *)
Definition with_result (st : State) (d : dict string) : State :=
  mk_state (st_world st) (st_trace st) (st_self st) d.

(** The lookup of either kind of loop. *)
Definition find_by (safely : bool) : string -> M (option Elem) :=
  if safely then find_safely else find_waiting.

Lemma with_result_same :
  forall st : State, with_result st (st_result st) = st.
Proof. intros []; reflexivity. Qed.

(** A turn of a loop reads the text of the element it found twice: once
    to test it and once more to store it.  What is stored is the second
    text, whatever it is, and a second read that raises sends the loop on
    to the next locator with nothing stored. *)
Lemma selector_turn_second_read :
  forall safely key selector (st : State) d el w1 t w2 r w3,
    self_wait (st_self st) = Some d ->
    wait_until_present d 20 By_CSS_SELECTOR selector (st_world st)
    = (Ret el, w1) ->
    text el w1 = (Ret t, w2) ->
    PyStr.truthy (PyStr.strip t) = true ->
    text el w2 = (r, w3) ->
    selector_turn (find_by safely) key selector st
    = match r with
      | Ret t' =>
          (Ret Break,
           mk_state w3 (st_trace st ++ [EvWait By_CSS_SELECTOR selector])%list
                    (st_self st) (dict_set (st_result st) key (PyStr.strip t')))
      | Raise _ =>
          (Ret Continue,
           mk_state w3 (st_trace st ++ [EvWait By_CSS_SELECTOR selector])%list
                    (st_self st) (st_result st))
      end.
Proof.
  intros safely key selector st d el w1 t w2 r w3 Hw Hfind Ht1 Htruthy Ht2.
  unfold selector_turn, find_by, find_safely, find_waiting, _safe_find_element,
    wait_until, the_wait, elem_text, set_item.
  destruct safely; run_monad; rewrite Hw; cbn; rewrite Hfind; cbn;
    rewrite Ht1; cbn; rewrite Htruthy; cbn; rewrite Ht2; destruct r;
    reflexivity.
Qed.

End Resolver.

(** ** A program logic for the scrape methods

    [triple I m Q E]: run from a state whose [result] satisfies [I], the
    program [m] leaves a [result] that satisfies [I]; a value it returns
    satisfies [Q] and an exception it raises satisfies [E]. *)

(** A lookup of the scrapers, and what it means for it to fail. *)
Inductive Locator : Type :=
| ByFind (by_ : By) (value : string)     (* driver.find_element *)
| ByWait (by_ : By) (value : string)     (* wait.until(presence...) *)
| ByScript (js : string).                (* driver.execute_script *)

Section Triples.

Context {World Drv Elem : Type} {B : Browser World Drv Elem}.

Local Abbreviation M := (@M World Drv).
Local Abbreviation State := (@State World Drv).

(** The lookup raises whenever it is made. *)
Definition fails (loc : Locator) : Prop :=
  match loc with
  | ByFind by_ value =>
      forall d w, exists e w', find_element d by_ value w = (Raise e, w')
  | ByWait by_ value =>
      forall d w, exists e w',
        wait_until_present d 20 by_ value w = (Raise e, w')
  | ByScript js =>
      forall d w, exists e w', execute_script d js w = (Raise e, w')
  end.

Definition triple (I : dict string -> Prop) {A : Type} (m : M A)
           (Q : A -> Prop) (E : exn -> Prop) : Prop :=
  forall st : State,
    I (st_result st) ->
    match m st with
    | (Ret a, st') => I (st_result st') /\ Q a
    | (Raise e, st') => I (st_result st') /\ E e
    end.

Definition anything {A : Type} : A -> Prop := fun _ => True.

Variable I : dict string -> Prop.

Lemma triple_weaken :
  forall A (m : M A) (Q Q' : A -> Prop) (E E' : exn -> Prop),
    triple I m Q E ->
    (forall a, Q a -> Q' a) -> (forall e, E e -> E' e) ->
    triple I m Q' E'.
Proof.
  intros A m Q Q' E E' H HQ HE st Hst. specialize (H st Hst).
  destruct (m st) as [[a|e] st']; destruct H; split; auto.
Qed.

Lemma triple_ret :
  forall A (a : A) (Q : A -> Prop) E, Q a -> triple I (ret a) Q E.
Proof. intros A a Q E HQ st Hst. cbn. auto. Qed.

Lemma triple_raise :
  forall A e (Q : A -> Prop) (E : exn -> Prop),
    E e -> triple I (raise e) Q E.
Proof. intros A e Q E HE st Hst. cbn. auto. Qed.

Lemma triple_bind :
  forall A C (m : M A) (k : A -> M C) Q1 Q E,
    triple I m Q1 E ->
    (forall a, Q1 a -> triple I (k a) Q E) ->
    triple I (bind m k) Q E.
Proof.
  intros A C m k Q1 Q E Hm Hk st Hst. unfold bind. specialize (Hm st Hst).
  destruct (m st) as [[a|e] st']; destruct Hm as [HI HQ].
  - apply (Hk a HQ st' HI).
  - split; assumption.
Qed.

Lemma triple_try :
  forall A (m : M A) (h : exn -> M A) Q E,
    triple I m Q anything ->
    (forall e, triple I (h e) Q E) ->
    triple I (try_except m h) Q E.
Proof.
  intros A m h Q E Hm Hh st Hst. unfold try_except. specialize (Hm st Hst).
  destruct (m st) as [[a|e] st']; destruct Hm as [HI HQ].
  - split; assumption.
  - apply (Hh e st' HI).
Qed.

Lemma triple_try_class :
  forall A c (m : M A) (h : exn -> M A) Q,
    triple I m Q anything ->
    (forall e, triple I (h e) Q anything) ->
    triple I (try_except_class c m h) Q anything.
Proof.
  intros A c m h Q Hm Hh st Hst. unfold try_except_class.
  specialize (Hm st Hst).
  destruct (m st) as [[a|e] st']; destruct Hm as [HI HQ].
  - split; assumption.
  - destruct (c (exn_cls e)); [apply (Hh e st' HI) | split; [assumption|exact Logic.I]].
Qed.

Lemma triple_call :
  forall A ev (op : World -> outcome A * World),
    triple I (call ev op) anything anything.
Proof.
  intros A ev op st Hst. unfold call.
  destruct (op (st_world st)) as [[a|e] w]; cbn; split; auto; exact Logic.I.
Qed.

Lemma triple_read :
  forall A (rd : World -> outcome A * World),
    triple I (read rd) anything anything.
Proof.
  intros A rd st Hst. unfold read.
  destruct (rd (st_world st)) as [[a|e] w]; cbn; split; auto; exact Logic.I.
Qed.

Lemma triple_sleep :
  forall secs E, triple I (time_sleep secs) anything E.
Proof. intros secs E st Hst. cbn. split; [assumption | exact Logic.I]. Qed.

Lemma triple_get_self :
  forall E, triple I get_self anything E.
Proof. intros E st Hst. cbn. split; [assumption | exact Logic.I]. Qed.

Lemma triple_get_result :
  forall E, triple I get_result I E.
Proof. intros E st Hst. cbn. split; assumption. Qed.

Lemma triple_set_item :
  forall key v E,
    (forall d, I d -> I (dict_set d key v)) ->
    triple I (set_item key v) anything E.
Proof.
  intros key v E H st Hst. unfold set_item. run_monad.
  split; [apply H; assumption | exact Logic.I].
Qed.

Lemma triple_get_item :
  forall key, triple I (get_item key) anything anything.
Proof.
  intros key st Hst. unfold get_item. run_monad.
  destruct (dict_lookup (st_result st) key); cbn; split; auto; exact Logic.I.
Qed.

Lemma triple_the_driver :
  forall attr, triple I (the_driver attr) anything anything.
Proof.
  intros attr st Hst. unfold the_driver. run_monad.
  destruct (self_driver (st_self st)) as [[d|]|]; cbn; split; auto; exact Logic.I.
Qed.

Lemma triple_the_wait : triple I the_wait anything anything.
Proof.
  intros st Hst. unfold the_wait. run_monad.
  destruct (self_wait (st_self st)) as [d|]; cbn; split; auto; exact Logic.I.
Qed.

Lemma triple_for_each :
  forall X R (xs : list X) (body : X -> M (ctl R)) E,
    (forall x, In x xs -> triple I (body x) anything E) ->
    triple I (for_each xs body) anything E.
Proof.
  intros X R xs body E. induction xs as [|x xs IH]; intros Hbody.
  - apply triple_ret. exact Logic.I.
  - cbn [for_each]. eapply triple_bind.
    + apply Hbody. left; reflexivity.
    + intros [| |r] _.
      * apply IH. intros y Hy. apply Hbody. right; exact Hy.
      * apply triple_ret. exact Logic.I.
      * apply triple_ret. exact Logic.I.
Qed.

Lemma triple_elem_text :
  forall e : Elem, triple I (elem_text e) anything anything.
Proof. intros e. apply triple_read. Qed.

Lemma triple_elem_get_attribute :
  forall (e : Elem) name,
    triple I (elem_get_attribute e name) anything anything.
Proof. intros e name. apply triple_read. Qed.

Lemma triple_driver_get :
  forall url, triple I (driver_get url) anything anything.
Proof.
  intros url. unfold driver_get.
  eapply triple_bind; [apply triple_the_driver | intros; apply triple_call].
Qed.

Lemma triple_driver_title : triple I driver_title anything anything.
Proof.
  unfold driver_title.
  eapply triple_bind; [apply triple_the_driver | intros; apply triple_read].
Qed.

(** *** Lookups: a value comes back only from a lookup that does not fail *)

Lemma triple_find_element :
  forall by_ value,
    triple I (driver_find_element by_ value)
           (fun _ => ~ fails (ByFind by_ value)) anything.
Proof.
  intros by_ value st Hst. unfold driver_find_element, the_driver. run_monad.
  destruct (self_driver (st_self st)) as [[d|]|]; cbn;
    try (split; [assumption | exact Logic.I]).
  destruct (find_element d by_ value (st_world st)) as [[el|e] w] eqn:Hf; cbn;
    split; try assumption; try exact Logic.I.
  intros Hfail. destruct (Hfail d (st_world st)) as (e & w' & H). congruence.
Qed.

Lemma triple_wait_until :
  forall by_ value,
    triple I (wait_until by_ value)
           (fun _ => ~ fails (ByWait by_ value)) anything.
Proof.
  intros by_ value st Hst. unfold wait_until, the_wait. run_monad.
  destruct (self_wait (st_self st)) as [d|]; cbn;
    try (split; [assumption | exact Logic.I]).
  destruct (wait_until_present d 20 by_ value (st_world st)) as [[el|e] w] eqn:Hf;
    cbn; split; try assumption; try exact Logic.I.
  intros Hfail. destruct (Hfail d (st_world st)) as (e & w' & H). congruence.
Qed.

Lemma triple_execute_script :
  forall js,
    triple I (driver_execute_script js)
           (fun _ => ~ fails (ByScript js)) anything.
Proof.
  intros js st Hst. unfold driver_execute_script, the_driver. run_monad.
  destruct (self_driver (st_self st)) as [[d|]|]; cbn;
    try (split; [assumption | exact Logic.I]).
  destruct (execute_script d js (st_world st)) as [[r|e] w] eqn:Hf; cbn;
    split; try assumption; try exact Logic.I.
  intros Hfail. destruct (Hfail d (st_world st)) as (e & w' & H). congruence.
Qed.

Lemma triple_find_by :
  forall safely value E,
    (safely = false -> forall e, E e) ->
    triple I (find_by safely value)
           (fun r => match r with
                     | Some _ => ~ fails (ByWait By_CSS_SELECTOR value)
                     | None => True
                     end) E.
Proof.
  intros safely value E HE. destruct safely; cbn [find_by].
  - unfold find_safely, _safe_find_element. apply triple_try.
    + eapply triple_bind; [apply triple_wait_until|].
      intros el Hel. apply triple_ret. exact Hel.
    + intros e. apply triple_ret. exact Logic.I.
  - unfold find_waiting.
    apply triple_weaken
      with (Q := fun r : option Elem =>
                   match r with
                   | Some _ => ~ fails (ByWait By_CSS_SELECTOR value)
                   | None => True
                   end)
           (E := anything).
    + eapply triple_bind; [apply triple_wait_until|].
      intros el Hel. apply triple_ret. exact Hel.
    + auto.
    + intros e _. apply HE. reflexivity.
Qed.

End Triples.

(** *** The blocks of the scrape methods *)

Ltac tri_leaf :=
  first [ apply triple_sleep | apply triple_get_self | apply triple_get_item
        | apply triple_the_driver | apply triple_the_wait
        | apply triple_call | apply triple_read
        | apply triple_elem_text | apply triple_elem_get_attribute
        | apply triple_driver_get | apply triple_driver_title
        | apply triple_get_result
        | apply triple_ret; exact Logic.I ].

Ltac tri_lookup :=
  first [ apply triple_find_element | apply triple_wait_until
        | apply triple_execute_script ].

Ltac tri_bind :=
  first [ eapply triple_bind; [ tri_lookup | intros ? ?; cbv beta in * ]
        | eapply triple_bind with (Q1 := anything); [ | intros ? _ ] ].

Section Blocks.

Context {World Drv Elem : Type} {B : Browser World Drv Elem}.

Local Abbreviation M := (@M World Drv).
Local Abbreviation triple := (@triple World Drv).

Variable I : dict string -> Prop.

(** Storing under [key] keeps [I]. *)
Definition writable (key : string) : Prop :=
  forall d v, I d -> I (dict_set d key v).

(** A value that comes from one of [locs] may be stored under [key]. *)
Definition may_write (locs : list Locator) (key : string) : Prop :=
  forall loc, In loc locs -> ~ fails loc -> writable key.

Lemma may_write_incl :
  forall locs locs' key,
    incl locs' locs -> may_write locs key -> may_write locs' key.
Proof. intros locs locs' key Hi H loc Hin. apply H, Hi, Hin. Qed.

Lemma triple_set_if :
  forall cond key v E,
    writable key -> triple I (set_if cond key v) anything E.
Proof.
  intros cond key v E Hw. unfold set_if. destruct cond.
  - apply triple_set_item. intros d Hd. apply Hw, Hd.
  - apply triple_ret. exact Logic.I.
Qed.

Lemma triple_store_text :
  forall by_ value key,
    may_write [ByFind by_ value] key ->
    triple I (store_text by_ value key) anything anything.
Proof.
  intros by_ value key Hw. unfold store_text. tri_bind.
  eapply triple_bind with (Q1 := anything); [apply triple_elem_text|].
  intros t _. apply triple_set_if. apply (Hw (ByFind by_ value)); cbn; auto.
Qed.

Lemma triple_selector_turn :
  forall safely key selector E,
    may_write [ByWait By_CSS_SELECTOR selector] key ->
    triple I (selector_turn (find_by safely) key selector) anything E.
Proof.
  intros safely key selector E Hw. unfold selector_turn. apply triple_try.
  - eapply triple_bind; [apply triple_find_by; intros; exact Logic.I|].
    intros [el|] Hel; [|tri_leaf].
    eapply triple_bind with (Q1 := anything); [apply triple_elem_text|].
    intros t _. destruct (PyStr.truthy (PyStr.strip t)); [|tri_leaf].
    eapply triple_bind with (Q1 := anything); [apply triple_elem_text|].
    intros t' _. eapply triple_bind with (Q1 := anything); [|intros; tri_leaf].
    apply triple_set_item. intros d Hd.
    apply (Hw (ByWait By_CSS_SELECTOR selector)); cbn; auto.
  - intros e. tri_leaf.
Qed.

Lemma triple_selector_loop :
  forall safely key selectors E,
    may_write (map (ByWait By_CSS_SELECTOR) selectors) key ->
    triple I (for_each selectors (selector_turn (find_by safely) key))
           anything E.
Proof.
  intros safely key selectors E Hw. apply triple_for_each.
  intros selector Hin. apply triple_selector_turn.
  intros loc [<-|[]]. apply Hw. apply in_map. exact Hin.
Qed.

Lemma triple_safe_get :
  forall url n, triple I (_safe_get url n) anything anything.
Proof.
  intros url n. unfold _safe_get.
  eapply triple_bind with (Q1 := anything).
  - apply triple_for_each. intros attempt _. unfold safe_get_turn.
    apply triple_try.
    + tri_bind; [apply triple_driver_get | tri_leaf].
    + intros e. destruct (Z.eqb attempt (n - 1)); [tri_leaf|].
      tri_bind; [tri_leaf|]. tri_bind; tri_leaf.
  - intros [b|] _; tri_leaf.
Qed.

(** *** YouTube *)

Definition youtube_channel_name_locators : list Locator :=
  [ ByFind By_XPATH "//yt-formatted-string[contains(@class, 'ytd-channel-name')]";
    ByFind By_CSS_SELECTOR "ytd-channel-name h1";
    ByFind By_XPATH "//meta[@property='og:title']";
    ByScript "return document.querySelector('ytd-channel-name').innerText" ].

Definition youtube_subscribers_locators : list Locator :=
  [ ByFind By_ID "subscriber-count";
    ByFind By_XPATH "//yt-formatted-string[@id='subscriber-count']";
    ByFind By_CSS_SELECTOR "#metadata-container #subscriber-count";
    ByScript "return document.querySelector('#subscriber-count').innerText" ].

Definition youtube_title_locators : list Locator :=
  (map (ByWait By_CSS_SELECTOR) youtube_title_selectors
   ++ [ ByFind By_XPATH
          "//h1[contains(@class, 'ytd-video-primary-info-renderer')]//yt-formatted-string" ])%list.

Definition youtube_likes_locators : list Locator :=
  map (ByWait By_CSS_SELECTOR) youtube_like_selectors.

Ltac use_may_write H :=
  eapply may_write_incl; [ | exact H ];
  intros ? ?; cbn in *; intuition (subst; auto 10).

Lemma triple_youtube_channel_name_lookups :
  may_write youtube_channel_name_locators "channel_name" ->
  triple I youtube_channel_name_lookups anything anything.
Proof.
  intros Hw. unfold youtube_channel_name_lookups.
  apply triple_try; [apply triple_store_text; use_may_write Hw|].
  intros _. apply triple_try; [apply triple_store_text; use_may_write Hw|].
  intros _. apply triple_try; [|intros; tri_leaf].
  tri_bind. eapply triple_bind with (Q1 := anything); [tri_leaf|].
  intros [channel_name|] _; [|tri_leaf].
  apply triple_set_if. eapply Hw; [|eassumption]. cbn; auto.
Qed.

Lemma triple_youtube_subscribers_lookups :
  may_write youtube_subscribers_locators "subscribers" ->
  triple I youtube_subscribers_lookups anything anything.
Proof.
  intros Hw. unfold youtube_subscribers_lookups.
  apply triple_try; [apply triple_store_text; use_may_write Hw|].
  intros _. apply triple_try; [apply triple_store_text; use_may_write Hw|].
  intros _. apply triple_try; [apply triple_store_text; use_may_write Hw|].
  intros; tri_leaf.
Qed.

Lemma triple_youtube_channel_name_script :
  may_write youtube_channel_name_locators "channel_name" ->
  triple I youtube_channel_name_script anything anything.
Proof.
  intros Hw. unfold youtube_channel_name_script.
  tri_bind; [tri_leaf|]. destruct (String.eqb _ _); [|tri_leaf].
  apply triple_try; [|intros; tri_leaf].
  tri_bind. destruct a0 as [channel_name|]; [|tri_leaf].
  apply triple_set_if. eapply Hw; [|eassumption]. cbn; auto.
Qed.

Lemma triple_youtube_subscribers_script :
  may_write youtube_subscribers_locators "subscribers" ->
  triple I youtube_subscribers_script anything anything.
Proof.
  intros Hw. unfold youtube_subscribers_script.
  tri_bind; [tri_leaf|]. destruct (String.eqb _ _); [|tri_leaf].
  apply triple_try; [|intros; tri_leaf].
  tri_bind. destruct a0 as [sub_count|]; [|tri_leaf].
  apply triple_set_if. eapply Hw; [|eassumption]. cbn; auto 10.
Qed.

Lemma triple_youtube_channel_log :
  triple I youtube_channel_log anything anything.
Proof.
  unfold youtube_channel_log. tri_bind; [tri_leaf|].
  tri_bind.
  - destruct (String.eqb _ _); [tri_leaf|]. tri_bind; tri_leaf.
  - destruct a0; [|tri_leaf]. tri_bind; [apply triple_driver_title | tri_leaf].
Qed.

Lemma triple_youtube_title_xpath :
  may_write youtube_title_locators "title" ->
  triple I youtube_title_xpath anything anything.
Proof.
  intros Hw. unfold youtube_title_xpath.
  tri_bind; [tri_leaf|]. destruct (String.eqb _ _); [|tri_leaf].
  apply triple_try; [|intros; tri_leaf].
  tri_bind. eapply triple_bind with (Q1 := anything); [apply triple_elem_text|].
  intros t _. destruct (PyStr.truthy _); [|tri_leaf].
  eapply triple_bind with (Q1 := anything); [apply triple_elem_text|].
  intros t' _. apply triple_set_item. intros d Hd.
  eapply Hw; [|eassumption|exact Hd]. unfold youtube_title_locators.
  apply in_or_app. right. left. reflexivity.
Qed.

End Blocks.

(** *** The [try] blocks of the YouTube and Instagram methods *)

Definition never {A : Type} : A -> Prop := fun _ => False.

Section Tries.

Context {World Drv Elem : Type} {B : Browser World Drv Elem}.

Local Abbreviation M := (@M World Drv).
Local Abbreviation State := (@State World Drv).
Local Abbreviation triple := (@triple World Drv).

Variable I : dict string -> Prop.

Definition instagram_followers_locators : list Locator :=
  map (ByWait By_CSS_SELECTOR) instagram_follower_selectors.

Definition instagram_following_locators : list Locator :=
  map (ByWait By_CSS_SELECTOR) instagram_following_selectors.

Definition instagram_likes_locators : list Locator :=
  map (ByWait By_CSS_SELECTOR) instagram_like_selectors.

(** A program that cannot raise returns. *)
Lemma triple_returns :
  forall A (m : M A) Q (st : State),
    triple I m Q never -> I (st_result st) ->
    exists a st', m st = (Ret a, st') /\ Q a /\ I (st_result st').
Proof.
  intros A m Q st H Hst. specialize (H st Hst).
  destruct (m st) as [[a|e] st']; destruct H as [HI HQ].
  - exists a, st'. auto.
  - destruct HQ.
Qed.

Lemma triple_youtube_profile_try :
  may_write I youtube_channel_name_locators "channel_name" ->
  may_write I youtube_subscribers_locators "subscribers" ->
  triple I youtube_profile_try I never.
Proof.
  intros Hc Hs. unfold youtube_profile_try.
  apply triple_try; [|intros; apply triple_get_result].
  tri_bind; [tri_leaf|]. tri_bind. tri_bind; [tri_leaf|].
  tri_bind; [apply triple_youtube_channel_name_lookups; exact Hc|].
  tri_bind; [apply triple_youtube_subscribers_lookups; exact Hs|].
  tri_bind; [apply triple_youtube_channel_name_script; exact Hc|].
  tri_bind; [apply triple_youtube_subscribers_script; exact Hs|].
  tri_bind; [apply triple_youtube_channel_log|].
  apply triple_get_result.
Qed.

Lemma triple_youtube_post_try :
  may_write I youtube_title_locators "title" ->
  may_write I youtube_likes_locators "likes" ->
  triple I youtube_post_try I never.
Proof.
  intros Ht Hl. unfold youtube_post_try.
  apply triple_try; [|intros; apply triple_get_result].
  tri_bind; [tri_leaf|].
  tri_bind.
  { apply (triple_selector_loop I false).
    eapply may_write_incl; [|exact Ht].
    intros loc Hin. apply in_or_app. left. exact Hin. }
  tri_bind; [apply (triple_selector_loop I false); exact Hl|].
  tri_bind; [apply triple_youtube_title_xpath; exact Ht|].
  apply triple_get_result.
Qed.

Lemma triple_instagram_profile_try :
  forall url,
    may_write I instagram_followers_locators "followers" ->
    may_write I instagram_following_locators "following" ->
    triple I (instagram_profile_try url) I never.
Proof.
  intros url Hf Hg. unfold instagram_profile_try.
  apply triple_try; [|intros; apply triple_get_result].
  tri_bind; [apply triple_safe_get|].
  destruct (negb _); [apply triple_get_result|].
  tri_bind; [tri_leaf|].
  tri_bind; [apply (triple_selector_loop I true); exact Hf|].
  tri_bind; [apply (triple_selector_loop I true); exact Hg|].
  apply triple_get_result.
Qed.

Lemma triple_instagram_post_try :
  forall url,
    may_write I instagram_likes_locators "likes" ->
    triple I (instagram_post_try url) I never.
Proof.
  intros url Hl. unfold instagram_post_try.
  apply triple_try; [|intros; apply triple_get_result].
  tri_bind; [apply triple_safe_get|].
  destruct (negb _); [apply triple_get_result|].
  tri_bind; [tri_leaf|].
  tri_bind; [apply (triple_selector_loop I true); exact Hl|].
  apply triple_get_result.
Qed.

End Tries.

(** ** Facts about [dict] updates *)

Lemma keys_dict_set :
  forall (d : dict string) key v,
    In key (keys d) -> keys (dict_set d key v) = keys d.
Proof.
  induction d as [|[k x] d IH]; intros key v Hin; [destruct Hin|].
  cbn [dict_set]. destruct (String.eqb_spec k key) as [->|Hne].
  - reflexivity.
  - cbn. f_equal. apply IH. destruct Hin as [Heq|Hin]; [contradiction | exact Hin].
Qed.

Lemma dict_lookup_set_other :
  forall (d : dict string) key key' v,
    key <> key' ->
    dict_lookup (dict_set d key v) key' = dict_lookup d key'.
Proof.
  induction d as [|[k x] d IH]; intros key key' v Hne; cbn.
  - destruct (String.eqb_spec key key'); [contradiction | reflexivity].
  - destruct (String.eqb_spec k key) as [->|Hk]; cbn.
    + destruct (String.eqb_spec key key'); [contradiction | reflexivity].
    + destruct (String.eqb k key'); [reflexivity | apply IH; exact Hne].
Qed.

(** ** The operations as a whole *)

(** The dict a YouTube or Instagram method starts from.  The TikTok and
    Facebook methods have none: they build their dict after the lookups. *)
Definition initial_result (p : Platform) (k : Kind) : dict string :=
  match p, k with
  | YouTube, Profile => youtube_channel_result
  | YouTube, Post => youtube_video_result
  | Instagram, Profile => instagram_profile_result
  | Instagram, Post => instagram_post_result
  | _, _ => []
  end.

(** The lookups a YouTube or Instagram method makes for a field. *)
Definition field_locators (p : Platform) (k : Kind) (key : string)
  : list Locator :=
  match p, k with
  | YouTube, Profile =>
      if String.eqb key "channel_name" then youtube_channel_name_locators
      else if String.eqb key "subscribers" then youtube_subscribers_locators
      else []
  | YouTube, Post =>
      if String.eqb key "title" then youtube_title_locators
      else if String.eqb key "likes" then youtube_likes_locators
      else []
  | Instagram, Profile =>
      if String.eqb key "followers" then instagram_followers_locators
      else if String.eqb key "following" then instagram_following_locators
      else []
  | Instagram, Post =>
      if String.eqb key "likes" then instagram_likes_locators else []
  | _, _ => []
  end.

(** The platforms whose methods start from a dict of placeholders. *)
Definition has_placeholders (p : Platform) : bool :=
  match p with
  | YouTube | Instagram => true
  | TikTok | Facebook => false
  end.

Definition youtube_load_error (k : Kind) : exn :=
  match k with
  | Profile => mk_exn Exception_ "Failed to load YouTube channel"
  | Post => mk_exn Exception_ "Failed to load YouTube video"
  end.

Section Operations.

Context {World Drv Elem : Type} {B : Browser World Drv Elem}.

Local Abbreviation M := (@M World Drv).
Local Abbreviation State := (@State World Drv).
Local Abbreviation triple := (@triple World Drv).

(** The locators of every field of the operation may store under its key. *)
Definition fields_guarded (I : dict string -> Prop) (p : Platform) (k : Kind)
  : Prop :=
  forall key, may_write I (field_locators p k key) key.

Lemma youtube_outcome :
  forall (I : dict string -> Prop) k url (st : State),
    I (initial_result YouTube k) ->
    fields_guarded I YouTube k ->
    match _safe_get (_format_url url) 3 st with
    | (Ret true, st1) =>
        exists r st', scrape YouTube k url st = (Ret r, st') /\ I r
    | (Ret false, st1) =>
        scrape YouTube k url st = (Raise (youtube_load_error k), st1)
    | (Raise e, st1) => scrape YouTube k url st = (Raise e, st1)
    end.
Proof.
  intros I k url st Hinit Hg.
  destruct k; cbn [scrape];
    unfold YouTubeScraper_scrape_profile, YouTubeScraper_scrape_post;
    cbv zeta;
    match goal with
    | |- context [bind (_safe_get ?u ?n) ?f st] =>
        change (bind (_safe_get u n) f st)
          with (match _safe_get u n st with
                | (Ret a, st') => f a st'
                | (Raise e, st') => (Raise e, st')
                end)
    end;
    destruct (_safe_get (_format_url url) 3 st) as [[[|]|e] st1];
    cbn [negb]; try reflexivity.
  - unfold bind, set_result. cbn [st_world st_trace st_self].
    destruct (triple_returns I _ youtube_profile_try I
                (mk_state (st_world st1) (st_trace st1) (st_self st1)
                          youtube_channel_result))
      as (r & st' & Hrun & Hr & _).
    + apply triple_youtube_profile_try.
      * apply (Hg "channel_name").
      * apply (Hg "subscribers").
    + exact Hinit.
    + exists r, st'. split; assumption.
  - unfold bind, set_result. cbn [st_world st_trace st_self].
    destruct (triple_returns I _ youtube_post_try I
                (mk_state (st_world st1) (st_trace st1) (st_self st1)
                          youtube_video_result))
      as (r & st' & Hrun & Hr & _).
    + apply triple_youtube_post_try.
      * apply (Hg "title").
      * apply (Hg "likes").
    + exact Hinit.
    + exists r, st'. split; assumption.
Qed.

Lemma instagram_outcome :
  forall (I : dict string -> Prop) k url (st : State),
    I (initial_result Instagram k) ->
    fields_guarded I Instagram k ->
    exists r st', scrape Instagram k url st = (Ret r, st') /\ I r.
Proof.
  intros I k url st Hinit Hg.
  destruct k; cbn [scrape];
    unfold InstagramScraper_scrape_profile, InstagramScraper_scrape_post;
    cbv zeta; unfold bind, set_result; cbn [st_world st_trace st_self].
  - destruct (triple_returns I _ (instagram_profile_try (_format_url url)) I
                (mk_state (st_world st) (st_trace st) (st_self st)
                          instagram_profile_result))
      as (r & st' & Hrun & Hr & _).
    + apply triple_instagram_profile_try.
      * apply (Hg "followers").
      * apply (Hg "following").
    + exact Hinit.
    + exists r, st'. split; assumption.
  - destruct (triple_returns I _ (instagram_post_try (_format_url url)) I
                (mk_state (st_world st) (st_trace st) (st_self st)
                          instagram_post_result))
      as (r & st' & Hrun & Hr & _).
    + apply triple_instagram_post_try. apply (Hg "likes").
    + exact Hinit.
    + exists r, st'. split; assumption.
Qed.

(** The keys of [result] stay the declared ones. *)
Lemma keys_guarded :
  forall p k,
    has_placeholders p = true ->
    keys (initial_result p k) = declared_fields p k
    /\ fields_guarded (fun d => keys d = declared_fields p k) p k.
Proof.
  intros p k Hp. split.
  - destruct p, k; try discriminate; reflexivity.
  - intros key loc Hin _ d v Hd. rewrite <- Hd. apply keys_dict_set.
    rewrite Hd. clear Hd.
    destruct p, k; try discriminate; cbn [field_locators] in Hin;
      repeat match type of Hin with
             | In _ (if String.eqb ?a ?b then _ else _) =>
                 destruct (String.eqb_spec a b) as [->|_]
             end;
      try (destruct Hin; fail); cbn; auto 10.
Qed.

(** A field whose lookups all fail keeps its placeholder. *)
Definition placeholders_kept (p : Platform) (k : Kind) (d : dict string)
  : Prop :=
  forall key v,
    dict_lookup (initial_result p k) key = Some v ->
    (forall loc, In loc (field_locators p k key) -> fails loc) ->
    dict_lookup d key = Some v.

Lemma placeholders_guarded :
  forall p k, fields_guarded (placeholders_kept p k) p k.
Proof.
  intros p k key loc Hin Halive d x Hd key' v Hinit Hfail.
  destruct (String.eqb_spec key key') as [<-|Hne].
  - exfalso. apply Halive, Hfail, Hin.
  - rewrite dict_lookup_set_other by exact Hne. apply Hd; assumption.
Qed.

End Operations.

(** ** A stub browser

    Launches and navigations fail a given number of times before they
    succeed; a lookup succeeds exactly for the selectors (and scripts) of
    [page], and an element is its text. *)

Record StubWorld : Type := mk_stub {
  launches_to_fail : nat;
  gets_to_fail : nat;
  clock : Z
}.

Definition stub_lookup (page : dict string) (missing : exn_class)
           (value : string) (w : StubWorld) : outcome string * StubWorld :=
  match dict_lookup page value with
  | Some t => (Ret t, w)
  | None => (Raise (mk_exn missing value), w)
  end.

Definition stub_browser (page : dict string) : Browser StubWorld unit string :=
  {| chrome := fun _ w =>
       match launches_to_fail w with
       | O => (Ret tt, w)
       | S n => (Raise (mk_exn WebDriverException "chrome not reachable"),
                 mk_stub n (gets_to_fail w) (clock w))
       end;
     set_page_load_timeout := fun _ _ w => (Ret tt, w);
     get := fun _ _ w =>
       match gets_to_fail w with
       | O => (Ret tt, w)
       | S n => (Raise (mk_exn WebDriverException "page not reachable"),
                 mk_stub (launches_to_fail w) n (clock w))
       end;
     find_element := fun _ _ value w =>
       stub_lookup page NoSuchElementException value w;
     wait_until_present := fun _ _ _ value w =>
       stub_lookup page TimeoutException value w;
     execute_script := fun _ js w =>
       match dict_lookup page js with
       | Some t => (Ret (Some t), w)
       | None => (Raise (mk_exn WebDriverException js), w)
       end;
     execute_cdp_cmd := fun _ _ _ w => (Ret tt, w);
     quit := fun _ w => (Ret tt, w);
     text := fun e w => (Ret e, w);
     get_attribute := fun e _ w => (Ret (Some e), w);
     title := fun _ w => (Ret "stub", w);
     sleep := fun secs w =>
       mk_stub (launches_to_fail w) (gets_to_fail w) (clock w + secs)%Z |}.

(** A page that changes under the reader: every element is there, and the
    world is the queue of what the next reads of a text will give (the empty
    text once the queue has run out). *)
Definition changing_browser : Browser (list (outcome string)) unit string :=
  {| chrome := fun _ w => (Ret tt, w);
     set_page_load_timeout := fun _ _ w => (Ret tt, w);
     get := fun _ _ w => (Ret tt, w);
     find_element := fun _ _ value w => (Ret value, w);
     wait_until_present := fun _ _ _ value w => (Ret value, w);
     execute_script := fun _ _ w => (Ret None, w);
     execute_cdp_cmd := fun _ _ _ w => (Ret tt, w);
     quit := fun _ w => (Ret tt, w);
     text := fun _ w =>
       match w with
       | r :: rest => (r, rest)
       | [] => (Ret EmptyString, [])
       end;
     get_attribute := fun _ _ w => (Ret None, w);
     title := fun _ w => (Ret EmptyString, w);
     sleep := fun _ w => w |}.

(** A page that is late: a lookup returns, with the element that is its
    text, once the clock has reached 10 seconds, and raises before. *)
Definition late_lookup (missing : exn_class) (value : string) (w : StubWorld)
  : outcome string * StubWorld :=
  if Z.leb 10 (clock w) then (Ret value, w)
  else (Raise (mk_exn missing value), w).

Definition late_browser : Browser StubWorld unit string :=
  {| chrome := fun _ w => (Ret tt, w);
     set_page_load_timeout := fun _ _ w => (Ret tt, w);
     get := fun _ _ w => (Ret tt, w);
     find_element := fun _ _ value w =>
       late_lookup NoSuchElementException value w;
     wait_until_present := fun _ _ _ value w =>
       late_lookup TimeoutException value w;
     execute_script := fun _ js w =>
       if Z.leb 10 (clock w) then (Ret (Some js), w)
       else (Raise (mk_exn WebDriverException js), w);
     execute_cdp_cmd := fun _ _ _ w => (Ret tt, w);
     quit := fun _ w => (Ret tt, w);
     text := fun e w => (Ret e, w);
     get_attribute := fun e _ w => (Ret (Some e), w);
     title := fun _ w => (Ret "late", w);
     sleep := fun secs w =>
       mk_stub (launches_to_fail w) (gets_to_fail w) (clock w + secs)%Z |}.

(** A scraper object as [__init__] leaves it, on a changing page. *)
Definition changing_state (reads : list (outcome string))
  : @State (list (outcome string)) unit :=
  mk_state reads [] (mk_self (Some (Some tt)) (Some tt) 3 2) [].

(** A scraper object as [__init__] leaves it, in a stub world. *)
Definition stub_state (launch_failures get_failures : nat)
  : @State StubWorld unit :=
  mk_state (mk_stub launch_failures get_failures 0) []
           (mk_self (Some (Some tt)) (Some tt) 3 2) [].

(** An object before [__init__], in a stub world. *)
Definition stub_fresh (launch_failures : nat) : @State StubWorld unit :=
  mk_state (mk_stub launch_failures 0 0) [] (mk_self None None 0 0) [].

Example stub_init_second_attempt :
  BaseScraper_init (B := stub_browser []) (stub_fresh 1)
  = (Ret tt,
     mk_state (mk_stub 0 0 2)
              [EvChrome; EvSleep 2; EvChrome; EvSetPageLoadTimeout 30]
              (mk_self (Some (Some tt)) (Some tt) 3 2) []).
Proof. vm_compute. reflexivity. Qed.

Example stub_init_exhausted :
  BaseScraper_init (B := stub_browser []) (stub_fresh 5)
  = (Raise (mk_exn Exception_
              "Failed to initialize Chrome driver after 3 attempts: chrome not reachable"),
     mk_state (mk_stub 2 0 4)
              [EvChrome; EvSleep 2; EvChrome; EvSleep 2; EvChrome]
              (mk_self (Some None) None 3 2) []).
Proof. vm_compute. reflexivity. Qed.

Example stub_safe_get_third_attempt :
  _safe_get (B := stub_browser []) "https://youtube.com/@example" 3
            (stub_state 0 2)
  = (Ret true,
     mk_state (mk_stub 0 0 4)
              [EvGet "https://youtube.com/@example"; EvSleep 2;
               EvGet "https://youtube.com/@example"; EvSleep 2;
               EvGet "https://youtube.com/@example"]
              (mk_self (Some (Some tt)) (Some tt) 3 2) []).
Proof. vm_compute. reflexivity. Qed.

Example stub_safe_get_exhausted :
  _safe_get (B := stub_browser []) "https://youtube.com/@example" 3
            (stub_state 0 7)
  = (Ret false,
     mk_state (mk_stub 0 4 4)
              [EvGet "https://youtube.com/@example"; EvSleep 2;
               EvGet "https://youtube.com/@example"; EvSleep 2;
               EvGet "https://youtube.com/@example"]
              (mk_self (Some (Some tt)) (Some tt) 3 2) []).
Proof. vm_compute. reflexivity. Qed.

Example stub_instagram_profile :
  fst (scrape (B := stub_browser [("span._ac2a", " 1,234 ")])
              Instagram Profile "instagram.com/someone/" (stub_state 0 0))
  = Ret [ ("platform", "Instagram"); ("type", "profile");
          ("followers", "1,234"); ("following", "Not available");
          ("posts", "Not available") ].
Proof. vm_compute. reflexivity. Qed.

Example stub_youtube_profile_all_fail :
  fst (scrape (B := stub_browser []) YouTube Profile
              "youtube.com/@example" (stub_state 0 0))
  = Ret youtube_channel_result.
Proof. vm_compute. reflexivity. Qed.

(** ** Results, field failures and navigation failures *)

Section Results.

Context {World Drv Elem : Type} {B : Browser World Drv Elem}.

Local Abbreviation State := (@State World Drv).
Local Abbreviation triple := (@triple World Drv).

(** The TikTok and Facebook methods return a dict literal. *)
Lemma literal_keys :
  forall p k url,
    has_placeholders p = false ->
    triple (fun _ => True) (scrape p k url)
           (fun r => keys r = declared_fields p k) anything.
Proof.
  intros p k url Hp.
  destruct p, k; try discriminate; cbn [scrape];
    unfold TikTokScraper_scrape_profile, TikTokScraper_scrape_post,
      FacebookScraper_scrape_profile, FacebookScraper_scrape_post,
      tiktok_profile_lookups, tiktok_post_lookups, facebook_profile_lookups,
      facebook_post_lookups, wait_text;
    (tri_bind; [tri_leaf|]);
    (apply triple_try_class; [|intros; apply triple_raise; exact Logic.I]);
    repeat (tri_bind; [first [tri_leaf | tri_bind; tri_leaf]|]);
    repeat tri_bind; try tri_leaf;
    apply triple_ret; reflexivity.
Qed.

(** C4. Whatever the lookups did, a result that one of the eight
    operations returns has exactly the keys declared for its platform and
    kind, in the declared order. *)
Theorem result_has_declared_fields :
  forall p k url (st : State) r st',
    scrape p k url st = (Ret r, st') ->
    keys r = declared_fields p k.
Proof.
  intros p k url st r st' Hrun.
  destruct (has_placeholders p) eqn:Hp.
  - destruct (keys_guarded p k Hp) as (Hinit & Hg).
    destruct p; try discriminate.
    + pose proof (youtube_outcome _ k url st Hinit Hg) as H.
      destruct (_safe_get (_format_url url) 3 st) as [[[|]|e] st1].
      * destruct H as (r0 & st0 & H0 & Hr0). congruence.
      * congruence.
      * congruence.
    + destruct (instagram_outcome _ k url st Hinit Hg) as (r0 & st0 & H0 & Hr0).
      congruence.
  - pose proof (literal_keys p k url Hp st Logic.I) as H.
    rewrite Hrun in H. apply H.
Qed.

(** Navigation, as an operation on [url] does it, succeeded.  (The
    Instagram methods return whatever navigation did.) *)
Definition navigated (p : Platform) (url : string) (st : State) : Prop :=
  match p with
  | YouTube => exists st1, _safe_get (_format_url url) 3 st = (Ret true, st1)
  | _ => True
  end.

(** Navigation of the operation on [url] from [st] failed and left [st1]:
    [_safe_get] returned [False] (YouTube, Instagram), or the one
    [driver.get] raised [e] (TikTok, Facebook). *)
Definition navigation_failed (p : Platform) (k : Kind) (url : string)
           (st st1 : State) (e : exn) : Prop :=
  match p with
  | YouTube => _safe_get (_format_url url) 3 st = (Ret false, st1)
  | Instagram =>
      _safe_get (_format_url url) 3 (with_result st (initial_result p k))
      = (Ret false, st1)
  | TikTok | Facebook => driver_get url st = (Raise e, st1)
  end.

Lemma safe_get_result :
  forall url n (st : State),
    st_result (snd (_safe_get url n st)) = st_result st.
Proof.
  intros url n st.
  pose proof (triple_safe_get (fun d => d = st_result st) url n st eq_refl) as H.
  destruct (_safe_get url n st) as [[b|e] st']; apply H.
Qed.

(** C5, as the code has it.  When navigation fails, a YouTube operation
    raises [Exception("Failed to load YouTube channel")] (or [... video]),
    a TikTok or Facebook operation, which makes a single [driver.get],
    raises what that call raised, and an Instagram operation returns its
    dict of placeholders. *)
Theorem navigation_failure_outcome :
  forall p k url (st st1 : State) e,
    navigation_failed p k url st st1 e ->
    scrape p k url st
    = match p with
      | YouTube => (Raise (youtube_load_error k), st1)
      | Instagram => (Ret (initial_result p k), st1)
      | TikTok | Facebook => (Raise e, st1)
      end.
Proof.
  intros p k url st st1 e Hnav. destruct p; cbn [navigation_failed] in Hnav.
  - pose proof (youtube_outcome (fun _ => True) k url st Logic.I) as H.
    rewrite Hnav in H. apply H. intros key loc _ _ d v _. exact Logic.I.
  - pose proof (safe_get_result (_format_url url) 3
                  (with_result st (initial_result Instagram k))) as Hres.
    rewrite Hnav in Hres. cbn in Hres.
    destruct k; cbn [scrape];
      unfold InstagramScraper_scrape_profile, InstagramScraper_scrape_post,
        instagram_profile_try, instagram_post_try;
      cbv zeta; unfold bind at 1; unfold set_result at 1;
      unfold try_except; unfold bind at 1;
      unfold with_result in Hnav; cbn [initial_result] in Hnav;
      rewrite Hnav; cbn [negb]; unfold get_result; rewrite Hres; reflexivity.
  - destruct k; cbn [scrape];
      unfold TikTokScraper_scrape_profile, TikTokScraper_scrape_post;
      unfold bind at 1; rewrite Hnav; reflexivity.
  - destruct k; cbn [scrape];
      unfold FacebookScraper_scrape_profile, FacebookScraper_scrape_post;
      unfold bind at 1; rewrite Hnav; reflexivity.
Qed.

End Results.

(** ** Field lookups that fail in a run

    What the lookups of a run did is read off a record of that run.  The
    browser [recording B] is [B] with a log beside its world: every
    [find_element], [wait.until] and [execute_script] is entered in the
    log with whether it returned.  The program is never shown the log, so
    it runs on [recording B] as it runs on [B]. *)

Definition Log : Type := list (Locator * bool).

Definition returned {A : Type} (r : outcome A) : bool :=
  match r with
  | Ret _ => true
  | Raise _ => false
  end.

(** Takes a program apart into the calls it is made of. *)
Ltac unfold_methods :=
  unfold YouTubeScraper_scrape_profile, YouTubeScraper_scrape_post,
    InstagramScraper_scrape_profile, InstagramScraper_scrape_post,
    TikTokScraper_scrape_profile, TikTokScraper_scrape_post,
    FacebookScraper_scrape_profile, FacebookScraper_scrape_post,
    tiktok_profile_lookups, tiktok_post_lookups, facebook_profile_lookups,
    facebook_post_lookups, youtube_profile_try, youtube_post_try,
    instagram_profile_try, instagram_post_try, youtube_channel_name_lookups,
    youtube_subscribers_lookups, youtube_channel_name_script,
    youtube_subscribers_script, youtube_channel_log, youtube_title_xpath,
    selector_turn, find_by, find_waiting, find_safely, _safe_find_element,
    store_text, set_if, wait_text, _safe_get, safe_get_turn, driver_get,
    driver_find_element, driver_execute_script, driver_title, wait_until,
    elem_text, elem_get_attribute, set_item, get_item, the_driver, the_wait.

Section Recording.

Context {World Drv Elem : Type} (B : Browser World Drv Elem).

(** A lookup, entered in the log. *)
Definition logged {A : Type} (loc : Locator) (op : World -> outcome A * World)
  : World * Log -> outcome A * (World * Log) :=
  fun wl =>
    let (r, w) := op (fst wl) in
    (r, (w, (snd wl ++ [(loc, returned r)])%list)).

(** Any other command: the log stays as it is. *)
Definition unlogged {A : Type} (op : World -> outcome A * World)
  : World * Log -> outcome A * (World * Log) :=
  fun wl => let (r, w) := op (fst wl) in (r, (w, snd wl)).

Definition recording : Browser (World * Log) Drv Elem :=
  {| chrome := fun options => unlogged (chrome options);
     set_page_load_timeout := fun d secs =>
       unlogged (set_page_load_timeout d secs);
     get := fun d url => unlogged (get d url);
     find_element := fun d by_ value =>
       logged (ByFind by_ value) (find_element d by_ value);
     wait_until_present := fun d secs by_ value =>
       logged (ByWait by_ value) (wait_until_present d secs by_ value);
     execute_script := fun d js => logged (ByScript js) (execute_script d js);
     execute_cdp_cmd := fun d cmd arg => unlogged (execute_cdp_cmd d cmd arg);
     quit := fun d => unlogged (quit d);
     text := fun e => unlogged (text e);
     get_attribute := fun e name => unlogged (get_attribute e name);
     title := fun d => unlogged (title d);
     sleep := fun secs wl => (sleep secs (fst wl), snd wl) |}.

Local Abbreviation RState := (@State (World * Log)%type Drv).
Local Abbreviation RM := (@M (World * Log)%type Drv).
Local Abbreviation State := (@State World Drv).
Local Abbreviation M := (@M World Drv).

(** [st] with the log [l] beside its world, and back. *)
Definition recorded (st : State) (l : Log) : RState :=
  mk_state (st_world st, l) (st_trace st) (st_self st) (st_result st).

Definition erase (st : RState) : State :=
  mk_state (fst (st_world st)) (st_trace st) (st_self st) (st_result st).

Definition log (st : RState) : Log := snd (st_world st).

(** *** The record does not change the run *)

(** [m'] on [recording B] does what [m] does on [B]. *)
Definition sim {A : Type} (m' : RM A) (m : M A) : Prop :=
  forall st,
    fst (m' st) = fst (m (erase st))
    /\ erase (snd (m' st)) = snd (m (erase st)).

Lemma sim_ret : forall A (a : A), sim (ret a) (ret a).
Proof. intros A a st. split; reflexivity. Qed.

Lemma sim_raise : forall A e, sim (raise (A := A) e) (raise e).
Proof. intros A e st. split; reflexivity. Qed.

Lemma sim_bind :
  forall A C (m' : RM A) (m : M A) (k' : A -> RM C) (k : A -> M C),
    sim m' m -> (forall a, sim (k' a) (k a)) -> sim (bind m' k') (bind m k).
Proof.
  intros A C m' m k' k Hm Hk st. unfold bind.
  destruct (Hm st) as (H1 & H2).
  destruct (m' st) as [[a|e] s1], (m (erase st)) as [[a0|e0] s0];
    cbn [fst snd] in *; try discriminate; subst s0.
  - injection H1 as <-. apply Hk.
  - injection H1 as <-. split; reflexivity.
Qed.

Lemma sim_try :
  forall A (m' : RM A) (m : M A) (h' : exn -> RM A) (h : exn -> M A),
    sim m' m -> (forall e, sim (h' e) (h e)) ->
    sim (try_except m' h') (try_except m h).
Proof.
  intros A m' m h' h Hm Hh st. unfold try_except.
  destruct (Hm st) as (H1 & H2).
  destruct (m' st) as [[a|e] s1], (m (erase st)) as [[a0|e0] s0];
    cbn [fst snd] in *; try discriminate; subst s0.
  - injection H1 as <-. split; reflexivity.
  - injection H1 as <-. apply Hh.
Qed.

Lemma sim_try_class :
  forall A c (m' : RM A) (m : M A) (h' : exn -> RM A) (h : exn -> M A),
    sim m' m -> (forall e, sim (h' e) (h e)) ->
    sim (try_except_class c m' h') (try_except_class c m h).
Proof.
  intros A c m' m h' h Hm Hh st. unfold try_except_class.
  destruct (Hm st) as (H1 & H2).
  destruct (m' st) as [[a|e] s1], (m (erase st)) as [[a0|e0] s0];
    cbn [fst snd] in *; try discriminate; subst s0.
  - injection H1 as <-. split; reflexivity.
  - injection H1 as <-. destruct (c (exn_cls e)); [apply Hh | split; reflexivity].
Qed.

Lemma sim_for_each :
  forall X R (xs : list X) (body' : X -> RM (ctl R)) (body : X -> M (ctl R)),
    (forall x, sim (body' x) (body x)) ->
    sim (for_each xs body') (for_each xs body).
Proof.
  intros X R xs body' body Hbody. induction xs as [|x xs IH].
  - apply sim_ret.
  - cbn [for_each]. apply sim_bind; [apply Hbody|].
    intros [| |r]; [exact IH | apply sim_ret | apply sim_ret].
Qed.

Lemma sim_call_logged :
  forall A ev loc (op : World -> outcome A * World),
    sim (call ev (logged loc op)) (call ev op).
Proof.
  intros A ev loc op st. unfold call, logged, erase. cbn.
  destruct (op (fst (st_world st))) as [r w]. split; reflexivity.
Qed.

Lemma sim_call_unlogged :
  forall A ev (op : World -> outcome A * World),
    sim (call ev (unlogged op)) (call ev op).
Proof.
  intros A ev op st. unfold call, unlogged, erase. cbn.
  destruct (op (fst (st_world st))) as [r w]. split; reflexivity.
Qed.

Lemma sim_read :
  forall A (op : World -> outcome A * World), sim (read (unlogged op)) (read op).
Proof.
  intros A op st. unfold read, unlogged, erase. cbn.
  destruct (op (fst (st_world st))) as [r w]. split; reflexivity.
Qed.

Lemma sim_sleep :
  forall secs, sim (time_sleep (B := recording) secs) (time_sleep secs).
Proof. intros secs st. split; reflexivity. Qed.

Lemma sim_get_self : sim get_self get_self.
Proof. intros st. split; reflexivity. Qed.

Lemma sim_get_result : sim get_result get_result.
Proof. intros st. split; reflexivity. Qed.

Lemma sim_set_result : forall d, sim (set_result d) (set_result d).
Proof. intros d st. split; reflexivity. Qed.

End Recording.

Ltac sim_step :=
  first
    [ apply sim_ret | apply sim_raise | apply sim_get_self
    | apply sim_get_result | apply sim_set_result | apply sim_sleep
    | apply sim_call_logged | apply sim_call_unlogged | apply sim_read
    | simple apply sim_for_each; intros ?
    | simple apply sim_bind; [ | intros ? ]
    | simple apply sim_try_class; [ | intros ? ]
    | simple apply sim_try; [ | intros ? ]
    | match goal with
      | |- sim (if ?b then _ else _) _ => destruct b
      | |- sim (match ?x with _ => _ end) _ => destruct x
      end ].

Section Transparent.

Context {World Drv Elem : Type} (B : Browser World Drv Elem).

(** The eight operations run on [recording B] as they run on [B]. *)
Lemma scrape_recorded :
  forall p k url,
    sim (scrape (B := recording B) p k url) (scrape (B := B) p k url).
Proof.
  intros p k url.
  destruct p, k; cbn [scrape]; unfold_methods; cbv zeta;
    cbn [recording find_element wait_until_present execute_script get
         text get_attribute title];
    repeat sim_step.
Qed.

Lemma safe_get_recorded :
  forall url n,
    sim (_safe_get (B := recording B) url n) (_safe_get (B := B) url n).
Proof.
  intros url n. unfold_methods.
  cbn [recording get]. repeat sim_step.
Qed.

End Transparent.

(** *** What a run keeps *)

Section Kept.

Context {World Drv Elem : Type} (B : Browser World Drv Elem).

Local Abbreviation RState := (@State (World * Log)%type Drv).
Local Abbreviation RM := (@M (World * Log)%type Drv).

(** From [st] to [st'] the dict [result] is as it was and the log has
    only grown. *)
Definition grows (st st' : RState) : Prop :=
  st_result st' = st_result st
  /\ exists new, log st' = (log st ++ new)%list.

(** A program that does not assign to [result]. *)
Definition quiet {A : Type} (m : RM A) : Prop :=
  forall st, grows st (snd (m st)).

Lemma grows_refl : forall st, grows st st.
Proof. intros st. split; [reflexivity|]. exists []. now rewrite app_nil_r. Qed.

Lemma grows_trans :
  forall a b c, grows a b -> grows b c -> grows a c.
Proof.
  intros a b c (Hr1 & n1 & Hl1) (Hr2 & n2 & Hl2). split; [congruence|].
  exists (n1 ++ n2)%list. rewrite Hl2, Hl1. now rewrite <- app_assoc.
Qed.

Lemma quiet_ret : forall A (a : A), quiet (ret a).
Proof. intros A a st. apply grows_refl. Qed.

Lemma quiet_raise : forall A e, quiet (raise (A := A) e).
Proof. intros A e st. apply grows_refl. Qed.

Lemma quiet_bind :
  forall A C (m : RM A) (k : A -> RM C),
    quiet m -> (forall a, quiet (k a)) -> quiet (bind m k).
Proof.
  intros A C m k Hm Hk st. unfold bind. specialize (Hm st).
  destruct (m st) as [[a|e] st1]; cbn [snd] in *; [|exact Hm].
  eapply grows_trans; [exact Hm | apply Hk].
Qed.

Lemma quiet_try :
  forall A (m : RM A) (h : exn -> RM A),
    quiet m -> (forall e, quiet (h e)) -> quiet (try_except m h).
Proof.
  intros A m h Hm Hh st. unfold try_except. specialize (Hm st).
  destruct (m st) as [[a|e] st1]; cbn [snd] in *; [exact Hm|].
  eapply grows_trans; [exact Hm | apply Hh].
Qed.

Lemma quiet_for_each :
  forall X R (xs : list X) (body : X -> RM (ctl R)),
    (forall x, quiet (body x)) -> quiet (for_each xs body).
Proof.
  intros X R xs body Hbody. induction xs as [|x xs IH].
  - apply quiet_ret.
  - cbn [for_each]. apply quiet_bind; [apply Hbody|].
    intros [| |r]; [exact IH | apply quiet_ret | apply quiet_ret].
Qed.

Lemma quiet_call_logged :
  forall A ev loc (op : World -> outcome A * World),
    quiet (call ev (logged loc op)).
Proof.
  intros A ev loc op st. unfold call, logged, log.
  destruct (op (fst (st_world st))) as [r w]. cbn.
  split; [reflexivity | eexists; reflexivity].
Qed.

Lemma quiet_call_unlogged :
  forall A ev (op : World -> outcome A * World), quiet (call ev (unlogged op)).
Proof.
  intros A ev op st. unfold call, unlogged, log.
  destruct (op (fst (st_world st))) as [r w]. cbn.
  split; [reflexivity | exists []; now rewrite app_nil_r].
Qed.

Lemma quiet_read :
  forall A (op : World -> outcome A * World), quiet (read (unlogged op)).
Proof.
  intros A op st. unfold read, unlogged, log.
  destruct (op (fst (st_world st))) as [r w]. cbn.
  split; [reflexivity | exists []; now rewrite app_nil_r].
Qed.

Lemma quiet_sleep : forall secs, quiet (time_sleep (B := recording B) secs).
Proof.
  intros secs st. unfold log. cbn.
  split; [reflexivity | exists []; now rewrite app_nil_r].
Qed.

Lemma quiet_get_self : quiet get_self.
Proof. intros st. apply grows_refl. Qed.

Lemma quiet_get_result : quiet get_result.
Proof. intros st. apply grows_refl. Qed.

(** [hoare P m Q E]: run from a state that satisfies [P], the program [m]
    leaves a state that satisfies [Q a] when it returns [a] and [E] when it
    raises. *)
Definition hoare (P : RState -> Prop) {A : Type} (m : RM A)
           (Q : A -> RState -> Prop) (E : RState -> Prop) : Prop :=
  forall st,
    P st ->
    match m st with
    | (Ret a, st') => Q a st'
    | (Raise _, st') => E st'
    end.

Lemma hoare_conseq :
  forall A (m : RM A) (P P' : RState -> Prop) (Q Q' : A -> RState -> Prop)
         (E E' : RState -> Prop),
    hoare P m Q E ->
    (forall st, P' st -> P st) ->
    (forall a st, Q a st -> Q' a st) ->
    (forall st, E st -> E' st) ->
    hoare P' m Q' E'.
Proof.
  intros A m P P' Q Q' E E' H HP HQ HE st Hst. specialize (H st (HP st Hst)).
  destruct (m st) as [[a|e] st']; auto.
Qed.

Lemma hoare_ret :
  forall A (a : A) (P : RState -> Prop) (Q : A -> RState -> Prop) E,
    (forall st, P st -> Q a st) -> hoare P (ret a) Q E.
Proof. intros A a P Q E H st Hst. cbn. auto. Qed.

Lemma hoare_bind :
  forall A C (m : RM A) (k : A -> RM C) P Q1 Q E,
    hoare P m Q1 E ->
    (forall a, hoare (Q1 a) (k a) Q E) ->
    hoare P (bind m k) Q E.
Proof.
  intros A C m k P Q1 Q E Hm Hk st Hst. unfold bind. specialize (Hm st Hst).
  destruct (m st) as [[a|e] st']; [apply (Hk a st' Hm) | exact Hm].
Qed.

Lemma hoare_try :
  forall A (m : RM A) (h : exn -> RM A) P Q E1 E,
    hoare P m Q E1 ->
    (forall e, hoare E1 (h e) Q E) ->
    hoare P (try_except m h) Q E.
Proof.
  intros A m h P Q E1 E Hm Hh st Hst. unfold try_except.
  specialize (Hm st Hst).
  destruct (m st) as [[a|e] st']; [exact Hm | apply (Hh e st' Hm)].
Qed.

Lemma hoare_for_each :
  forall X R (xs : list X) (body : X -> RM (ctl R)) (P : RState -> Prop),
    (forall x, In x xs -> hoare P (body x) (fun _ => P) P) ->
    hoare P (for_each xs body) (fun _ => P) P.
Proof.
  intros X R xs body P. induction xs as [|x xs IH]; intros Hbody.
  - apply hoare_ret. auto.
  - cbn [for_each]. eapply hoare_bind.
    + apply Hbody. left; reflexivity.
    + intros [| |r].
      * apply IH. intros y Hy. apply Hbody. right; exact Hy.
      * apply hoare_ret. auto.
      * apply hoare_ret. auto.
Qed.

(** A predicate that stays true while the log grows. *)
Definition stable (P : RState -> Prop) : Prop :=
  forall st st', grows st st' -> P st -> P st'.

Lemma hoare_quiet :
  forall A (m : RM A) P,
    stable P -> quiet m -> hoare P m (fun _ => P) P.
Proof.
  intros A m P HP Hm st Hst. specialize (Hm st).
  destruct (m st) as [[a|e] st']; cbn [snd] in Hm; eapply HP; eassumption.
Qed.

(** A lookup that returns has its entry in the log. *)
Lemma hoare_logged :
  forall A ev loc (op : World -> outcome A * World) P,
    stable P ->
    hoare P (call ev (logged loc op))
          (fun _ st => P st /\ In (loc, true) (log st)) P.
Proof.
  intros A ev loc op P HP st Hst.
  pose proof (quiet_call_logged A ev loc op st) as Hg.
  unfold call, logged, log in *.
  destruct (op (fst (st_world st))) as [[a|e] w]; cbn in *.
  - split; [eapply HP; eassumption|]. apply in_or_app. right. left. reflexivity.
  - eapply HP; eassumption.
Qed.

Variable p : Platform.
Variable k : Kind.

(** A field no lookup of which has returned so far holds its placeholder. *)
Definition kept_so_far (st : RState) : Prop :=
  forall key v,
    dict_lookup (initial_result p k) key = Some v ->
    (forall loc, In loc (field_locators p k key) -> ~ In (loc, true) (log st)) ->
    dict_lookup (st_result st) key = Some v.

(** ... and the lookup [loc] has returned. *)
Definition kept_and_found (loc : Locator) (st : RState) : Prop :=
  kept_so_far st /\ In (loc, true) (log st).

Lemma stable_kept : stable kept_so_far.
Proof.
  intros st st' (Hr & new & Hl) H key v Hinit Hnone. rewrite Hr.
  apply H; [exact Hinit|]. intros loc Hin Hlog.
  apply (Hnone loc Hin). rewrite Hl. apply in_or_app. left. exact Hlog.
Qed.

Lemma stable_found : forall loc, stable (kept_and_found loc).
Proof.
  intros loc st st' Hg (H & Hin). split; [eapply stable_kept; eassumption|].
  destruct Hg as (_ & new & Hl). rewrite Hl. apply in_or_app. left. exact Hin.
Qed.

(** The program keeps the placeholders of the fields without a lookup
    that returned. *)
Definition keeps {A : Type} (m : RM A) : Prop :=
  hoare kept_so_far m (fun _ => kept_so_far) kept_so_far.

Lemma keeps_quiet : forall A (m : RM A), quiet m -> keeps m.
Proof. intros A m Hm. apply hoare_quiet; [exact stable_kept | exact Hm]. Qed.

Lemma keeps_bind :
  forall A C (m : RM A) (f : A -> RM C),
    keeps m -> (forall a, keeps (f a)) -> keeps (bind m f).
Proof. intros A C m f Hm Hf. eapply hoare_bind; [exact Hm | exact Hf]. Qed.

Lemma keeps_try :
  forall A (m : RM A) (h : exn -> RM A),
    keeps m -> (forall e, keeps (h e)) -> keeps (try_except m h).
Proof. intros A m h Hm Hh. eapply hoare_try; [exact Hm | exact Hh]. Qed.

Lemma keeps_ret : forall A (a : A), keeps (ret a).
Proof. intros A a. apply hoare_ret. auto. Qed.

(** After [loc] has returned, what does not assign keeps that knowledge. *)
Lemma found_quiet :
  forall A (m : RM A) loc,
    quiet m ->
    hoare (kept_and_found loc) m (fun _ => kept_and_found loc) kept_so_far.
Proof.
  intros A m loc Hm.
  apply hoare_conseq
    with (P := kept_and_found loc) (Q := fun _ => kept_and_found loc)
         (E := kept_and_found loc);
    [apply hoare_quiet; [apply stable_found | exact Hm] | auto | auto |].
  intros st (H & _). exact H.
Qed.

(** A field may be assigned once one of its lookups has returned. *)
Lemma found_set_item :
  forall loc key v E,
    In loc (field_locators p k key) ->
    hoare (kept_and_found loc) (set_item key v) (fun _ => kept_so_far) E.
Proof.
  intros loc key v E Hin st (H & Hlog). unfold set_item. run_monad.
  intros key' x Hinit Hnone. unfold log in *. cbn in *.
  destruct (String.eqb_spec key key') as [<-|Hne].
  - exfalso. apply (Hnone loc Hin). exact Hlog.
  - rewrite dict_lookup_set_other by exact Hne. apply H; assumption.
Qed.

Lemma found_set_if :
  forall loc cond key v E,
    In loc (field_locators p k key) ->
    hoare (kept_and_found loc) (set_if cond key v) (fun _ => kept_so_far) E.
Proof.
  intros loc cond key v E Hin. unfold set_if. destruct cond.
  - apply found_set_item. exact Hin.
  - apply hoare_ret. intros st (H & _). exact H.
Qed.

End Kept.

Ltac quiet_step :=
  first
    [ apply quiet_ret | apply quiet_raise | apply quiet_get_self
    | apply quiet_get_result | apply quiet_sleep
    | apply quiet_call_logged | apply quiet_call_unlogged | apply quiet_read
    | simple apply quiet_for_each; intros ?
    | simple apply quiet_bind; [ | intros ? ]
    | simple apply quiet_try; [ | intros ? ]
    | match goal with
      | |- quiet (if ?b then _ else _) => destruct b
      | |- quiet (match ?x with _ => _ end) => destruct x
      end ].

(** Proves that a program without an assignment to [result] is quiet. *)
Ltac quiet_auto :=
  unfold_methods; cbv zeta;
  cbn [recording find_element wait_until_present execute_script get
       text get_attribute title];
  repeat quiet_step.

(** *** The blocks of the YouTube and Instagram methods, recorded *)

Section Absorbed.

Context {World Drv Elem : Type} (B : Browser World Drv Elem).

Local Abbreviation RState := (@State (World * Log)%type Drv).
Local Abbreviation RM := (@M (World * Log)%type Drv).

Variable p : Platform.
Variable k : Kind.

Local Abbreviation kept := (@kept_so_far World Drv p k).
Local Abbreviation found := (@kept_and_found World Drv p k).
Local Abbreviation keeps := (@keeps World Drv p k).

Lemma found_find_element :
  forall by_ value,
    hoare kept (driver_find_element (B := recording B) by_ value)
          (fun _ => found (ByFind by_ value)) kept.
Proof.
  intros by_ value. unfold driver_find_element.
  eapply hoare_bind with (Q1 := fun _ => kept).
  - apply keeps_quiet. quiet_auto.
  - intros d. cbn [recording find_element].
    apply hoare_logged. apply stable_kept.
Qed.

Lemma found_wait_until :
  forall by_ value,
    hoare kept (wait_until (B := recording B) by_ value)
          (fun _ => found (ByWait by_ value)) kept.
Proof.
  intros by_ value. unfold wait_until.
  eapply hoare_bind with (Q1 := fun _ => kept).
  - apply keeps_quiet. quiet_auto.
  - intros d. cbn [recording wait_until_present].
    apply hoare_logged. apply stable_kept.
Qed.

Lemma found_execute_script :
  forall js,
    hoare kept (driver_execute_script (B := recording B) js)
          (fun _ => found (ByScript js)) kept.
Proof.
  intros js. unfold driver_execute_script.
  eapply hoare_bind with (Q1 := fun _ => kept).
  - apply keeps_quiet. quiet_auto.
  - intros d. cbn [recording execute_script].
    apply hoare_logged. apply stable_kept.
Qed.

Lemma found_find_by :
  forall safely selector,
    hoare kept (find_by (B := recording B) safely selector)
          (fun r st =>
             match r with
             | Some _ => found (ByWait By_CSS_SELECTOR selector) st
             | None => kept st
             end) kept.
Proof.
  intros safely selector. destruct safely; cbn [find_by].
  - unfold find_safely, _safe_find_element.
    apply hoare_try with (E1 := kept).
    + eapply hoare_bind; [apply found_wait_until|].
      intros el. apply hoare_ret. auto.
    + intros e. apply hoare_ret. auto.
  - unfold find_waiting.
    eapply hoare_bind; [apply found_wait_until|].
    intros el. apply hoare_ret. auto.
Qed.

Lemma keeps_store_text :
  forall by_ value key,
    In (ByFind by_ value) (field_locators p k key) ->
    keeps (store_text (B := recording B) by_ value key).
Proof.
  intros by_ value key Hin. unfold store_text.
  eapply hoare_bind; [apply found_find_element|]. intros el.
  eapply hoare_bind; [apply found_quiet; quiet_auto|]. intros t. cbv zeta.
  apply found_set_if. exact Hin.
Qed.

Lemma keeps_selector_turn :
  forall safely key selector,
    In (ByWait By_CSS_SELECTOR selector) (field_locators p k key) ->
    keeps (selector_turn (B := recording B)
             (find_by (B := recording B) safely) key selector).
Proof.
  intros safely key selector Hin. unfold selector_turn.
  apply hoare_try with (E1 := kept); [|intros ?; apply keeps_ret].
  eapply hoare_bind; [apply found_find_by|].
  intros [el|]; [|apply hoare_ret; auto].
  eapply hoare_bind; [apply found_quiet; quiet_auto|]. intros t.
  destruct (PyStr.truthy (PyStr.strip t)).
  - eapply hoare_bind; [apply found_quiet; quiet_auto|]. intros t'.
    eapply hoare_bind; [apply found_set_item; exact Hin|].
    intros ?. apply keeps_ret.
  - apply hoare_ret. intros st (H & _). exact H.
Qed.

Lemma keeps_selector_loop :
  forall safely key selectors,
    incl (map (ByWait By_CSS_SELECTOR) selectors) (field_locators p k key) ->
    keeps (for_each selectors
             (selector_turn (B := recording B)
                (find_by (B := recording B) safely) key)).
Proof.
  intros safely key selectors Hin. apply hoare_for_each.
  intros selector Hsel. apply keeps_selector_turn.
  apply Hin. apply in_map. exact Hsel.
Qed.

Lemma keeps_youtube_channel_name_lookups :
  incl youtube_channel_name_locators (field_locators p k "channel_name") ->
  keeps (youtube_channel_name_lookups (B := recording B)).
Proof.
  intros Hin. unfold youtube_channel_name_lookups.
  apply keeps_try; [apply keeps_store_text; apply Hin; cbn; auto|].
  intros ?. apply keeps_try; [apply keeps_store_text; apply Hin; cbn; auto|].
  intros ?. apply keeps_try; [|intros ?; apply keeps_ret].
  eapply hoare_bind; [apply found_find_element|]. intros el.
  eapply hoare_bind; [apply found_quiet; quiet_auto|].
  intros [channel_name|].
  - apply found_set_if. apply Hin. cbn. auto.
  - apply hoare_ret. intros st (H & _). exact H.
Qed.

Lemma keeps_youtube_subscribers_lookups :
  incl youtube_subscribers_locators (field_locators p k "subscribers") ->
  keeps (youtube_subscribers_lookups (B := recording B)).
Proof.
  intros Hin. unfold youtube_subscribers_lookups.
  apply keeps_try; [apply keeps_store_text; apply Hin; cbn; auto|].
  intros ?. apply keeps_try; [apply keeps_store_text; apply Hin; cbn; auto|].
  intros ?. apply keeps_try; [apply keeps_store_text; apply Hin; cbn; auto|].
  intros ?. apply keeps_ret.
Qed.

Lemma keeps_youtube_channel_name_script :
  incl youtube_channel_name_locators (field_locators p k "channel_name") ->
  keeps (youtube_channel_name_script (B := recording B)).
Proof.
  intros Hin. unfold youtube_channel_name_script.
  apply keeps_bind; [apply keeps_quiet; quiet_auto|]. intros v.
  destruct (String.eqb v "Unknown"); [|apply keeps_ret].
  apply keeps_try; [|intros ?; apply keeps_ret].
  eapply hoare_bind; [apply found_execute_script|].
  intros [channel_name|].
  - apply found_set_if. apply Hin. cbn. auto.
  - apply hoare_ret. intros st (H & _). exact H.
Qed.

Lemma keeps_youtube_subscribers_script :
  incl youtube_subscribers_locators (field_locators p k "subscribers") ->
  keeps (youtube_subscribers_script (B := recording B)).
Proof.
  intros Hin. unfold youtube_subscribers_script.
  apply keeps_bind; [apply keeps_quiet; quiet_auto|]. intros v.
  destruct (String.eqb v "Not available"); [|apply keeps_ret].
  apply keeps_try; [|intros ?; apply keeps_ret].
  eapply hoare_bind; [apply found_execute_script|].
  intros [sub_count|].
  - apply found_set_if. apply Hin. cbn. auto 10.
  - apply hoare_ret. intros st (H & _). exact H.
Qed.

Lemma keeps_youtube_title_xpath :
  incl youtube_title_locators (field_locators p k "title") ->
  keeps (youtube_title_xpath (B := recording B)).
Proof.
  intros Hin. unfold youtube_title_xpath.
  apply keeps_bind; [apply keeps_quiet; quiet_auto|]. intros v.
  destruct (String.eqb v "Unknown"); [|apply keeps_ret].
  apply keeps_try; [|intros ?; apply keeps_ret].
  eapply hoare_bind; [apply found_find_element|]. intros el.
  eapply hoare_bind; [apply found_quiet; quiet_auto|]. intros t.
  destruct (PyStr.truthy (PyStr.strip t)).
  - eapply hoare_bind; [apply found_quiet; quiet_auto|]. intros t'.
    apply found_set_item. apply Hin. unfold youtube_title_locators.
    apply in_or_app. right. left. reflexivity.
  - apply hoare_ret. intros st (H & _). exact H.
Qed.

(** What a [try] block that ends in [return result] leaves: it returns,
    and what it returns is the dict as the lookups left it. *)
Definition returns_result (m : RM (dict string)) : Prop :=
  hoare kept m (fun r st => kept st /\ r = st_result st) (fun _ => False).

Lemma returns_get_result :
  forall E, hoare kept get_result (fun r st => kept st /\ r = st_result st) E.
Proof. intros E st H. cbn. auto. Qed.

Lemma returns_youtube_profile_try :
  incl youtube_channel_name_locators (field_locators p k "channel_name") ->
  incl youtube_subscribers_locators (field_locators p k "subscribers") ->
  returns_result (youtube_profile_try (B := recording B)).
Proof.
  intros Hc Hs. unfold returns_result, youtube_profile_try.
  apply hoare_try with (E1 := kept); [|intros ?; apply returns_get_result].
  eapply hoare_bind; [apply keeps_quiet; quiet_auto|]. intros ?.
  eapply hoare_bind; [apply keeps_quiet; quiet_auto|]. intros ?.
  eapply hoare_bind; [apply keeps_quiet; quiet_auto|]. intros ?.
  eapply hoare_bind; [apply keeps_youtube_channel_name_lookups; exact Hc|].
  intros ?.
  eapply hoare_bind; [apply keeps_youtube_subscribers_lookups; exact Hs|].
  intros ?.
  eapply hoare_bind; [apply keeps_youtube_channel_name_script; exact Hc|].
  intros ?.
  eapply hoare_bind; [apply keeps_youtube_subscribers_script; exact Hs|].
  intros ?.
  eapply hoare_bind; [apply keeps_quiet; quiet_auto|]. intros ?.
  apply returns_get_result.
Qed.

Lemma returns_youtube_post_try :
  incl youtube_title_locators (field_locators p k "title") ->
  incl youtube_likes_locators (field_locators p k "likes") ->
  returns_result (youtube_post_try (B := recording B)).
Proof.
  intros Ht Hl. unfold returns_result, youtube_post_try.
  apply hoare_try with (E1 := kept); [|intros ?; apply returns_get_result].
  eapply hoare_bind; [apply keeps_quiet; quiet_auto|]. intros ?.
  eapply hoare_bind.
  { apply (keeps_selector_loop false). intros loc Hin. apply Ht.
    unfold youtube_title_locators. apply in_or_app. left. exact Hin. }
  intros ?.
  eapply hoare_bind; [apply (keeps_selector_loop false); exact Hl|]. intros ?.
  eapply hoare_bind; [apply keeps_youtube_title_xpath; exact Ht|]. intros ?.
  apply returns_get_result.
Qed.

Lemma returns_instagram_profile_try :
  forall url,
    incl instagram_followers_locators (field_locators p k "followers") ->
    incl instagram_following_locators (field_locators p k "following") ->
    returns_result (instagram_profile_try (B := recording B) url).
Proof.
  intros url Hf Hg. unfold returns_result, instagram_profile_try.
  apply hoare_try with (E1 := kept); [|intros ?; apply returns_get_result].
  eapply hoare_bind; [apply keeps_quiet; quiet_auto|]. intros ok.
  destruct (negb ok); [apply returns_get_result|].
  eapply hoare_bind; [apply keeps_quiet; quiet_auto|]. intros ?.
  eapply hoare_bind; [apply (keeps_selector_loop true); exact Hf|]. intros ?.
  eapply hoare_bind; [apply (keeps_selector_loop true); exact Hg|]. intros ?.
  apply returns_get_result.
Qed.

Lemma returns_instagram_post_try :
  forall url,
    incl instagram_likes_locators (field_locators p k "likes") ->
    returns_result (instagram_post_try (B := recording B) url).
Proof.
  intros url Hl. unfold returns_result, instagram_post_try.
  apply hoare_try with (E1 := kept); [|intros ?; apply returns_get_result].
  eapply hoare_bind; [apply keeps_quiet; quiet_auto|]. intros ok.
  destruct (negb ok); [apply returns_get_result|].
  eapply hoare_bind; [apply keeps_quiet; quiet_auto|]. intros ?.
  eapply hoare_bind; [apply (keeps_selector_loop true); exact Hl|]. intros ?.
  apply returns_get_result.
Qed.

End Absorbed.

(** *** Field failures are absorbed *)

Section FieldFailures.

Context {World Drv Elem : Type} {B : Browser World Drv Elem}.

Local Abbreviation RState := (@State (World * Log)%type Drv).
Local Abbreviation State := (@State World Drv).

(** A recorded YouTube or Instagram operation, once it has navigated,
    returns the dict its lookups left, in which every field without a
    lookup that returned holds its placeholder. *)
Lemma recorded_operation_returns :
  forall p k url (st : RState),
    has_placeholders p = true ->
    navigated (B := recording B) p url st ->
    exists r st',
      scrape (B := recording B) p k url st = (Ret r, st')
      /\ kept_so_far p k st' /\ r = st_result st'.
Proof.
  intros p k url st Hp Hnav.
  assert (Hstart : forall s : RState,
             kept_so_far p k
               (mk_state (st_world s) (st_trace s) (st_self s)
                         (initial_result p k)))
    by (intros s key v Hinit _; exact Hinit).
  assert (Hend : forall (m : @M (World * Log)%type Drv (dict string)) s,
             returns_result p k m -> kept_so_far p k s ->
             exists r st', m s = (Ret r, st')
                           /\ kept_so_far p k st' /\ r = st_result st').
  { intros m s Hm Hs. specialize (Hm s Hs).
    destruct (m s) as [[r|e] st']; [|destruct Hm].
    exists r, st'. split; [reflexivity | exact Hm]. }
  destruct p; try discriminate.
  - destruct Hnav as (st1 & Hget).
    destruct k; cbn [scrape];
      unfold YouTubeScraper_scrape_profile, YouTubeScraper_scrape_post;
      cbv zeta; unfold bind at 1; rewrite Hget; cbn [negb];
      unfold bind, set_result; apply Hend; try apply Hstart.
    + apply returns_youtube_profile_try; intros loc Hin; exact Hin.
    + apply returns_youtube_post_try; intros loc Hin; exact Hin.
  - destruct k; cbn [scrape];
      unfold InstagramScraper_scrape_profile, InstagramScraper_scrape_post;
      cbv zeta; unfold bind, set_result; apply Hend; try apply Hstart.
    + apply returns_instagram_profile_try; intros loc Hin; exact Hin.
    + apply returns_instagram_post_try; intros loc Hin; exact Hin.
Qed.

(** The lookups of the run of an operation from [st], in order, each with
    whether it returned. *)
Definition run_log (p : Platform) (k : Kind) (url : string) (st : State)
  : Log :=
  log (snd (scrape (B := recording B) p k url (recorded st []))).

Lemma erase_recorded : forall (st : State) l, erase (recorded st l) = st.
Proof. intros [] l. reflexivity. Qed.

(** C3, as the code has it.  For the YouTube and Instagram scrapers: once
    navigation has succeeded, the operation returns a result whatever the
    field lookups do, and a field none of whose lookups returned in that
    run has in that result the placeholder it started with. *)
Theorem field_failures_absorbed :
  forall p k url (st : State),
    has_placeholders p = true ->
    navigated p url st ->
    exists r st',
      scrape p k url st = (Ret r, st')
      /\ forall key v,
          dict_lookup (initial_result p k) key = Some v ->
          (forall loc,
              In loc (field_locators p k key) ->
              ~ In (loc, true) (run_log p k url st)) ->
          dict_lookup r key = Some v.
Proof.
  intros p k url st Hp Hnav.
  assert (Hnav' : navigated (B := recording B) p url (recorded st [])).
  { destruct p; try exact Logic.I. destruct Hnav as (st1 & Hget).
    destruct (safe_get_recorded B (_format_url url) 3 (recorded st []))
      as (Hfst & _).
    rewrite erase_recorded, Hget in Hfst. cbn [fst] in Hfst.
    cbn [navigated].
    destruct (_safe_get (B := recording B) (_format_url url) 3 (recorded st []))
      as [o s1]. cbn [fst] in Hfst. subst o. exists s1. reflexivity. }
  destruct (recorded_operation_returns p k url (recorded st []) Hp Hnav')
    as (r & rst & Hrun & Hkept & Hr).
  destruct (scrape_recorded B p k url (recorded st [])) as (Hfst & _).
  rewrite erase_recorded, Hrun in Hfst. cbn [fst] in Hfst.
  exists r, (snd (scrape p k url st)). split.
  - destruct (scrape p k url st) as [o s]. cbn [fst snd] in *. now subst o.
  - intros key v Hinit Hnone. rewrite Hr. apply Hkept; [exact Hinit|].
    unfold run_log in Hnone. rewrite Hrun in Hnone. exact Hnone.
Qed.

End FieldFailures.

(** ** The theorems at concrete runs *)

(** An Instagram profile page on which only the second followers selector
    finds an element. *)
Definition followers_page : dict string := [("span._ac2a", " 1,234 ")].

(** A first launch that succeeds, and three launches that all fail. *)
Lemma init_retries_launch_witness :
  (exists st',
      BaseScraper_init (B := stub_browser []) (stub_fresh 0) = (Ret tt, st')
      /\ st_trace st' = [EvChrome; EvSetPageLoadTimeout 30])
  /\ (exists e st',
         exn_str e = "chrome not reachable"
         /\ BaseScraper_init (B := stub_browser []) (stub_fresh 3)
            = (Raise (mk_exn Exception_
                        ("Failed to initialize Chrome driver after 3 attempts: "
                         ++ exn_str e)),
               st')
         /\ st_trace st' = [EvChrome; EvSleep 2; EvChrome; EvSleep 2; EvChrome]).
Proof.
  split.
  - destruct (init_retries_launch (B := stub_browser []) (stub_fresh 0))
      as (_ & Hfirst).
    eexists. apply Hfirst. vm_compute. reflexivity.
  - destruct (init_retries_launch (B := stub_browser []) (stub_fresh 3))
      as ([(k & s & st' & _ & _ & _ & Hrun)|(s & e & st' & _ & _ & Hrun)] & _).
    + vm_compute in Hrun. discriminate Hrun.
    + exists e, st'.
      assert (Hrun' := Hrun). vm_compute in Hrun'.
      injection Hrun' as He <-.
      split; [|split; [exact Hrun | reflexivity]].
      destruct e as [c m]. cbn in He |- *. exact (eq_sym He).
Defined.

(** The like count of an Instagram post is read as [1,234]; at the second
    read the element has gone stale, and the next locator finds a label. *)
Definition stale_reads : list (outcome string) :=
  [ Ret "1,234";
    Raise (mk_exn StaleElementReferenceException "stale element reference");
    Ret "Likes"; Ret "Likes" ].

(** The like count is read as [1,234]; at the second read it is blank. *)
Definition blank_reads : list (outcome string) := [ Ret "1,234"; Ret "  " ].

(** C8 fails on the code.  On a page that changes between the two reads of
    an element's text, the resolver of the specification returns the text
    of the first locator, [1,234], and stops there.  The loop of
    [InstagramScraper.scrape_post] does not: when the second read raises it
    goes on to the second locator and stores that one's text, and when the
    second read is blank it stores the empty text. *)
Theorem selector_loop_second_read_diverges :
  (fst (first_match (B := changing_browser) instagram_like_selectors
                    (changing_state stale_reads))
   = Ret (Some "1,234", ["span.like-count"])
   /\ for_each instagram_like_selectors
               (selector_turn (B := changing_browser)
                  (find_by (B := changing_browser) true) "likes")
               (with_result (changing_state stale_reads) instagram_post_result)
      = (Ret None,
         mk_state []
                  [EvWait By_CSS_SELECTOR "span.like-count";
                   EvWait By_CSS_SELECTOR "section._ae5m span"]
                  (mk_self (Some (Some tt)) (Some tt) 3 2)
                  [ ("platform", "Instagram"); ("type", "post");
                    ("likes", "Likes"); ("comments", "Not available") ])
   /\ fst (scrape (B := changing_browser) Instagram Post
                  "instagram.com/p/XYZ" (changing_state stale_reads))
      = Ret [ ("platform", "Instagram"); ("type", "post");
              ("likes", "Likes"); ("comments", "Not available") ])
  /\ (fst (first_match (B := changing_browser) instagram_like_selectors
                       (changing_state blank_reads))
      = Ret (Some "1,234", ["span.like-count"])
      /\ for_each instagram_like_selectors
                  (selector_turn (B := changing_browser)
                     (find_by (B := changing_browser) true) "likes")
                  (with_result (changing_state blank_reads) instagram_post_result)
         = (Ret None,
            mk_state []
                     [EvWait By_CSS_SELECTOR "span.like-count"]
                     (mk_self (Some (Some tt)) (Some tt) 3 2)
                     [ ("platform", "Instagram"); ("type", "post");
                       ("likes", EmptyString); ("comments", "Not available") ])
      /\ fst (scrape (B := changing_browser) Instagram Post
                     "instagram.com/p/XYZ" (changing_state blank_reads))
         = Ret [ ("platform", "Instagram"); ("type", "post");
                 ("likes", EmptyString); ("comments", "Not available") ]).
Proof. repeat split; vm_compute; reflexivity. Qed.

Lemma result_has_declared_fields_witness :
  exists r st',
    scrape (B := stub_browser [("strong[data-e2e='like-count']", "12.3K")])
           TikTok Post "https://www.tiktok.com/@a/video/1" (stub_state 0 0)
    = (Ret r, st')
    /\ keys r = declared_fields TikTok Post.
Proof.
  eexists; eexists. split; [vm_compute; reflexivity|].
  apply (result_has_declared_fields
           (B := stub_browser [("strong[data-e2e='like-count']", "12.3K")])
           TikTok Post "https://www.tiktok.com/@a/video/1" (stub_state 0 0)
           _ (mk_state (mk_stub 0 0 0)
                       [EvGet "https://www.tiktok.com/@a/video/1";
                        EvWait By_CSS_SELECTOR "strong[data-e2e='like-count']"]
                       (mk_self (Some (Some tt)) (Some tt) 3 2) [])).
  vm_compute. reflexivity.
Defined.

Lemma stub_fails :
  forall page loc,
    match loc with
    | ByFind _ value | ByWait _ value => dict_lookup page value = None
    | ByScript js => dict_lookup page js = None
    end ->
    fails (B := stub_browser page) loc.
Proof.
  intros page [by_ value|by_ value|js] H d w; cbn; unfold stub_lookup;
    rewrite H; eexists; eexists; reflexivity.
Defined.

(** The record of an Instagram profile run on the page with one followers
    selector: the second followers lookup returned, and the loop for the
    followers stopped there. *)
Example run_log_followers_page :
  run_log (B := stub_browser followers_page) Instagram Profile
          "instagram.com/someone/" (stub_state 0 0)
  = [ (ByWait By_CSS_SELECTOR "li:nth-child(2) span span", false);
      (ByWait By_CSS_SELECTOR "span._ac2a", true);
      (ByWait By_CSS_SELECTOR "li:nth-child(3) span span", false);
      (ByWait By_CSS_SELECTOR "span._ac2a:nth-child(2)", false);
      (ByWait By_CSS_SELECTOR "span.g47SY:nth-child(2)", false) ].
Proof. vm_compute. reflexivity. Qed.

(** On the late page every lookup of an Instagram profile run raises,
    the run being over after 5 seconds, though the same lookups return
    from 10 seconds on; on the page with one followers selector the
    lookups for the following count raise. *)
Lemma field_failures_absorbed_witness :
  (fst (wait_until_present (Browser := late_browser) tt 20 By_CSS_SELECTOR
                           "span._ac2a" (mk_stub 0 0 10))
   = Ret "span._ac2a"
   /\ exists r st',
       scrape (B := late_browser) Instagram Profile "instagram.com/someone/"
              (stub_state 0 0)
       = (Ret r, st')
       /\ dict_lookup r "followers" = Some "Not available")
  /\ (exists r st',
         scrape (B := stub_browser followers_page)
                Instagram Profile "instagram.com/someone/" (stub_state 0 0)
         = (Ret r, st')
         /\ dict_lookup r "followers" = Some "1,234"
         /\ dict_lookup r "following" = Some "Not available").
Proof.
  split; [split; [reflexivity|]|].
  - destruct (field_failures_absorbed
                (B := late_browser)
                Instagram Profile "instagram.com/someone/" (stub_state 0 0)
                eq_refl Logic.I)
      as (r & st' & Hrun & Hkept).
    exists r, st'. split; [exact Hrun|].
    apply Hkept; [reflexivity|].
    intros loc Hin Hlog. vm_compute in Hlog.
    repeat (destruct Hlog as [Hlog|Hlog]; [discriminate Hlog|]).
    exact Hlog.
  - destruct (field_failures_absorbed
                (B := stub_browser followers_page)
                Instagram Profile "instagram.com/someone/" (stub_state 0 0)
                eq_refl Logic.I)
      as (r & st' & Hrun & Hkept).
    exists r, st'. split; [exact Hrun|]. split.
    + vm_compute in Hrun. injection Hrun as <- _. reflexivity.
    + apply Hkept; [reflexivity|].
      intros loc Hin Hlog. vm_compute in Hlog. cbn in Hin.
      destruct Hin as [<-|[<-|[<-|[]]]];
        repeat (destruct Hlog as [Hlog|Hlog]; [discriminate Hlog|]);
        exact Hlog.
Defined.

(** C3 as stated fails for TikTok: navigation succeeds, the lookup of the
    followers count times out, and [scrape_profile] raises. *)
Lemma tiktok_lookup_failure_raises :
  fst (driver_get (B := stub_browser []) "https://www.tiktok.com/@a"
                  (stub_state 0 0)) = Ret tt
  /\ fails (B := stub_browser [])
           (ByWait By_CSS_SELECTOR "strong[data-e2e='followers-count']")
  /\ fst (scrape (B := stub_browser []) TikTok Profile
                 "https://www.tiktok.com/@a" (stub_state 0 0))
     = Raise (mk_exn Exception_ "Failed to load TikTok profile data").
Proof.
  split; [vm_compute; reflexivity|].
  split; [apply stub_fails; reflexivity | vm_compute; reflexivity].
Qed.

Lemma navigation_failure_outcome_witness :
  scrape (B := stub_browser []) YouTube Post
         "youtube.com/watch?v=abc123" (stub_state 0 3)
  = (Raise (mk_exn Exception_ "Failed to load YouTube video"),
     mk_state (mk_stub 0 0 4)
              [EvGet "https://youtube.com/watch?v=abc123"; EvSleep 2;
               EvGet "https://youtube.com/watch?v=abc123"; EvSleep 2;
               EvGet "https://youtube.com/watch?v=abc123"]
              (mk_self (Some (Some tt)) (Some tt) 3 2) []).
Proof.
  apply (navigation_failure_outcome (B := stub_browser []) YouTube Post
           "youtube.com/watch?v=abc123" (stub_state 0 3) _
           (mk_exn Exception_ "")).
  vm_compute. reflexivity.
Defined.

(** C5 as stated fails for Instagram: all three navigation attempts fail
    and [scrape_profile] returns its dict of placeholders. *)
Lemma instagram_returns_after_failed_navigation :
  fst (_safe_get (B := stub_browser []) (_format_url "instagram.com/someone") 3
                 (with_result (stub_state 0 3) instagram_profile_result))
  = Ret false
  /\ fst (scrape (B := stub_browser []) Instagram Profile
                 "instagram.com/someone" (stub_state 0 3))
     = Ret [ ("platform", "Instagram"); ("type", "profile");
             ("followers", "Not available"); ("following", "Not available");
             ("posts", "Not available") ].
Proof. split; vm_compute; reflexivity. Qed.

(** * Further properties of the code *)

(** ** [_format_url]: scheme and idempotence *)

Section StripMore.

Variable drop : ascii -> bool.

Lemma rstrip_by_idem :
  forall s, PyStr.rstrip_by drop (PyStr.rstrip_by drop s) = PyStr.rstrip_by drop s.
Proof.
  induction s as [|a s IH]; [reflexivity|]. cbn [PyStr.rstrip_by].
  destruct (PyStr.rstrip_by drop s) as [|b r] eqn:E.
  - destruct (drop a) eqn:D; cbn; [reflexivity | now rewrite D].
  - cbn [PyStr.rstrip_by] in *. rewrite IH. reflexivity.
Qed.

Lemma rstrip_by_noop :
  forall s c,
    PyStr.last_char s = Some c -> drop c = false -> PyStr.rstrip_by drop s = s.
Proof.
  induction s as [|a s IH]; intros c Hl Hd; [reflexivity|].
  cbn [PyStr.rstrip_by]. destruct s as [|b s'].
  - cbn in *. injection Hl as ->. now rewrite Hd.
  - rewrite (IH c); [reflexivity | exact Hl | exact Hd].
Qed.

Lemma rstrip_by_keeps_prefix :
  forall p s c,
    PyStr.last_char p = Some c -> drop c = false ->
    PyStr.startswith p (PyStr.rstrip_by drop (p ++ s)) = true.
Proof.
  induction p as [|a p IH]; intros s c Hl Hd; [discriminate|].
  cbn [append PyStr.rstrip_by]. destruct p as [|b p'].
  - cbn in Hl. injection Hl as ->. cbn [append].
    destruct (PyStr.rstrip_by drop s); [rewrite Hd|]; cbn;
      now rewrite Ascii.eqb_refl.
  - specialize (IH s c Hl Hd).
    destruct (PyStr.rstrip_by drop (String b p' ++ s)) as [|x r] eqn:E.
    + cbn in IH. discriminate.
    + cbn [PyStr.startswith]. rewrite Ascii.eqb_refl. exact IH.
Qed.

End StripMore.

Lemma startswith_split :
  forall p s, PyStr.startswith p s = true -> exists t, s = p ++ t.
Proof.
  induction p as [|a p IH]; intros s H.
  - exists s. reflexivity.
  - destruct s as [|b s]; [discriminate|]. cbn in H.
    apply andb_true_iff in H. destruct H as [Hab Hp].
    apply Ascii.eqb_eq in Hab. subst b.
    destruct (IH s Hp) as (t & ->). exists t. reflexivity.
Qed.

Lemma last_char_app :
  forall s t c, PyStr.last_char t = Some c -> PyStr.last_char (s ++ t) = Some c.
Proof.
  induction s as [|a s IH]; intros t c H; [exact H|].
  cbn [append PyStr.last_char]. rewrite (IH t c H).
  destruct (s ++ t) eqn:E; [|reflexivity].
  destruct s; cbn in E; [subst t; discriminate | discriminate].
Qed.

Lemma last_char_some :
  forall a s, exists c, PyStr.last_char (String a s) = Some c.
Proof.
  intros a s. revert a. induction s as [|b s IH]; intros a.
  - exists a. reflexivity.
  - destruct (IH b) as (c & Hc). exists c. cbn [PyStr.last_char] in *. exact Hc.
Qed.

(** The string [_format_url] strips: [url] with a scheme in front. *)
Definition with_scheme (url : string) : string :=
  if PyStr.startswith_any ["http://"; "https://"] url then url
  else "https://" ++ url.

Lemma format_url_unfold :
  forall url, _format_url url = PyStr.rstrip "/" (with_scheme url).
Proof.
  intros url. unfold _format_url, with_scheme.
  destruct (PyStr.startswith_any ["http://"; "https://"] url); reflexivity.
Qed.

Lemma with_scheme_cases :
  forall url,
    (exists t, with_scheme url = "http:" ++ t)
    \/ (exists t, with_scheme url = "https:" ++ t).
Proof.
  intros url. unfold with_scheme, PyStr.startswith_any. cbn [existsb].
  destruct (PyStr.startswith "http://" url) eqn:H1; cbn [orb].
  - left. destruct (startswith_split _ _ H1) as (t & ->).
    exists ("//" ++ t). reflexivity.
  - right. destruct (PyStr.startswith "https://" url) eqn:H2; cbn [orb].
    + destruct (startswith_split _ _ H2) as (t & ->).
      exists ("//" ++ t). reflexivity.
    + exists ("//" ++ url). reflexivity.
Qed.

(** X1. Whatever the input, the string [_format_url] returns starts with
    [http:] or [https:]: stripping the slashes never eats the scheme. *)
Theorem format_url_has_scheme :
  forall url,
    PyStr.startswith "http:" (_format_url url)
    || PyStr.startswith "https:" (_format_url url) = true.
Proof.
  intros url. rewrite format_url_unfold. unfold PyStr.rstrip.
  destruct (with_scheme_cases url) as [(t & ->)|(t & ->)].
  - rewrite (rstrip_by_keeps_prefix _ "http:" t ":"%char); reflexivity.
  - rewrite (rstrip_by_keeps_prefix _ "https:" t ":"%char);
      [apply orb_true_r | reflexivity | reflexivity].
Qed.

Lemma format_url_nonempty_no_slash :
  forall url, exists c,
    PyStr.last_char (_format_url url) = Some c /\ PyStr.mem c "/" = false.
Proof.
  intros url.
  assert (Hne : exists a s, _format_url url = String a s).
  { rewrite format_url_unfold. unfold PyStr.rstrip.
    destruct (with_scheme_cases url) as [(t & ->)|(t & ->)].
    - pose proof (rstrip_by_keeps_prefix (fun c => PyStr.mem c "/")
                    "http:" t ":"%char eq_refl eq_refl) as H.
      destruct (PyStr.rstrip_by _ ("http:" ++ t)) as [|a s];
        [discriminate | eauto].
    - pose proof (rstrip_by_keeps_prefix (fun c => PyStr.mem c "/")
                    "https:" t ":"%char eq_refl eq_refl) as H.
      destruct (PyStr.rstrip_by _ ("https:" ++ t)) as [|a s];
        [discriminate | eauto]. }
  destruct Hne as (a & s & E). destruct (last_char_some a s) as (c & Hc).
  exists c. rewrite E. split; [exact Hc|].
  rewrite <- E, format_url_unfold in Hc. unfold PyStr.rstrip in Hc.
  apply rstrip_by_last in Hc. exact Hc.
Qed.

(** X2. Formatting a formatted URL again changes nothing exactly when the
    formatted URL still starts with [http://] or [https://]; otherwise (a
    URL with nothing but slashes after the scheme, such as the empty one)
    the second pass puts another [https://] in front. *)
Theorem format_url_idempotent_iff :
  forall url,
    _format_url (_format_url url) = _format_url url
    <-> PyStr.startswith_any ["http://"; "https://"] (_format_url url) = true.
Proof.
  intros url. destruct (format_url_nonempty_no_slash url) as (c & Hc & Hdrop).
  split.
  - intros Hfix.
    destruct (PyStr.startswith_any ["http://"; "https://"] (_format_url url))
      eqn:Hs; [reflexivity|].
    exfalso. rewrite (format_url_unfold (_format_url url)) in Hfix.
    unfold with_scheme in Hfix. rewrite Hs in Hfix. unfold PyStr.rstrip in Hfix.
    rewrite (rstrip_by_noop _ _ c) in Hfix;
      [|apply last_char_app; exact Hc | exact Hdrop].
    apply (f_equal String.length) in Hfix. cbn in Hfix. lia.
  - intros Hs. rewrite (format_url_unfold (_format_url url)).
    unfold with_scheme. rewrite Hs. unfold PyStr.rstrip.
    apply (rstrip_by_noop _ _ c); assumption.
Qed.

Example format_url_twice_empty :
  _format_url (_format_url "") = "https://https:".
Proof. reflexivity. Qed.

(** ** The classifier: what a match does not depend on *)

Lemma app_String_assoc :
  forall s t u : string, (s ++ t) ++ u = s ++ (t ++ u).
Proof.
  induction s as [|a s IH]; intros t u; [reflexivity|].
  cbn [append]. now rewrite IH.
Qed.

Lemma search_compiled_here :
  forall p s, Re.match_here p s = true -> Re.search_compiled p s = true.
Proof. intros p s H. destruct s; cbn; rewrite H; reflexivity. Qed.

(** [re.search] is not anchored at the start. *)
Lemma search_compiled_prefix :
  forall p pre s,
    Re.search_compiled p s = true -> Re.search_compiled p (pre ++ s) = true.
Proof.
  intros p pre s H. induction pre as [|c pre IH]; [exact H|].
  cbn [append Re.search_compiled]. rewrite IH. apply orb_true_r.
Qed.

(** A pattern without [$]. *)
Definition anchor_free (p : Re.pattern) : bool :=
  forallb (fun it => match it with Re.EndAnchor => false | _ => true end) p.

(** A continuation that accepts [s] accepts every extension of [s]. *)
Definition extends_ok (k : string -> bool) : Prop :=
  forall s t, k s = true -> k (s ++ t) = true.

Lemma one_extends :
  forall a k, extends_ok k -> extends_ok (Re.one a k).
Proof.
  intros a k Hk [|c s] t H; [discriminate|]. cbn in *.
  apply andb_true_iff in H. destruct H as [Ha Hs].
  rewrite Ha, (Hk s t Hs). reflexivity.
Qed.

Lemma many_accepts :
  forall a k s, k s = true -> Re.many a k s = true.
Proof.
  intros a k [|c s] H; cbn; [exact H | rewrite H; apply orb_true_r].
Qed.

Lemma many_extends :
  forall a k, extends_ok k -> extends_ok (Re.many a k).
Proof.
  intros a k Hk s. induction s as [|c s IH]; intros t H.
  - cbn in H. apply many_accepts. apply (Hk EmptyString t H).
  - cbn [Re.many] in H. apply orb_true_iff in H. destruct H as [H|H].
    + apply andb_true_iff in H. destruct H as [Ha Hs].
      cbn [append Re.many]. rewrite Ha, (IH t Hs). reflexivity.
    + apply many_accepts. apply (Hk _ t H).
Qed.

Lemma match_here_extends :
  forall p, anchor_free p = true -> extends_ok (Re.match_here p).
Proof.
  induction p as [|it p IH]; intros Hp.
  - intros s t _. reflexivity.
  - cbn in Hp. apply andb_true_iff in Hp. destruct Hp as [Hit Hp].
    specialize (IH Hp). destruct it as [a q|]; [|discriminate].
    destruct q; cbn [Re.match_here].
    + apply one_extends. exact IH.
    + intros s t H. apply orb_true_iff in H. destruct H as [H|H].
      * rewrite (one_extends a _ IH s t H). reflexivity.
      * rewrite (IH s t H). apply orb_true_r.
    + apply one_extends. apply many_extends. exact IH.
    + apply many_extends. exact IH.
Qed.

Lemma search_compiled_suffix :
  forall p s t,
    anchor_free p = true ->
    Re.search_compiled p s = true -> Re.search_compiled p (s ++ t) = true.
Proof.
  intros p s t Hp. induction s as [|c s IH]; intros H.
  - cbn in H. rewrite orb_false_r in H. apply search_compiled_here.
    apply (match_here_extends p Hp EmptyString t H).
  - cbn [Re.search_compiled] in H. apply orb_true_iff in H.
    cbn [append Re.search_compiled]. destruct H as [H|H].
    + pose proof (match_here_extends p Hp _ t H) as H'.
      cbn [append] in H'. rewrite H'. reflexivity.
    + rewrite (IH H). apply orb_true_r.
Qed.

Lemma first_link_type_valid :
  forall patterns link,
    fst (first_link_type patterns link) = true
    <-> exists kind pat, In (kind, pat) patterns /\ Re.search pat link = true.
Proof.
  intros patterns link. split.
  - induction patterns as [|[k p] rest IH]; cbn; [discriminate|].
    destruct (Re.search p link) eqn:E.
    + intros _. exists k, p. split; [left; reflexivity | exact E].
    + intros H. destruct (IH H) as (kind & pat & Hin & Hm).
      exists kind, pat. split; [right; exact Hin | exact Hm].
  - intros H. destruct (first_link_type_hit patterns link H)
      as (_ & kind & _ & _ & _ & _ & _ & Hres).
    rewrite Hres. reflexivity.
Qed.

Lemma re_search_prefix :
  forall pat pre link,
    Re.search pat link = true -> Re.search pat (pre ++ link) = true.
Proof.
  intros pat pre link. unfold Re.search.
  destruct (Re.compile pat); [apply search_compiled_prefix | discriminate].
Qed.

(** X3. The classifier does not anchor a pattern at the start of the link:
    a link it accepts for a platform stays accepted with any text put in
    front of it. *)
Theorem validate_social_link_any_prefix :
  forall platform link pre,
    fst (validate_social_link platform link) = true ->
    fst (validate_social_link platform (pre ++ link)) = true.
Proof.
  intros platform link pre H. unfold validate_social_link in *.
  apply first_link_type_valid in H. apply first_link_type_valid.
  destruct H as (kind & pat & Hin & Hm).
  exists kind, pat. split; [exact Hin | apply re_search_prefix; exact Hm].
Qed.

Lemma validate_social_link_any_prefix_witness :
  fst (validate_social_link
         "YouTube" ("https://example.org/?next=" ++ "youtube.com/@someone"))
  = true.
Proof.
  apply (validate_social_link_any_prefix "YouTube" "youtube.com/@someone").
  vm_compute. reflexivity.
Defined.

(** The kinds whose patterns have no [$]. *)
Definition open_ended (kind : string) : bool :=
  String.eqb kind "video" || String.eqb kind "post".

Lemma open_ended_anchor_free :
  forall platform kind pat,
    In (kind, pat) (dict_get platform_patterns platform []) ->
    open_ended kind = true ->
    exists r, Re.compile pat = Some r /\ anchor_free r = true.
Proof.
  intros platform kind pat. unfold platform_patterns. cbn [dict_get].
  repeat match goal with
         | |- context [String.eqb ?a platform] => destruct (String.eqb a platform)
         end;
    cbn [In]; intros H Hk;
    repeat match goal with
           | H : _ \/ _ |- _ => destruct H as [H|H]
           | H : (_, _) = (_, _) |- _ => injection H as <- <-
           | H : False |- _ => destruct H
           end;
    try discriminate;
    eexists; split; vm_compute; reflexivity.
Qed.

(** X4. The video and post patterns are anchored at neither end: a link
    that matches one of them still matches it, and so is still accepted for
    that platform, with any text in front of it and any text after it. *)
Theorem open_ended_kinds_ignore_context :
  forall platform kind pat link pre suf,
    In (kind, pat) (dict_get platform_patterns platform []) ->
    open_ended kind = true ->
    Re.search pat link = true ->
    Re.search pat (pre ++ link ++ suf) = true
    /\ fst (validate_social_link platform (pre ++ link ++ suf)) = true.
Proof.
  intros platform kind pat link pre suf Hin Hk Hm.
  assert (Hext : Re.search pat (pre ++ link ++ suf) = true).
  { destruct (open_ended_anchor_free platform kind pat Hin Hk) as (r & Hc & Hr).
    unfold Re.search in *. rewrite Hc in *.
    apply search_compiled_prefix. apply search_compiled_suffix; assumption. }
  split; [exact Hext|]. unfold validate_social_link.
  apply first_link_type_valid. exists kind, pat. split; assumption.
Qed.

Lemma open_ended_kinds_ignore_context_witness :
  Re.search "instagram\.com/p/[\w-]+"
            ("see " ++ "instagram.com/p/XYZ" ++ " and more") = true
  /\ fst (validate_social_link
            "Instagram" ("see " ++ "instagram.com/p/XYZ" ++ " and more")) = true.
Proof.
  apply (open_ended_kinds_ignore_context "Instagram" "post").
  - cbn. auto.
  - reflexivity.
  - vm_compute. reflexivity.
Defined.

(** X5. The flag and the kind [validate_social_link] returns agree: with
    [True] the kind is a key of the platform's table, one of [channel],
    [profile], [video] and [post]; with [False] it is [invalid], which is
    no key of any table. *)
Theorem validate_social_link_kind :
  forall platform link,
    match validate_social_link platform link with
    | (true, kind) =>
        In kind (keys (dict_get platform_patterns platform []))
        /\ In kind ["channel"; "profile"; "video"; "post"]
    | (false, kind) => kind = "invalid"
    end.
Proof.
  intros platform link. unfold validate_social_link.
  assert (Hloop : forall patterns,
    match first_link_type patterns link with
    | (true, kind) => In kind (keys patterns)
    | (false, kind) => kind = "invalid"
    end).
  { induction patterns as [|[k p] rest IH]; cbn; [reflexivity|].
    destruct (Re.search p link); [left; reflexivity|].
    destruct (first_link_type rest link) as [[|] kind]; [right; exact IH | exact IH]. }
  specialize (Hloop (dict_get platform_patterns platform [])).
  destruct (first_link_type _ link) as [[|] kind]; [|exact Hloop].
  split; [exact Hloop|]. revert Hloop.
  unfold platform_patterns. cbn [dict_get].
  repeat match goal with
         | |- context [String.eqb ?a platform] => destruct (String.eqb a platform)
         end;
    cbn; intuition (subst; auto).
Qed.

(** ** What startup and navigation do to the outside *)

Section RunTrace.

Context {World Drv Elem : Type} {B : Browser World Drv Elem}.

Local Abbreviation M := (@M World Drv).
Local Abbreviation State := (@State World Drv).

Variable attempt : M unit.
Variable delay : Z.

(** What one attempt may append to the trace, and what it keeps. *)
Variable shape : list event -> Prop.
Variable kept : State -> State -> Prop.

Hypothesis kept_refl : forall st, kept st st.
Hypothesis kept_trans : forall a b c, kept a b -> kept b c -> kept a c.
Hypothesis kept_slept : forall st, kept st (slept delay st).

Hypothesis attempt_trace :
  forall st, exists evs,
    st_trace (snd (attempt st)) = (st_trace st ++ evs)%list
    /\ shape evs /\ kept st (snd (attempt st)).

(** The events of failed attempts, each followed by its sleep. *)
Definition with_sleeps (failed : list (list event)) : list event :=
  concat (map (fun evs => (evs ++ [EvSleep delay])%list) failed).

Lemma failing_run_trace :
  forall k st s,
    failing_run attempt delay k st s ->
    exists failed,
      st_trace s = (st_trace st ++ with_sleeps failed)%list
      /\ length failed = k /\ Forall shape failed /\ kept st s.
Proof.
  intros k st s H. induction H as [st|k st e st1 s Hrun Hrest IH].
  - exists []. unfold with_sleeps. cbn. rewrite app_nil_r. auto.
  - destruct IH as (failed & Htr & Hlen & Hall & Hkept).
    destruct (attempt_trace st) as (evs & Hevs & Hshape & Hk1).
    rewrite Hrun in Hevs, Hk1. cbn [snd] in Hevs, Hk1.
    exists (evs :: failed). repeat split.
    + rewrite Htr. unfold slept, with_sleeps. cbn [time_sleep snd st_trace].
      rewrite Hevs. cbn [map concat]. now rewrite <- !app_assoc.
    + cbn. now rewrite Hlen.
    + constructor; assumption.
    + eapply kept_trans; [exact Hk1|].
      eapply kept_trans; [apply kept_slept | exact Hkept].
Qed.

End RunTrace.

Section Outside.

Context {World Drv Elem : Type} {B : Browser World Drv Elem}.

Local Abbreviation State := (@State World Drv).

(** The events of one launch attempt: the launch, and the page-load-timeout
    call when the launch succeeded. *)
Definition launch_shape (evs : list event) : Prop :=
  evs = [EvChrome] \/ evs = [EvChrome; EvSetPageLoadTimeout 30].

(** The retry settings and the local dict are as before. *)
Definition settings_kept (st st' : State) : Prop :=
  self_max_retries (st_self st') = self_max_retries (st_self st)
  /\ self_retry_delay (st_self st') = self_retry_delay (st_self st)
  /\ st_result st' = st_result st.

Lemma launch_attempt_trace :
  forall st : State, exists evs,
    st_trace (snd (launch_attempt st)) = (st_trace st ++ evs)%list
    /\ launch_shape evs /\ settings_kept st (snd (launch_attempt st)).
Proof.
  intros st.
  destruct (launch_attempt_inv st) as (Hm & Hd & Hr & _).
  assert (Hk : settings_kept st (snd (launch_attempt st)))
    by (repeat split; assumption).
  revert Hk. clear Hm Hd Hr.
  unfold launch_attempt, the_driver. run_monad.
  destruct (chrome _configure_chrome_options (st_world st)) as [[d|e] w]; cbn.
  - destruct (set_page_load_timeout d 30 w) as [[[]|e] w']; cbn; intros Hk;
      exists [EvChrome; EvSetPageLoadTimeout 30];
      (split; [now rewrite <- app_assoc | split; [right; reflexivity | exact Hk]]).
  - intros Hk. exists [EvChrome]. split; [reflexivity|].
    split; [left; reflexivity | exact Hk].
Qed.

Lemma settings_kept_refl : forall st : State, settings_kept st st.
Proof. intros st. repeat split. Qed.

Lemma settings_kept_trans :
  forall a b c : State,
    settings_kept a b -> settings_kept b c -> settings_kept a c.
Proof.
  intros a b c (H1 & H2 & H3) (H4 & H5 & H6). repeat split; congruence.
Qed.

Lemma settings_kept_slept :
  forall delay (st : State), settings_kept st (slept delay st).
Proof. intros delay st. repeat split. Qed.

(** X6. What [__init__] does to the outside, in full: up to two failed
    launch attempts, each followed by a sleep of 2 seconds, then one more
    attempt and nothing after it.  An attempt is a launch, with the
    page-load-timeout call when the launch succeeded.  So there are between
    one and three launches, no sleep after the last attempt, and no
    [quit]: a browser launched by an attempt that then failed is left
    running. *)
Theorem init_trace_shape :
  forall st : State,
    exists failed last,
      st_trace (snd (BaseScraper_init st))
      = (st_trace st ++ with_sleeps 2 failed ++ last)%list
      /\ (length failed <= 2)%nat
      /\ Forall launch_shape (last :: failed).
Proof.
  intros st.
  assert (Hentry : BaseScraper_init st
                   = match for_each (range 3) init_turn (init_entry st) with
                     | (Ret _, st') => (Ret tt, st')
                     | (Raise e, st') => (Raise e, st')
                     end).
  { unfold BaseScraper_init, init_entry. run_monad.
    destruct (for_each (range 3) init_turn _) as [[r|e] st']; reflexivity. }
  assert (Hfinish : forall k s st' (o : outcome unit),
    (k < 3)%nat ->
    failing_run launch_attempt 2 k (init_entry st) s ->
    launch_attempt s = (o, st') ->
    exists failed last,
      st_trace st' = (st_trace st ++ with_sleeps 2 failed ++ last)%list
      /\ (length failed <= 2)%nat /\ Forall launch_shape (last :: failed)).
  { intros k s st' o Hk Hrun Hlast.
    destruct (failing_run_trace launch_attempt 2 launch_shape settings_kept
                settings_kept_refl settings_kept_trans (settings_kept_slept 2)
                launch_attempt_trace k _ _ Hrun)
      as (failed & Htr & Hlen & Hall & _).
    destruct (launch_attempt_trace s) as (last & Hl & Hshape & _).
    rewrite Hlast in Hl. cbn [snd] in Hl.
    exists failed, last. repeat split.
    - rewrite Hl, Htr. cbn [init_entry st_trace]. now rewrite <- app_assoc.
    - lia.
    - constructor; assumption. }
  rewrite Hentry. unfold range. change (Z.to_nat 3) with 3%nat.
  destruct (init_loop 3 0 (init_entry st) eq_refl)
    as [(k & s & st' & Hk & Hrun & Hok & Hloop)
       |[(k & s & e & st' & Hk & Hrun & Hfail & Hloop)|(Hm & _)]].
  - rewrite Hloop. cbn [snd]. eapply Hfinish; eassumption.
  - rewrite Hloop. cbn [snd]. injection Hk as <-.
    eapply (Hfinish 2%nat); [lia | eassumption | eassumption].
  - discriminate.
Qed.

(** An object that [BaseScraper.__init__] has built is complete. *)
Lemma init_object_built :
  forall (st st' : State),
    BaseScraper_init st = (Ret tt, st') ->
    exists d,
      self_driver (st_self st') = Some (Some d)
      /\ self_wait (st_self st') = Some d
      /\ self_max_retries (st_self st') = 3%Z
      /\ self_retry_delay (st_self st') = 2%Z.
Proof.
  intros st st' Hinit.
  assert (Hentry : BaseScraper_init st
                   = match for_each (range 3) init_turn (init_entry st) with
                     | (Ret _, st') => (Ret tt, st')
                     | (Raise e, st') => (Raise e, st')
                     end).
  { unfold BaseScraper_init, init_entry. run_monad.
    destruct (for_each (range 3) init_turn _) as [[r|e] st1]; reflexivity. }
  rewrite Hentry in Hinit. unfold range in Hinit.
  change (Z.to_nat 3) with 3%nat in Hinit.
  destruct (init_loop 3 0 (init_entry st) eq_refl)
    as [(k & s & st1 & Hk & Hrun & Hok & Hloop)
       |[(k & s & e & st1 & Hk & Hrun & Hfail & Hloop)|(Hm & _)]];
    try discriminate; rewrite Hloop in Hinit; [|discriminate].
  injection Hinit as <-.
  destruct (failing_run_trace launch_attempt 2 launch_shape settings_kept
              settings_kept_refl settings_kept_trans (settings_kept_slept 2)
              launch_attempt_trace k _ _ Hrun)
    as (_ & _ & _ & _ & (Hm & Hd & _)).
  destruct (launch_attempt_inv s) as (Hm' & Hd' & _ & Hdone).
  rewrite Hok in Hm', Hd', Hdone. cbn [fst snd] in *.
  destruct (Hdone eq_refl) as (_ & d & Hdrv & Hwait).
  exists d. repeat split; try assumption.
  - rewrite Hm', Hm. reflexivity.
  - rewrite Hd', Hd. reflexivity.
Qed.

End Outside.

Section Construction.

Context {World Drv Elem : Type} {B : Browser World Drv Elem}.

Local Abbreviation State := (@State World Drv).

Definition hide_webdriver_script : string :=
  "Object.defineProperty(navigator, 'webdriver', {get: () => undefined})".

(** X7. An object that its class has built ([scraper_class()] returned)
    is complete: [driver] holds a driver, [wait] is built on that same
    driver, [max_retries] is 3 and [retry_delay] is 2.  For
    [InstagramScraper] the last two things done were the script that hides
    the [webdriver] flag and the user-agent override, in this order. *)
Theorem constructed_object_complete :
  forall p (st st' : State),
    construct p st = (Ret tt, st') ->
    (exists d,
        self_driver (st_self st') = Some (Some d)
        /\ self_wait (st_self st') = Some d
        /\ self_max_retries (st_self st') = 3%Z
        /\ self_retry_delay (st_self st') = 2%Z)
    /\ (p = Instagram ->
        exists before,
          st_trace st'
          = (before ++ [EvScript hide_webdriver_script;
                        EvCdp "Network.setUserAgentOverride"])%list).
Proof.
  intros p st st' Hrun. unfold construct, bind in Hrun.
  cbn [set_self] in Hrun.
  set (st0 := mk_state (st_world st) (st_trace st) new_object (st_result st))
    in Hrun.
  destruct p; try (split; [apply (init_object_built st0 st' Hrun) | discriminate]).
  unfold InstagramScraper_init, bind in Hrun.
  destruct (BaseScraper_init st0) as [[[]|e] st1] eqn:Hinit; [|discriminate].
  destruct (init_object_built st0 st1 Hinit) as (d & Hd & Hw & Hm & Hdl).
  unfold _configure_instagram, driver_execute_script, the_driver in Hrun.
  run_monad. repeat (rewrite Hd in Hrun; cbn in Hrun).
  destruct (execute_script d _ (st_world st1)) as [[r|e] w]; [|discriminate].
  cbn in Hrun. repeat (rewrite Hd in Hrun; cbn in Hrun).
  destruct (execute_cdp_cmd d _ instagram_user_agent w) as [[[]|e] w'];
    [|discriminate].
  injection Hrun as <-. cbn. split.
  - exists d. auto.
  - intros _. exists (st_trace st1). now rewrite <- app_assoc.
Qed.

End Construction.

Lemma constructed_object_complete_witness :
  st_trace (snd (construct (B := stub_browser [(hide_webdriver_script, "")])
                           Instagram (stub_fresh 1)))
  = [ EvChrome; EvSleep 2; EvChrome; EvSetPageLoadTimeout 30;
      EvScript hide_webdriver_script; EvCdp "Network.setUserAgentOverride" ].
Proof.
  destruct (constructed_object_complete
              (B := stub_browser [(hide_webdriver_script, "")])
              Instagram (stub_fresh 1)
              (snd (construct (B := stub_browser [(hide_webdriver_script, "")])
                              Instagram (stub_fresh 1))))
    as (_ & Htrace).
  - vm_compute. reflexivity.
  - destruct (Htrace eq_refl) as (before & H). vm_compute. reflexivity.
Defined.


(** ** What the methods leave alone *)

Section Frames.

Context {World Drv Elem : Type} {B : Browser World Drv Elem}.

Local Abbreviation M := (@M World Drv).
Local Abbreviation State := (@State World Drv).

(** The events a program is allowed. *)
Variable ok : event -> Prop.

(** From [st] to [st'] the object is unchanged and only allowed events
    were appended to the trace. *)
Definition framed (st st' : State) : Prop :=
  st_self st' = st_self st
  /\ exists evs, st_trace st' = (st_trace st ++ evs)%list /\ Forall ok evs.

Definition respects {A : Type} (m : M A) : Prop :=
  forall st, framed st (snd (m st)).

Lemma framed_refl : forall st, framed st st.
Proof.
  intros st. split; [reflexivity|]. exists []. now rewrite app_nil_r.
Qed.

Lemma framed_trans :
  forall a b c, framed a b -> framed b c -> framed a c.
Proof.
  intros a b c (Hs1 & e1 & Ht1 & Hok1) (Hs2 & e2 & Ht2 & Hok2). split.
  - congruence.
  - exists (e1 ++ e2)%list. split.
    + rewrite Ht2, Ht1. now rewrite <- app_assoc.
    + apply Forall_app. split; assumption.
Qed.

Lemma respects_ret : forall A (a : A), respects (ret a).
Proof. intros A a st. apply framed_refl. Qed.

Lemma respects_raise : forall A e, respects (raise (A := A) e).
Proof. intros A e st. apply framed_refl. Qed.

Lemma respects_bind :
  forall A C (m : M A) (k : A -> M C),
    respects m -> (forall a, respects (k a)) -> respects (bind m k).
Proof.
  intros A C m k Hm Hk st. unfold bind. specialize (Hm st).
  destruct (m st) as [[a|e] st1]; cbn [snd] in *; [|exact Hm].
  eapply framed_trans; [exact Hm | apply Hk].
Qed.

Lemma respects_try :
  forall A (m : M A) (h : exn -> M A),
    respects m -> (forall e, respects (h e)) -> respects (try_except m h).
Proof.
  intros A m h Hm Hh st. unfold try_except. specialize (Hm st).
  destruct (m st) as [[a|e] st1]; cbn [snd] in *; [exact Hm|].
  eapply framed_trans; [exact Hm | apply Hh].
Qed.

Lemma respects_try_class :
  forall A c (m : M A) (h : exn -> M A),
    respects m -> (forall e, respects (h e)) -> respects (try_except_class c m h).
Proof.
  intros A c m h Hm Hh st. unfold try_except_class. specialize (Hm st).
  destruct (m st) as [[a|e] st1]; cbn [snd] in *; [exact Hm|].
  destruct (c (exn_cls e)); [|exact Hm].
  eapply framed_trans; [exact Hm | apply Hh].
Qed.

Lemma respects_call :
  forall A ev (op : World -> outcome A * World), ok ev -> respects (call ev op).
Proof.
  intros A ev op Hev st. unfold call.
  destruct (op (st_world st)) as [r w]. cbn. split; [reflexivity|].
  exists [ev]. split; [reflexivity | constructor; [exact Hev | constructor]].
Qed.

Lemma respects_read :
  forall A (rd : World -> outcome A * World), respects (read rd).
Proof.
  intros A rd st. unfold read. destruct (rd (st_world st)) as [r w]. cbn.
  split; [reflexivity|]. exists []. split; [now rewrite app_nil_r | constructor].
Qed.

Lemma respects_sleep :
  forall secs, ok (EvSleep secs) -> respects (time_sleep secs).
Proof.
  intros secs Hev st. cbn. split; [reflexivity|].
  exists [EvSleep secs]. split; [reflexivity | constructor; [exact Hev | constructor]].
Qed.

Lemma respects_get_self : respects get_self.
Proof. intros st. apply framed_refl. Qed.

Lemma respects_get_result : respects get_result.
Proof. intros st. apply framed_refl. Qed.

Lemma respects_set_result : forall d, respects (set_result d).
Proof.
  intros d st. cbn. split; [reflexivity|]. exists []. now rewrite app_nil_r.
Qed.

Lemma respects_for_each :
  forall X R (xs : list X) (body : X -> M (ctl R)),
    (forall x, respects (body x)) -> respects (for_each xs body).
Proof.
  intros X R xs body Hbody. induction xs as [|x xs IH].
  - apply respects_ret.
  - cbn [for_each]. apply respects_bind; [apply Hbody|].
    intros [| |r]; [exact IH | apply respects_ret | apply respects_ret].
Qed.

End Frames.

(** Takes a program apart by the rules above; what is left are the
    events to allow. *)
Ltac frame_step :=
  first
    [ apply respects_ret | apply respects_raise | apply respects_read
    | apply respects_get_self | apply respects_get_result
    | apply respects_set_result
    | apply respects_bind; [ | intros ? ]
    | apply respects_try_class; [ | intros ? ]
    | apply respects_try; [ | intros ? ]
    | apply respects_for_each; intros ?
    | apply respects_call | apply respects_sleep
    | match goal with
      | |- respects _ (if ?b then _ else _) => destruct b
      | |- respects _ (match ?x with _ => _ end) => destruct x
      end ].

Ltac frame_unfold :=
  unfold YouTubeScraper_scrape_profile, YouTubeScraper_scrape_post,
    InstagramScraper_scrape_profile, InstagramScraper_scrape_post,
    TikTokScraper_scrape_profile, TikTokScraper_scrape_post,
    FacebookScraper_scrape_profile, FacebookScraper_scrape_post,
    tiktok_profile_lookups, tiktok_post_lookups, facebook_profile_lookups,
    facebook_post_lookups, youtube_profile_try, youtube_post_try, instagram_profile_try,
    instagram_post_try, youtube_channel_name_lookups,
    youtube_subscribers_lookups, youtube_channel_name_script,
    youtube_subscribers_script, youtube_channel_log, youtube_title_xpath,
    selector_turn, find_waiting, find_safely, _safe_find_element, store_text,
    set_if, wait_text, _safe_get, safe_get_turn, driver_get,
    driver_find_element, driver_execute_script, driver_title, wait_until,
    elem_text, elem_get_attribute, set_item, get_item, the_driver, the_wait.

(** Where an operation navigates: the formatted URL for YouTube and
    Instagram, the URL as given for TikTok and Facebook. *)
Definition target (p : Platform) (url : string) : string :=
  match p with
  | YouTube | Instagram => _format_url url
  | TikTok | Facebook => url
  end.

(** The events of a scrape operation on [url]: navigation to the target,
    lookups, scripts and sleeps; no launch, no settings call, no [quit]. *)
Definition scrape_event (p : Platform) (url : string) (ev : event) : Prop :=
  match ev with
  | EvGet u => u = target p url
  | EvFind _ _ | EvWait _ _ | EvScript _ | EvSleep _ => True
  | EvChrome | EvSetPageLoadTimeout _ | EvCdp _ | EvQuit => False
  end.

(** X8. No scrape operation changes the scraper object, launches or quits
    a browser: all it does to the outside is navigate, only to its target
    (the formatted URL for YouTube and Instagram, the URL as given for
    TikTok and Facebook), look elements up, run scripts and sleep. *)
Theorem scrape_keeps_session :
  forall {World Drv Elem : Type} {B : Browser World Drv Elem}
         p k url (st : @State World Drv),
    st_self (snd (scrape p k url st)) = st_self st
    /\ exists evs,
        st_trace (snd (scrape p k url st)) = (st_trace st ++ evs)%list
        /\ Forall (scrape_event p url) evs.
Proof.
  intros World Drv Elem B p k url st.
  assert (H : respects (scrape_event p url) (scrape p k url)).
  { destruct p, k; cbn [scrape]; frame_unfold; cbv zeta;
      repeat frame_step; cbn; auto. }
  exact (H st).
Qed.

Section SafeGetOutside.

Context {World Drv Elem : Type} {B : Browser World Drv Elem}.

Local Abbreviation State := (@State World Drv).

(** The events of one navigation attempt on the object of [st]: the
    [driver.get], or nothing when the object has no driver to call. *)
Definition get_events (url : string) (st : State) : list event :=
  match self_driver (st_self st) with
  | Some (Some _) => [EvGet url]
  | _ => []
  end.

(** The object and the local dict are as before. *)
Definition object_kept (st st' : State) : Prop :=
  st_self st' = st_self st /\ st_result st' = st_result st.

Lemma driver_get_trace :
  forall url (st : State),
    st_trace (snd (driver_get url st)) = (st_trace st ++ get_events url st)%list
    /\ object_kept st (snd (driver_get url st)).
Proof.
  intros url st. unfold driver_get, the_driver, get_events. run_monad.
  destruct (self_driver (st_self st)) as [[d|]|]; cbn.
  - destruct (get d url (st_world st)) as [[[]|e] w]; cbn; repeat split.
  - rewrite app_nil_r. repeat split.
  - rewrite app_nil_r. repeat split.
Qed.

Lemma object_kept_trans :
  forall a b c : State, object_kept a b -> object_kept b c -> object_kept a c.
Proof. intros a b c (H1 & H2) (H3 & H4). split; congruence. Qed.

(** The trace of [k] failed navigation attempts with their sleeps. *)
Lemma failing_gets_trace :
  forall url delay k (st s : State),
    failing_run (driver_get url) delay k st s ->
    st_trace s
    = (st_trace st ++ with_sleeps delay (repeat (get_events url st) k))%list
    /\ object_kept st s.
Proof.
  intros url delay k st s H. induction H as [st|k st e st1 s Hrun Hrest IH].
  - cbn. rewrite app_nil_r. repeat split.
  - destruct IH as (Htr & Hkept).
    destruct (driver_get_trace url st) as (Hevs & Hk1).
    rewrite Hrun in Hevs, Hk1. cbn [snd] in Hevs, Hk1.
    assert (Hk2 : object_kept st (slept delay st1))
      by (destruct Hk1; split; assumption).
    assert (Hsame : get_events url (slept delay st1) = get_events url st)
      by (unfold get_events; destruct Hk2 as (-> & _); reflexivity).
    split; [|eapply object_kept_trans; eassumption].
    rewrite Htr, Hsame. unfold slept, with_sleeps.
    cbn [time_sleep snd st_trace repeat map concat].
    rewrite Hevs. now rewrite <- !app_assoc.
Qed.

(** X9. What [_safe_get] does, in full.  It changes neither the scraper
    object nor the dict [result].  When [max_retries] is not positive it
    does nothing.  Otherwise it makes [k + 1] attempts, [k < max_retries]:
    [k] failed ones, each followed by a sleep of [self.retry_delay]
    seconds, and a last one with no sleep after it; when it returns
    [False] the attempts were [max_retries].  On an object with a driver
    every attempt is one [driver.get(url)], so the page is requested at
    least once and at most [max_retries] times; on an object without a
    driver an attempt calls nothing. *)
Theorem safe_get_outside :
  forall url n (st : State),
    object_kept st (snd (_safe_get url n st))
    /\ (((n <= 0)%Z /\ st_trace (snd (_safe_get url n st)) = st_trace st)
        \/ ((0 < n)%Z
            /\ exists k,
                (Z.of_nat k < n)%Z
                /\ st_trace (snd (_safe_get url n st))
                   = (st_trace st
                      ++ with_sleeps (self_retry_delay (st_self st))
                           (repeat (get_events url st) k)
                      ++ get_events url st)%list
                /\ (fst (_safe_get url n st) = Ret false -> Z.of_nat (S k) = n))).
Proof.
  intros url n st. set (delay := self_retry_delay (st_self st)).
  assert (Hfinish : forall k s st' (o : outcome unit),
    failing_run (driver_get url) delay k st s ->
    driver_get url s = (o, st') ->
    object_kept st st'
    /\ st_trace st'
       = (st_trace st ++ with_sleeps delay (repeat (get_events url st) k)
          ++ get_events url st)%list).
  { intros k s st' o Hfail Hlast.
    destruct (failing_gets_trace url delay k st s Hfail) as (Htr & Hkept).
    destruct (driver_get_trace url s) as (Hl & Hk2).
    rewrite Hlast in Hl, Hk2. cbn [snd] in Hl, Hk2. split.
    - eapply object_kept_trans; eassumption.
    - assert (Hsame : get_events url s = get_events url st)
        by (unfold get_events; destruct Hkept as (-> & _); reflexivity).
      rewrite Hl, Htr, Hsame. now rewrite <- app_assoc. }
  destruct (Z.le_gt_cases n 0) as [Hn|Hn].
  - unfold _safe_get, range. replace (Z.to_nat n) with 0%nat by lia.
    cbn. split; [split; reflexivity|]. left. split; [exact Hn | reflexivity].
  - assert (Hloop := safe_get_loop url (Z.of_nat (Z.to_nat n)) (Z.to_nat n) 0 st
                                   eq_refl).
    cbv zeta in Hloop. fold delay in Hloop.
    assert (Hnn : Z.of_nat (Z.to_nat n) = n) by lia. rewrite Hnn in Hloop.
    destruct Hloop as [(k & s & st' & Hk & Hfail & Hok & Hl)
                      |[(k & s & e & st' & Hk & Hfail & Hlast & Hl)
                       |(Hm & _)]].
    + unfold _safe_get, range, bind. rewrite Hl. cbn [fst snd ret].
      destruct (Hfinish k s st' (Ret tt) Hfail Hok) as (Hkept & Htr).
      split; [exact Hkept|]. right. split; [lia|].
      exists k. repeat split; [lia | exact Htr | discriminate].
    + unfold _safe_get, range, bind. rewrite Hl. cbn [fst snd ret].
      destruct (Hfinish k s st' (Raise e) Hfail Hlast) as (Hkept & Htr).
      split; [exact Hkept|]. right. split; [lia|].
      exists k. repeat split; [lia | exact Htr | lia].
    + lia.
Qed.

End SafeGetOutside.

(** ** What every result says *)

Definition platform_name (p : Platform) : string :=
  match p with
  | YouTube => "YouTube"
  | Instagram => "Instagram"
  | TikTok => "TikTok"
  | Facebook => "Facebook"
  end.

(** The classifier's name for the links an operation is for. *)
Definition link_type (p : Platform) (k : Kind) : string :=
  match p, k with
  | YouTube, Profile => "channel"
  | YouTube, Post => "video"
  | TikTok, Post => "video"
  | _, Profile => "profile"
  | _, Post => "post"
  end.

(** The operation's result names the platform and the link type. *)
Definition labelled (p : Platform) (k : Kind) (r : dict string) : Prop :=
  dict_lookup r "platform" = Some (platform_name p)
  /\ dict_lookup r "type" = Some (link_type p k).

Section Labels.

Context {World Drv Elem : Type} {B : Browser World Drv Elem}.

Local Abbreviation State := (@State World Drv).
Local Abbreviation triple := (@triple World Drv).

(** An invariant of the dict a YouTube or Instagram method works on holds
    of the result it returns. *)
Lemma scrape_result_inv :
  forall (I : dict string -> Prop) p k url (st : State) r st',
    has_placeholders p = true ->
    I (initial_result p k) ->
    fields_guarded I p k ->
    scrape p k url st = (Ret r, st') ->
    I r.
Proof.
  intros I p k url st r st' Hp Hinit Hg Hrun. destruct p; try discriminate.
  - pose proof (youtube_outcome I k url st Hinit Hg) as H.
    destruct (_safe_get (_format_url url) 3 st) as [[[|]|e] st1];
      [|congruence|congruence].
    destruct H as (r0 & st0 & H0 & Hr0). congruence.
  - destruct (instagram_outcome I k url st Hinit Hg) as (r0 & st0 & H0 & Hr0).
    congruence.
Qed.

Lemma literal_labelled :
  forall p k url,
    has_placeholders p = false ->
    triple (fun _ => True) (scrape p k url) (labelled p k) anything.
Proof.
  intros p k url Hp.
  destruct p, k; try discriminate; cbn [scrape];
    unfold TikTokScraper_scrape_profile, TikTokScraper_scrape_post,
      FacebookScraper_scrape_profile, FacebookScraper_scrape_post,
      tiktok_profile_lookups, tiktok_post_lookups, facebook_profile_lookups,
      facebook_post_lookups, wait_text;
    (tri_bind; [tri_leaf|]);
    (apply triple_try_class; [|intros; apply triple_raise; exact Logic.I]);
    repeat (tri_bind; [first [tri_leaf | tri_bind; tri_leaf]|]);
    repeat tri_bind; try tri_leaf;
    apply triple_ret; split; reflexivity.
Qed.

Lemma scrape_labelled :
  forall p k url (st : State) r st',
    scrape p k url st = (Ret r, st') -> labelled p k r.
Proof.
  intros p k url st r st' Hrun. destruct (has_placeholders p) eqn:Hp.
  - assert (Hkept : placeholders_kept p k r).
    { apply (scrape_result_inv (placeholders_kept p k) p k url st r st' Hp);
        [intros key v Hv _; exact Hv | apply placeholders_guarded | exact Hrun]. }
    split; apply Hkept;
      destruct p, k; try discriminate; try reflexivity; intros loc [].
  - pose proof (literal_labelled p k url Hp st Logic.I) as H.
    rewrite Hrun in H. apply H.
Qed.

(** X10. Every result an operation returns names its platform under
    [platform] and its kind of link under [type], and the name under [type]
    is the key under which the classifier's table for that platform files
    such links: the first key for a profile operation, the second for a
    post operation. *)
Theorem result_labels_match_classifier :
  forall p k url (st : State) r st',
    scrape p k url st = (Ret r, st') ->
    dict_lookup r "platform" = Some (platform_name p)
    /\ dict_lookup r "type" = Some (link_type p k)
    /\ keys (dict_get platform_patterns (platform_name p) [])
       = [link_type p Profile; link_type p Post].
Proof.
  intros p k url st r st' Hrun.
  destruct (scrape_labelled p k url st r st' Hrun) as (Hp & Ht).
  repeat split; [exact Hp | exact Ht | destruct p; reflexivity].
Qed.

(** The fields no method ever looks up. *)
Definition never_looked_up : list (Platform * Kind * string) :=
  [ (YouTube, Post, "views"); (Instagram, Profile, "posts");
    (Instagram, Post, "comments") ].

(** X11. The fields [views] of a YouTube video, [posts] of an Instagram
    profile and [comments] of an Instagram post are never filled in: in
    every result that is returned they are ["Not available"]. *)
Theorem unfilled_fields :
  forall p k key url (st : State) r st',
    In (p, k, key) never_looked_up ->
    scrape p k url st = (Ret r, st') ->
    dict_lookup r key = Some "Not available".
Proof.
  intros p k key url st r st' Hin Hrun.
  assert (Hp : has_placeholders p = true).
  { cbn in Hin. intuition (try congruence);
      match goal with H : (_, _, _) = _ |- _ => injection H as <- <- <- end;
      reflexivity. }
  assert (Hkept : placeholders_kept p k r).
  { apply (scrape_result_inv (placeholders_kept p k) p k url st r st' Hp);
      [intros key' v Hv _; exact Hv | apply placeholders_guarded | exact Hrun]. }
  cbn in Hin.
  destruct Hin as [H|[H|[H|[]]]]; injection H as <- <- <-;
    apply Hkept; try reflexivity; intros loc [].
Qed.

End Labels.

Lemma result_labels_match_classifier_witness :
  exists r st',
    scrape (B := stub_browser followers_page) Instagram Profile
           "instagram.com/someone/" (stub_state 0 0) = (Ret r, st')
    /\ dict_lookup r "type" = Some "profile".
Proof.
  eexists; eexists. split; [vm_compute; reflexivity|].
  eapply (result_labels_match_classifier (B := stub_browser followers_page)
            Instagram Profile "instagram.com/someone/" (stub_state 0 0)).
  vm_compute. reflexivity.
Defined.

Lemma unfilled_fields_witness :
  exists r st',
    scrape (B := stub_browser followers_page) Instagram Profile
           "instagram.com/someone/" (stub_state 0 0) = (Ret r, st')
    /\ dict_lookup r "posts" = Some "Not available".
Proof.
  eexists; eexists. split; [vm_compute; reflexivity|].
  eapply (unfilled_fields (B := stub_browser followers_page)
            Instagram Profile "posts" "instagram.com/someone/" (stub_state 0 0)).
  - cbn. auto.
  - vm_compute. reflexivity.
Defined.

(** ** Edge behaviour of the lookups *)

Definition youtube_channel_name_xpath : string :=
  "//yt-formatted-string[contains(@class, 'ytd-channel-name')]".

Definition youtube_scroll_script : string :=
  "window.scrollTo(0, document.body.scrollHeight/2);".

(** The [try] of a TikTok or Facebook method: its body, and the exception
    its [except TimeoutException] clause raises.  The YouTube and Instagram
    methods have no such clause. *)
Definition literal_try {World Drv Elem : Type} {B : Browser World Drv Elem}
           (p : Platform) (k : Kind)
  : option (@M World Drv (dict string) * exn) :=
  match p, k with
  | TikTok, Profile =>
      Some (tiktok_profile_lookups,
            mk_exn Exception_ "Failed to load TikTok profile data")
  | TikTok, Post =>
      Some (tiktok_post_lookups,
            mk_exn Exception_ "Failed to load TikTok video data")
  | Facebook, Profile =>
      Some (facebook_profile_lookups,
            mk_exn Exception_ "Failed to load Facebook profile data")
  | Facebook, Post =>
      Some (facebook_post_lookups,
            mk_exn Exception_ "Failed to load Facebook post data")
  | _, _ => None
  end.

Section Edges.

Context {World Drv Elem : Type} {B : Browser World Drv Elem}.

Local Abbreviation M := (@M World Drv).
Local Abbreviation State := (@State World Drv).

(** X12. The chain of [try]/[except] lookups for the YouTube channel name
    falls back on an exception only.  When the first lookup finds an
    element whose trimmed text is empty, nothing is stored and neither of
    the two other [find_element] lookups is made. *)
Theorem channel_name_chain_stops_on_empty_text :
  forall (st : State) d el w t w1,
    self_driver (st_self st) = Some (Some d) ->
    find_element d By_XPATH youtube_channel_name_xpath (st_world st)
    = (Ret el, w) ->
    text el w = (Ret t, w1) ->
    PyStr.strip t = "" ->
    youtube_channel_name_lookups st
    = (Ret tt,
       mk_state w1
                (st_trace st ++ [EvFind By_XPATH youtube_channel_name_xpath])%list
                (st_self st) (st_result st)).
Proof.
  intros st d el w t w1 Hd Hfind Htext Hempty.
  unfold youtube_channel_name_lookups, store_text, driver_find_element,
    the_driver, elem_text, set_if.
  unfold youtube_channel_name_xpath in Hfind.
  run_monad. rewrite Hd. cbn. rewrite Hfind. cbn. rewrite Htext. cbn.
  rewrite Hempty. reflexivity.
Qed.

(** X13. In [YouTubeScraper.scrape_profile] the scroll script runs inside
    the outer [try]: when it raises, no field is looked up at all and the
    method returns the dict of placeholders. *)
Theorem scroll_failure_skips_lookups :
  forall url (st st1 : State) d e w,
    _safe_get (_format_url url) 3 st = (Ret true, st1) ->
    self_driver (st_self st1) = Some (Some d) ->
    execute_script d youtube_scroll_script (sleep 5 (st_world st1))
    = (Raise e, w) ->
    scrape YouTube Profile url st
    = (Ret youtube_channel_result,
       mk_state w
                (st_trace st1 ++ [EvSleep 5; EvScript youtube_scroll_script])%list
                (st_self st1) youtube_channel_result).
Proof.
  intros url st st1 d e w Hget Hd Hscript. cbn [scrape].
  unfold YouTubeScraper_scrape_profile. cbv zeta.
  unfold bind at 1. rewrite Hget. cbn [negb].
  unfold youtube_profile_try, driver_execute_script, the_driver.
  unfold youtube_scroll_script in Hscript.
  run_monad. rewrite Hd. cbn. rewrite Hscript. cbn.
  rewrite <- app_assoc. reflexivity.
Qed.

(** X14. In the TikTok and Facebook methods only the lookups are inside the
    [try].  Once navigation has succeeded, the method ends as its lookups
    end, in the same state: it returns the dict they built; for a
    [TimeoutException] of theirs it raises its own
    [Exception("Failed to load ...")] in its place; and an exception of any
    other class leaves the method as it is. *)
Theorem lookup_errors_after_navigation :
  forall p k url (st st1 : State) body own,
    literal_try p k = Some (body, own) ->
    driver_get url st = (Ret tt, st1) ->
    scrape p k url st
    = match body st1 with
      | (Ret r, st') => (Ret r, st')
      | (Raise e, st') =>
          match exn_cls e with
          | TimeoutException => (Raise own, st')
          | _ => (Raise e, st')
          end
      end.
Proof.
  intros p k url st st1 body own Htry Hget.
  destruct p, k; try discriminate; cbn [literal_try] in Htry;
    injection Htry as <- <-; cbn [scrape];
    unfold TikTokScraper_scrape_profile, TikTokScraper_scrape_post,
      FacebookScraper_scrape_profile, FacebookScraper_scrape_post;
    unfold bind at 1; rewrite Hget; unfold try_except_class;
    match goal with
    | |- context [?m st1] =>
        match type of (m st1) with
        | (outcome (dict string) * _)%type =>
            destruct (m st1) as [[r|[[] msg]] st']; reflexivity
        end
    end.
Qed.

End Edges.

(** A YouTube channel page whose title element is there but blank. *)
Definition blank_title_page : dict string :=
  [ (youtube_channel_name_xpath, "   "); ("ytd-channel-name h1", "Someone") ].

Lemma channel_name_chain_stops_on_empty_text_witness :
  youtube_channel_name_lookups (B := stub_browser blank_title_page)
    (with_result (stub_state 0 0) youtube_channel_result)
  = (Ret tt,
     mk_state (mk_stub 0 0 0) [EvFind By_XPATH youtube_channel_name_xpath]
              (mk_self (Some (Some tt)) (Some tt) 3 2) youtube_channel_result).
Proof.
  apply (channel_name_chain_stops_on_empty_text
           (B := stub_browser blank_title_page)
           (with_result (stub_state 0 0) youtube_channel_result)
           tt "   " (mk_stub 0 0 0) "   " (mk_stub 0 0 0));
    reflexivity.
Defined.

Lemma scroll_failure_skips_lookups_witness :
  fst (scrape (B := stub_browser []) YouTube Profile "youtube.com/@example"
              (stub_state 0 0))
  = Ret youtube_channel_result.
Proof.
  rewrite (scroll_failure_skips_lookups (B := stub_browser [])
             "youtube.com/@example" (stub_state 0 0)
             (mk_state (mk_stub 0 0 0) [EvGet "https://youtube.com/@example"]
                       (mk_self (Some (Some tt)) (Some tt) 3 2) [])
             tt (mk_exn WebDriverException youtube_scroll_script)
             (mk_stub 0 0 5));
    reflexivity.
Defined.

(** A Facebook post page without the like count: the lookup times out. *)
Lemma lookup_errors_after_navigation_witness :
  scrape (B := stub_browser []) Facebook Post "https://facebook.com/a/posts/1"
         (stub_state 0 0)
  = (Raise (mk_exn Exception_ "Failed to load Facebook post data"),
     mk_state (mk_stub 0 0 0)
              [EvGet "https://facebook.com/a/posts/1";
               EvWait By_CSS_SELECTOR "span.like-count"]
              (mk_self (Some (Some tt)) (Some tt) 3 2) []).
Proof.
  rewrite (lookup_errors_after_navigation (B := stub_browser [])
             Facebook Post "https://facebook.com/a/posts/1" (stub_state 0 0)
             (mk_state (mk_stub 0 0 0) [EvGet "https://facebook.com/a/posts/1"]
                       (mk_self (Some (Some tt)) (Some tt) 3 2) [])
             (facebook_post_lookups (B := stub_browser []))
             (mk_exn Exception_ "Failed to load Facebook post data")
             eq_refl eq_refl).
  vm_compute. reflexivity.
Defined.

(** A TikTok profile page with the followers count and without the
    following count: [find_element] raises [NoSuchElementException], which
    is not caught. *)
Example tiktok_missing_following_passes_through :
  fst (scrape (B := stub_browser [("strong[data-e2e='followers-count']", "10")])
              TikTok Profile "https://www.tiktok.com/@a" (stub_state 0 0))
  = Raise (mk_exn NoSuchElementException "strong[data-e2e='following-count']").
Proof. vm_compute. reflexivity. Qed.

(** ** The request handler *)

Definition invalid_link_message : string :=
  "Invalid link format. Please check the URL and try again.".

Definition detected_message (platform kind : string) : string :=
  "Valid " ++ platform ++ " " ++ kind ++ " link detected!".

Definition scraping_error_message (e : exn) : string :=
  "An error occurred while scraping: " ++ exn_str e.

Lemma first_link_type_key :
  forall patterns link,
    match first_link_type patterns link with
    | (true, kind) => In kind (keys patterns)
    | (false, kind) => kind = "invalid"
    end.
Proof.
  induction patterns as [|[k p] rest IH]; intros link; cbn; [reflexivity|].
  destruct (Re.search p link); [left; reflexivity|].
  specialize (IH link).
  destruct (first_link_type rest link) as [[|] kind]; [right; exact IH | exact IH].
Qed.

(** A link the classifier accepts is for one of the four platforms, and
    its kind selects the operation the way [main] does. *)
Lemma valid_link_dispatch :
  forall platform link kind,
    validate_social_link platform link = (true, kind) ->
    exists p k,
      platform = platform_name p
      /\ scrapers_get platform = Some p
      /\ kind = link_type p k
      /\ str_in kind ["channel"; "profile"]
         = match k with Profile => true | Post => false end.
Proof.
  intros platform link kind H.
  pose proof (first_link_type_key (dict_get platform_patterns platform []) link)
    as Hkey.
  unfold validate_social_link in H. rewrite H in Hkey. clear H.
  unfold platform_patterns in Hkey. cbn [dict_get] in Hkey.
  destruct (String.eqb_spec "YouTube" platform) as [<-|_].
  { cbn in Hkey. destruct Hkey as [<-|[<-|[]]];
      [exists YouTube, Profile | exists YouTube, Post]; repeat split. }
  destruct (String.eqb_spec "Instagram" platform) as [<-|_].
  { cbn in Hkey. destruct Hkey as [<-|[<-|[]]];
      [exists Instagram, Profile | exists Instagram, Post]; repeat split. }
  destruct (String.eqb_spec "TikTok" platform) as [<-|_].
  { cbn in Hkey. destruct Hkey as [<-|[<-|[]]];
      [exists TikTok, Profile | exists TikTok, Post]; repeat split. }
  destruct (String.eqb_spec "Facebook" platform) as [<-|_].
  { cbn in Hkey. destruct Hkey as [<-|[<-|[]]];
      [exists Facebook, Profile | exists Facebook, Post]; repeat split. }
  destruct Hkey.
Qed.

Section Request.

Context {World Drv Elem : Type} {B : Browser World Drv Elem}.

Local Abbreviation State := (@State World Drv).

(** What [main] does with a link, case by case. *)
Lemma main_request_cases :
  forall platform link (st : State),
    (link = "" /\ main_request platform link st = (Ret [], st))
    \/ (link <> ""
        /\ fst (validate_social_link platform link) = false
        /\ main_request platform link st
           = (Ret [UiError invalid_link_message], st))
    \/ (exists p k,
           link <> ""
           /\ platform = platform_name p
           /\ validate_social_link platform link = (true, link_type p k)
           /\ main_request platform link st
              = match bind (construct p) (fun _ => scrape p k link) st with
                | (Ret data, st') =>
                    (Ret [UiSuccess (detected_message platform (link_type p k));
                          UiDataframe data], st')
                | (Raise e, st') =>
                    (Ret [UiSuccess (detected_message platform (link_type p k));
                          UiError (scraping_error_message e)], st')
                end).
Proof.
  intros platform link st. unfold main_request.
  destruct link as [|c link']; [left; split; reflexivity|]. right.
  cbn [PyStr.truthy negb].
  destruct (validate_social_link platform (String c link')) as [[|] kind] eqn:Hv;
    cbn [negb fst].
  - right.
    destruct (valid_link_dispatch _ _ _ Hv) as (p & k & Hname & Hget & Hkind & Hin).
    exists p, k. rewrite Hget, Hin. subst kind.
    repeat split; [discriminate | exact Hname |].
    unfold try_except, bind.
    destruct (construct p st) as [[[]|e] st1]; [|reflexivity].
    destruct k.
    + destruct (scrape p Profile (String c link') st1) as [[data|e] st2] eqn:Hrun;
        [|reflexivity].
      destruct (scrape_labelled _ _ _ _ _ _ Hrun) as (Hp & _).
      destruct data; [discriminate | reflexivity].
    + destruct (scrape p Post (String c link') st1) as [[data|e] st2] eqn:Hrun;
        [|reflexivity].
      destruct (scrape_labelled _ _ _ _ _ _ Hrun) as (Hp & _).
      destruct data; [discriminate | reflexivity].
  - left. repeat split. discriminate.
Qed.


(** X16. The table [main] shows is the record of the operation the link
    was classified for: its [platform] field is the selected platform and
    its [type] field is the kind the classifier returned for the link. *)
Theorem shown_record_matches_link :
  forall platform link (st : State) shown st' data,
    main_request platform link st = (Ret shown, st') ->
    In (UiDataframe data) shown ->
    exists kind,
      validate_social_link platform link = (true, kind)
      /\ dict_lookup data "platform" = Some platform
      /\ dict_lookup data "type" = Some kind.
Proof.
  intros platform link st shown st' data Hmain Hin.
  destruct (main_request_cases platform link st)
    as [(Hl & Hrun)|[(Hl & Hv & Hrun)|(p & k & Hl & Hname & Hv & Hrun)]].
  - rewrite Hrun in Hmain. injection Hmain as <- <-. destruct Hin.
  - rewrite Hrun in Hmain. injection Hmain as <- <-.
    destruct Hin as [H|[]]. discriminate.
  - rewrite Hrun in Hmain. unfold bind in Hmain.
    destruct (construct p st) as [[[]|e] st1].
    + destruct (scrape p k link st1) as [[r|e] st2] eqn:Hscrape;
        injection Hmain as <- <-.
      * destruct Hin as [H|[H|[]]]; [discriminate|]. injection H as ->.
        destruct (scrape_labelled _ _ _ _ _ _ Hscrape) as (Hp & Ht).
        exists (link_type p k). subst platform. auto.
      * destruct Hin as [H|[H|[]]]; discriminate.
    + injection Hmain as <- <-. destruct Hin as [H|[H|[]]]; discriminate.
Qed.

End Request.

Lemma shown_record_matches_link_witness :
  exists kind,
    validate_social_link "TikTok" "https://www.tiktok.com/@a/video/1"
    = (true, kind)
    /\ dict_lookup [("platform", "TikTok"); ("type", "video"); ("likes", "12.3K")]
                   "platform" = Some "TikTok"
    /\ dict_lookup [("platform", "TikTok"); ("type", "video"); ("likes", "12.3K")]
                   "type" = Some kind.
Proof.
  eapply (shown_record_matches_link
            (B := stub_browser [("strong[data-e2e='like-count']", "12.3K")])
            "TikTok" "https://www.tiktok.com/@a/video/1" (stub_fresh 0)).
  - vm_compute. reflexivity.
  - right. left. reflexivity.
Defined.

Example main_request_launch_failure :
  fst (main_request (B := stub_browser []) "YouTube"
                    "https://youtube.com/@example" (stub_fresh 3))
  = Ret [ UiSuccess "Valid YouTube channel link detected!";
          UiError "An error occurred while scraping: Failed to initialize Chrome driver after 3 attempts: chrome not reachable" ].
Proof. vm_compute. reflexivity. Qed.

(** ** The order of a selector loop *)

Lemma dict_lookup_set_same :
  forall (d : dict string) key v, dict_lookup (dict_set d key v) key = Some v.
Proof.
  induction d as [|[k x] d IH]; intros key v; cbn.
  - now rewrite String.eqb_refl.
  - destruct (String.eqb k key) eqn:E; cbn; rewrite E; [reflexivity | apply IH].
Qed.

Lemma truthy_nonempty :
  forall s, PyStr.truthy s = true -> s <> "".
Proof. intros [|c s] H; [discriminate | discriminate]. Qed.

Section LoopOrder.

Context {World Drv Elem : Type} {B : Browser World Drv Elem}.

Local Abbreviation State := (@State World Drv).

(** The field [key] was assigned at the locator [last]: the wait for it
    returned an element, a first read of the element's text gave a text
    that is not blank, a second read gave [t'] and left the world of
    [st'], and [result] is the one of [st] with the trimmed [t'] under
    [key]. *)
Definition assigned_at (d : Drv) (key last : string) (st st' : State) : Prop :=
  exists w0 el w t w1 t',
    wait_until_present d 20 By_CSS_SELECTOR last w0 = (Ret el, w)
    /\ text el w = (Ret t, w1)
    /\ PyStr.strip t <> ""
    /\ text el w1 = (Ret t', st_world st')
    /\ dict_lookup (st_result st') key = Some (PyStr.strip t')
    /\ forall key',
        key' <> key ->
        dict_lookup (st_result st') key' = dict_lookup (st_result st) key'.

(** One turn of a selector loop on an object with a [wait]: the locator is
    waited for once, and the turn either goes on with [result] as it was
    or has assigned the field and leaves the loop. *)
Lemma selector_turn_once :
  forall safely key selector (st : State) d,
    self_wait (st_self st) = Some d ->
    exists c st',
      selector_turn (find_by safely) key selector st = (Ret c, st')
      /\ st_trace st' = (st_trace st ++ [EvWait By_CSS_SELECTOR selector])%list
      /\ st_self st' = st_self st
      /\ ((c = Continue /\ st_result st' = st_result st)
          \/ (c = Break
              /\ exists el w t w1 t',
                  wait_until_present d 20 By_CSS_SELECTOR selector (st_world st)
                  = (Ret el, w)
                  /\ text el w = (Ret t, w1)
                  /\ PyStr.strip t <> ""
                  /\ text el w1 = (Ret t', st_world st')
                  /\ st_result st'
                     = dict_set (st_result st) key (PyStr.strip t'))).
Proof.
  intros safely key selector st d Hw.
  unfold selector_turn, find_by, find_safely, find_waiting, _safe_find_element,
    wait_until, the_wait, elem_text, set_item.
  destruct safely; run_monad; rewrite Hw; cbn;
    destruct (wait_until_present d 20 By_CSS_SELECTOR selector (st_world st))
      as [[el|e] w]; cbn;
    try (eexists; eexists; split; [reflexivity|]; split; [reflexivity|];
         split; [reflexivity|]; left; split; reflexivity);
    destruct (text el w) as [[t|e] w1] eqn:Ht; cbn;
    try (eexists; eexists; split; [reflexivity|]; split; [reflexivity|];
         split; [reflexivity|]; left; split; reflexivity);
    destruct (PyStr.truthy (PyStr.strip t)) eqn:Htruthy; cbn;
    try (eexists; eexists; split; [reflexivity|]; split; [reflexivity|];
         split; [reflexivity|]; left; split; reflexivity);
    destruct (text el w1) as [[t'|e] w2] eqn:Ht'; cbn;
    try (eexists; eexists; split; [reflexivity|]; split; [reflexivity|];
         split; [reflexivity|]; left; split; reflexivity);
    (eexists; eexists; split; [reflexivity|]; split; [reflexivity|];
     split; [reflexivity|]; right; split; [reflexivity|];
     exists el, w, t, w1, t'; cbn;
     repeat split; try assumption; apply truthy_nonempty; exact Htruthy).
Qed.

(** X17. A [for selector in ..._selectors] loop never raises.  On an
    object with a [wait] it waits for the locators in declared order, each
    one once, and for no locator after the one at which it assigned the
    field; it leaves the scraper object as it was.  When it has not
    assigned the field it has tried every locator and [result] is as it
    was; on an empty list it does nothing.  When it has assigned the
    field, it did so at the last locator it tried: the first read of that
    element's text was not blank, and the field holds the trimmed text of
    the second read, every other field being as it was. *)
Theorem selector_loop_order :
  forall safely key locators (st : State) d,
    self_wait (st_self st) = Some d ->
    for_each [] (selector_turn (find_by safely) key) st = (Ret None, st)
    /\ exists tried rest st',
        locators = (tried ++ rest)%list
        /\ for_each locators (selector_turn (find_by safely) key) st
           = (Ret None, st')
        /\ st_trace st'
           = (st_trace st ++ map (EvWait By_CSS_SELECTOR) tried)%list
        /\ st_self st' = st_self st
        /\ ((rest = [] /\ st_result st' = st_result st)
            \/ (exists before last,
                   tried = (before ++ [last])%list
                   /\ assigned_at d key last st st')).
Proof.
  intros safely key locators st d Hw. split; [reflexivity|].
  revert st Hw. induction locators as [|l rest IH]; intros st Hw.
  - exists [], [], st. cbn. rewrite app_nil_r. repeat split. left. auto.
  - destruct (selector_turn_once safely key l st d Hw)
      as (c & st1 & Hturn & Htr & Hself
          & [(-> & Hres)|(-> & el & w & t & w1 & t' & Hf & Ht & Hne & Ht' & Hres)]).
    + assert (Hw1 : self_wait (st_self st1) = Some d) by congruence.
      destruct (IH st1 Hw1)
        as (tried & rest' & st' & Hsplit & Hloop & Htr' & Hself' & Hend).
      exists (l :: tried), rest', st'. rewrite for_each_cons, Hturn.
      split; [|split; [|split; [|split]]].
      * cbn. now rewrite Hsplit.
      * exact Hloop.
      * rewrite Htr', Htr. cbn. now rewrite <- app_assoc.
      * congruence.
      * destruct Hend as [(-> & Hsame)|(before & last & -> & Hset)].
        -- left. split; [reflexivity | congruence].
        -- right. exists (l :: before), last.
           split; [reflexivity|].
           destruct Hset as (w0 & el & w & t & w1 & t' & Hf & Ht & Hne & Ht'
                             & Hval & Hother).
           exists w0, el, w, t, w1, t'. repeat split; try assumption.
           intros key' Hk. rewrite (Hother key' Hk), Hres. reflexivity.
    + exists [l], rest, st1. rewrite for_each_cons, Hturn.
      split; [reflexivity|]. split; [reflexivity|].
      split; [exact Htr|]. split; [exact Hself|].
      right. exists [], l. split; [reflexivity|].
      exists (st_world st), el, w, t, w1, t'. repeat split; try assumption.
      * rewrite Hres. apply dict_lookup_set_same.
      * intros key' Hk. rewrite Hres. apply dict_lookup_set_other.
        intros Heq. apply Hk. symmetry. exact Heq.
Qed.

End LoopOrder.

Lemma selector_loop_order_witness :
  for_each instagram_follower_selectors
           (selector_turn (B := stub_browser followers_page)
              (find_by (B := stub_browser followers_page) true) "followers")
           (with_result (stub_state 0 0) instagram_profile_result)
  = (Ret None,
     mk_state (mk_stub 0 0 0)
              [EvWait By_CSS_SELECTOR "li:nth-child(2) span span";
               EvWait By_CSS_SELECTOR "span._ac2a"]
              (mk_self (Some (Some tt)) (Some tt) 3 2)
              [ ("platform", "Instagram"); ("type", "profile");
                ("followers", "1,234"); ("following", "Not available");
                ("posts", "Not available") ]).
Proof.
  destruct (selector_loop_order
              (B := stub_browser followers_page)
              true "followers" instagram_follower_selectors
              (with_result (stub_state 0 0) instagram_profile_result) tt
              eq_refl)
    as (_ & tried & rest & st' & _ & Hloop & _).
  rewrite Hloop. vm_compute in Hloop. injection Hloop as <-. reflexivity.
Defined.

(** A YouTube channel page on which only the [og:title] meta tag is found,
    with nothing but the suffix in it. *)
Definition suffix_only_page : dict string :=
  [ (youtube_scroll_script, ""); ("//meta[@property='og:title']", " - YouTube") ].

Example youtube_channel_name_can_be_empty :
  fst (scrape (B := stub_browser suffix_only_page) YouTube Profile
              "youtube.com/@example" (stub_state 0 0))
  = Ret [ ("platform", "YouTube"); ("type", "channel");
          ("channel_name", ""); ("subscribers", "Not available") ].
Proof. vm_compute. reflexivity. Qed.
